(** * csv2struct: header reconciliation and row decoding

    A shallow embedding of [csv_to_struct.go] and [errors.go] of
    htmd/csv2struct, and the properties of its specification.

    [csv_to_struct.go] holds two revisions of the decoder.  The first one
    (lines 1-258) is embedded in module [Rev1]; the second one (lines
    259-539) differs in [unmarshal], [setField] and [isSupportedField] and is
    embedded in module [Rev2].  Everything the two revisions share
    ([csvFieldInfo], [DecodeStruct], [reset], [ParseHeader], the options) is
    embedded once. *)

From Stdlib Require Import ZArith String Ascii List Bool Lia.
From stdpp Require Import base option list strings.

Local Open Scope string_scope.
Local Open Scope Z_scope.

(** ** The Go side: errors, library functions, reflection *)

(** [strconv.ErrSyntax] and [strconv.ErrRange]. *)
Inductive NumErr := ErrSyntax | ErrRange.

(** The fields of a [*time.ParseError]. *)
Record time_ParseError := {
  Layout : string;
  Value : string;
  LayoutElem : string;
  ValueElem : string;
  Message : string
}.

(** The error values the package returns: its own [IncorrectFileErr]
    (errors.go), the values of [errors.New] and [fmt.Errorf], and the error
    types of [strconv] and [time]. *)
Inductive error :=
| IncorrectFileErr (message : string)
| errorString (message : string)
| NumError (Func Num : string) (Err : NumErr)
| TimeParseError (e : time_ParseError).

Definition NewIncorrectFileErr (message : string) : error :=
  IncorrectFileErr message.

Definition Error (e : error) : string :=
  match e with
  | IncorrectFileErr m => m
  | errorString m => m
  | NumError f n ErrSyntax =>
      "strconv." ++ f ++ ": parsing " ++ n ++ ": invalid syntax"
  | NumError f n ErrRange =>
      "strconv." ++ f ++ ": parsing " ++ n ++ ": value out of range"
  | TimeParseError e => Message e
  end.

(** How a call ends: it returns nil, returns an error, or panics. *)
Inductive outcome :=
| Nil
| Err (e : error)
| Panic (msg : string).

(** [time.RFC3339]. *)
Definition time_RFC3339 : string := "2006-01-02T15:04:05Z07:00".

(** The platform and the functions of the Go standard library that work on
    Unicode text, floating point numbers and calendar time are parameters
    of the development: [strconv.IntSize], the size in bits of an [int],
    [strings.ToLower], [strings.TrimSpace], [strconv.Quote] (the verb %q of
    [fmt.Sprintf]), [strconv.ParseFloat(s, 64)], the conversion
    [float64(float32(x))] and [time.Parse].  What the development uses of
    them is part of the record: [IntSize] is 32 or 64; [ParseFloat] finds
    no digit in the empty text and returns a syntax error (readFloat in
    strconv/atof.go); [time.Parse] with the empty layout has no element to
    read and accepts the empty text, for which it returns the first day of
    the year 0, and with the layout [time.RFC3339] it misses the four digits
    of the year in the empty text and returns an error (parse in
    time/format.go). *)
Record GoStd := {
  IntSize : Z;
  float64 : Type;
  Time : Type;
  float64_zero : float64;
  Time_zero : Time;
  strings_ToLower : string -> string;
  strings_TrimSpace : string -> string;
  strconv_Quote : string -> string;
  strconv_ParseFloat : string -> float64 + NumErr;
  float32_round : float64 -> float64;
  time_Parse : string -> string -> Time + time_ParseError;
  IntSize_platform : IntSize = 32 \/ IntSize = 64;
  ParseFloat_empty : strconv_ParseFloat "" = inr ErrSyntax;
  time_Parse_empty_layout : exists t, time_Parse "" "" = inl t;
  time_Parse_RFC3339_empty : exists e, time_Parse time_RFC3339 "" = inr e
}.

(** ** The decoder state *)

(** [csvFieldInfo].  [RecordIndex] is a Go [int]; -1 marks a column that is
    not bound. *)
Record csvFieldInfo := {
  Header : string;
  Required : bool;
  RecordIndex : Z;
  StructFieldIndex : nat
}.

Definition set_RecordIndex (f : csvFieldInfo) (i : Z) : csvFieldInfo :=
  {| Header := Header f; Required := Required f; RecordIndex := i;
     StructFieldIndex := StructFieldIndex f |}.

Module reflect.
(** [reflect.Kind] of a type that is not a pointer; a pointer type is the
    constructor [Pointer] of [rtype] below. *)
Inductive Kind :=
| Bool | Int | Int8 | Int16 | Int32 | Int64
| Uint | Uint8 | Uint16 | Uint32 | Uint64 | Uintptr
| Float32 | Float64 | Complex64 | Complex128
| Array | Chan | Func | Interface | Map | Slice
| String | Struct | UnsafePointer.
End reflect.

(** What the decoder observes of a [reflect.Type]: its [Kind()], its
    [String()] and, for a pointer, its [Elem()]; and its [PkgPath()], by
    which the type switch of the second revision and [Value.Set] tell a
    type from the types of other packages that print alike. The path is
    empty for the predeclared types and for the types that are not
    defined. *)
Inductive rtype :=
| Plain (k : reflect.Kind) (str : string) (pkg : string)
| Pointer (elem : rtype).

Fixpoint rtype_String (t : rtype) : string :=
  match t with
  | Plain _ s _ => s
  | Pointer e => "*" ++ rtype_String e
  end.

(** The type [time.Time] of the package [time]. *)
Definition time_Time : rtype := Plain reflect.Struct "time.Time" "time".

(** [reflect.StructField]: [Tag] lists the key:value pairs of the struct
    tag in their order, and [Exported] is [PkgPath == ""]. *)
Record StructField := {
  Name : string;
  Type_ : rtype;
  Tag : list (string * string);
  Exported : bool
}.

(** [StructTag.Get]: the value of the first pair with that key, or the
    empty string. *)
Fixpoint Tag_Get (tag : list (string * string)) (key : string) : string :=
  match tag with
  | [] => ""
  | (k, v) :: rest => if String.eqb k key then v else Tag_Get rest key
  end.

(** A struct type: its [String()] and its fields. *)
Record StructType := {
  TypeString : string;
  Fields : list StructField
}.

(** [DecodeStruct].  [cols] holds the [csvFieldInfo] objects themselves;
    a [*csvFieldInfo] is the position of its object in [cols], so
    [foundCols], a slice of such pointers, is a list of positions: writing
    [RecordIndex] through a pointer is seen through every copy of it. *)
Record DecodeStruct := {
  cols : list csvFieldInfo;
  foundCols : list nat;
  recordType : StructType;
  timeFormat : string;
  csvTagName : string;
  csvTagFieldSep : string
}.

Definition with_binding (r : DecodeStruct) (cs : list csvFieldInfo)
    (fc : list nat) : DecodeStruct :=
  {| cols := cs; foundCols := fc; recordType := recordType r;
     timeFormat := timeFormat r; csvTagName := csvTagName r;
     csvTagFieldSep := csvTagFieldSep r |}.

(** [reset]: every [RecordIndex] back to -1, [foundCols] to nil. *)
Definition reset (r : DecodeStruct) : DecodeStruct :=
  with_binding r (map (fun col => set_RecordIndex col (-1)) (cols r)) [].

Section Header.
Variable L : GoStd.

(** The inner loop of [ParseHeader], [for _, f := range r.cols], from
    position [j] of [cols] on: the objects after the loop, the pointers
    appended to [foundCols], and [found]. *)
Fixpoint ParseHeader_bind (i : Z) (col : string) (j : nat)
    (cs : list csvFieldInfo) (found : bool)
    : list csvFieldInfo * list nat * bool :=
  match cs with
  | [] => ([], [], found)
  | f :: rest =>
      if String.eqb (Header f) col then
        let '(rest', fc, found') := ParseHeader_bind i col (S j) rest true in
        (set_RecordIndex f i :: rest', j :: fc, found')
      else
        let '(rest', fc, found') := ParseHeader_bind i col (S j) rest found in
        (f :: rest', fc, found')
  end.

Definition unexpected_column (cell : string) : error :=
  NewIncorrectFileErr ("Unexpected column " ++ strconv_Quote L cell).

Definition mandatory_missing (f : csvFieldInfo) : error :=
  NewIncorrectFileErr
    ("Mandatory column " ++ strconv_Quote L (Header f) ++ " is missing").

(** The outer loop of [ParseHeader], [for i, col := range header], from
    position [i] on; [Some e] is the early return. *)
Fixpoint ParseHeader_scan (r : DecodeStruct) (i : nat)
    (header : list string) : DecodeStruct * option error :=
  match header with
  | [] => (r, None)
  | cell :: rest =>
      let col := strings_ToLower L (strings_TrimSpace L cell) in
      let '(cs, fc, found) :=
        ParseHeader_bind (Z.of_nat i) col 0 (cols r) false in
      let r' := with_binding r cs (foundCols r ++ fc) in
      if found then ParseHeader_scan r' (S i) rest
      else (r', Some (unexpected_column cell))
  end.

(** The last loop of [ParseHeader]: the first required column that is
    still unbound. *)
Fixpoint ParseHeader_required (cs : list csvFieldInfo) : option error :=
  match cs with
  | [] => None
  | f :: rest =>
      if Required f && (RecordIndex f =? -1) then Some (mandatory_missing f)
      else ParseHeader_required rest
  end.

Definition ParseHeader (r : DecodeStruct) (header : list string)
    : DecodeStruct * option error :=
  let r := reset r in
  match ParseHeader_scan r 0 header with
  | (r', Some e) => (r', Some e)
  | (r', None) => (r', ParseHeader_required (cols r'))
  end.

End Header.

(** ** strconv and strings, as far as they are plain byte work *)

(** [strconv.ParseBool]. *)
Definition strconv_ParseBool (str : string) : bool + error :=
  if existsb (String.eqb str) ["1"; "t"; "T"; "TRUE"; "true"; "True"]
  then inl true
  else if existsb (String.eqb str) ["0"; "f"; "F"; "FALSE"; "false"; "False"]
  then inl false
  else inr (NumError "ParseBool" str ErrSyntax).

Definition maxUint64 : Z := 2 ^ 64 - 1.

(** [strconv.ParseUint] and [strconv.ParseInt] in base 10.  [bits] is the
    bit size in force: the decoder passes 0, for which both functions take
    [strconv.IntSize]. *)
Section Integers_of_text.
Variable bits : Z.

(** The digit loop of [strconv.ParseUint] on the accumulator [n]: the
    uint64 arithmetic wraps modulo 2^64 as in the source, whose overflow
    tests are [n >= cutoff] and [n1 < n || n1 > maxVal]. *)
Fixpoint ParseUint_digits (n : Z) (s : string) : Z * option NumErr :=
  match s with
  | EmptyString => (n, None)
  | String c rest =>
      let c := Z.of_nat (nat_of_ascii c) in
      if (48 <=? c) && (c <=? 57) then
        let d := c - 48 in
        let cutoff := maxUint64 / 10 + 1 in
        let maxVal := (2 ^ bits - 1) mod 2 ^ 64 in
        if n >=? cutoff then (maxVal, Some ErrRange)
        else
          let n := (n * 10) mod 2 ^ 64 in
          let n1 := (n + d) mod 2 ^ 64 in
          if (n1 <? n) || (n1 >? maxVal) then (maxVal, Some ErrRange)
          else ParseUint_digits n1 rest
      else (0, Some ErrSyntax)
  end.

(** [strconv.ParseUint], value and [NumError.Err]. *)
Definition ParseUint_raw (s : string) : Z * option NumErr :=
  match s with
  | EmptyString => (0, Some ErrSyntax)
  | _ => ParseUint_digits 0 s
  end.

Definition strconv_ParseUint (s : string) : Z * option error :=
  match ParseUint_raw s with
  | (un, None) => (un, None)
  | (un, Some e) => (un, Some (NumError "ParseUint" s e))
  end.

(** [strconv.ParseInt]: sign, [ParseUint], then the range of a signed
    integer of [bits] bits. *)
Definition strconv_ParseInt (s0 : string) : Z * option error :=
  match s0 with
  | EmptyString => (0, Some (NumError "ParseInt" s0 ErrSyntax))
  | String c rest =>
      let '(neg, s) :=
        if Ascii.eqb c "+" then (false, rest)
        else if Ascii.eqb c "-" then (true, rest)
        else (false, s0) in
      match ParseUint_raw s with
      | (_, Some ErrSyntax) => (0, Some (NumError "ParseInt" s0 ErrSyntax))
      | (un, _) =>
          let cutoff := 2 ^ (bits - 1) in
          if negb neg && (un >=? cutoff)
          then (cutoff - 1, Some (NumError "ParseInt" s0 ErrRange))
          else if neg && (un >? cutoff)
          then (- cutoff, Some (NumError "ParseInt" s0 ErrRange))
          else (if neg then - un else un, None)
      end
  end.

End Integers_of_text.

(** [strings.Split(s, sep)] for a separator that is not empty: [cur] is the
    piece being read and [skip] counts the bytes of a separator still to
    drop.  With the empty separator Go cuts after every UTF-8 sequence; the
    embedding cuts after every byte, which is the same on ASCII text. *)
Fixpoint Split_from (sep : string) (skip : nat) (cur : string) (s : string)
    : list string :=
  match s with
  | EmptyString => [cur]
  | String c rest =>
      match skip with
      | S k => Split_from sep k cur rest
      | O =>
          if String.prefix sep s
          then cur :: Split_from sep (Nat.pred (String.length sep)) "" rest
          else Split_from sep O (cur ++ String c "") rest
      end
  end.

Fixpoint explode (s : string) : list string :=
  match s with
  | EmptyString => []
  | String c rest => String c "" :: explode rest
  end.

Definition strings_Split (s sep : string) : list string :=
  match sep with
  | EmptyString => explode s
  | _ => Split_from sep O "" s
  end.

(** ** Values and records *)

#[global] Instance NumErr_eq_dec : EqDecision NumErr.
Proof. solve_decision. Defined.
#[global] Instance Kind_eq_dec : EqDecision reflect.Kind.
Proof. solve_decision. Defined.
#[global] Instance rtype_eq_dec : EqDecision rtype.
Proof. solve_decision. Defined.

(** The conversions of [reflect.Value.SetInt] and [SetUint] to the width of
    the field: Go's integer conversions truncate. *)
Definition to_signed (bits x : Z) : Z :=
  (x + 2 ^ (bits - 1)) mod 2 ^ bits - 2 ^ (bits - 1).

Definition to_unsigned (bits x : Z) : Z := x mod 2 ^ bits.

Section Values.
Variable L : GoStd.

(** The width in bits of the integers of a kind: [int] and [uint] have
    the size of the platform. *)
Definition bitSize (k : reflect.Kind) : Z :=
  match k with
  | reflect.Int8 | reflect.Uint8 => 8
  | reflect.Int16 | reflect.Uint16 => 16
  | reflect.Int32 | reflect.Uint32 => 32
  | reflect.Int | reflect.Uint => IntSize L
  | _ => 64
  end.

(** The value of a struct field.  [VPtr None] is the nil pointer,
    [VPtr (Some v)] points to a variable holding [v]; [VIface None] is the
    nil interface value, [VIface (Some (t, v))] an interface value that
    holds the value [v] of the type [t]; [VOpaque] is a value of a kind the
    decoder never writes. *)
Inductive value :=
| VBool (b : bool)
| VInt (i : Z)
| VUint (u : Z)
| VFloat (x : float64 L)
| VString (s : string)
| VTime (t : Time L)
| VPtr (p : option value)
| VIface (held : option (rtype * value))
| VOpaque.

(** The zero value of a type ([reflect.New], [reflect.Zero]). *)
Definition zero (t : rtype) : value :=
  match t with
  | Pointer _ => VPtr None
  | Plain k str pkg =>
      match k with
      | reflect.Bool => VBool false
      | reflect.Int | reflect.Int8 | reflect.Int16 | reflect.Int32
      | reflect.Int64 => VInt 0
      | reflect.Uint | reflect.Uint8 | reflect.Uint16 | reflect.Uint32
      | reflect.Uint64 | reflect.Uintptr => VUint 0
      | reflect.Float32 | reflect.Float64 => VFloat (float64_zero L)
      | reflect.String => VString ""
      | reflect.Struct =>
          if bool_decide (t = time_Time) then VTime (Time_zero L) else VOpaque
      | reflect.Interface => VIface None
      | _ => VOpaque
      end
  end.

Definition SetInt (k : reflect.Kind) (x : Z) : value :=
  VInt (to_signed (bitSize k) x).

Definition SetUint (k : reflect.Kind) (x : Z) : value :=
  VUint (to_unsigned (bitSize k) x).

Definition SetFloat (k : reflect.Kind) (x : float64 L) : value :=
  match k with
  | reflect.Float32 => VFloat (float32_round L x)
  | _ => VFloat x
  end.

(** A struct variable behind a pointer: its type and the values of its
    fields, by field index. *)
Record instance := {
  itype : StructType;
  ifields : list value
}.

Definition New (t : StructType) : instance :=
  {| itype := t; ifields := map (fun f => zero (Type_ f)) (Fields t) |}.

End Values.

Arguments VBool {L} b.
Arguments VInt {L} i.
Arguments VUint {L} u.
Arguments VFloat {L} x.
Arguments VString {L} s.
Arguments VTime {L} t.
Arguments VPtr {L} p.
Arguments VIface {L} held.
Arguments VOpaque {L}.
Arguments itype {L} i.
Arguments ifields {L} i.

#[global] Instance StructField_eq_dec : EqDecision StructField.
Proof. solve_decision. Defined.
#[global] Instance StructType_eq_dec : EqDecision StructType.
Proof. solve_decision. Defined.

Definition unsupported_type (s : string) : string :=
  "CSV struct reader does not support struct field with type: " ++ s.

(** The panic of [Value.Set] with a [time.Time] on a field of type [t]. *)
Definition not_assignable (t : rtype) : string :=
  "reflect.Set: value of type time.Time is not assignable to type "
  ++ rtype_String t.

(** The panic of a setter of [reflect.Value] on a value of another kind. *)
Definition wrong_kind (setter : string) : string :=
  "reflect: call of reflect.Value." ++ setter ++ " on interface Value".

(** ** Options and construction, shared by the two revisions *)

Inductive option_ :=
| WithTimeFormat (s : string)
| WithCSVTagName (n : string)
| WithCSVTagFieldSep (s : string).

Definition apply_option (o : option_) (c : DecodeStruct) : DecodeStruct :=
  match o with
  | WithTimeFormat s =>
      {| cols := cols c; foundCols := foundCols c; recordType := recordType c;
         timeFormat := s; csvTagName := csvTagName c;
         csvTagFieldSep := csvTagFieldSep c |}
  | WithCSVTagName n =>
      {| cols := cols c; foundCols := foundCols c; recordType := recordType c;
         timeFormat := timeFormat c; csvTagName := n;
         csvTagFieldSep := csvTagFieldSep c |}
  | WithCSVTagFieldSep s =>
      {| cols := cols c; foundCols := foundCols c; recordType := recordType c;
         timeFormat := timeFormat c; csvTagName := csvTagName c;
         csvTagFieldSep := s |}
  end.

Definition defaultCSVTagName : string := "csv".
Definition defaultCSVTagFieldSep : string := ",".
(** The argument [v] of [NewDecodeStruct] as [reflect.ValueOf] sees it: a
    struct, a pointer whose [Elem()] is a struct, or anything else (a nil
    pointer included, whose [Elem()] has kind Invalid). *)
Inductive shape :=
| OfStruct (t : StructType)
| OfPointer (t : StructType)
| OfOther.

(** What [NewDecodeStruct] does: return a decoder, or panic. *)
Inductive built :=
| Built (r : DecodeStruct)
| BuildPanic (msg : string).

Definition add_col (reader : DecodeStruct) (c : csvFieldInfo) : DecodeStruct :=
  with_binding reader (cols reader ++ [c]) (foundCols reader).

Definition set_recordType (reader : DecodeStruct) (rt : StructType)
    : DecodeStruct :=
  {| cols := cols reader; foundCols := foundCols reader; recordType := rt;
     timeFormat := timeFormat reader; csvTagName := csvTagName reader;
     csvTagFieldSep := csvTagFieldSep reader |}.

(** The statements of the loop body of [NewDecodeStruct] after the test of
    [isSupportedField], for field [i]: [None] is the panic of an index out
    of range at [tagFields[0]]. *)
Definition field_info (L : GoStd) (reader : DecodeStruct) (i : nat)
    (f : StructField) : option (option csvFieldInfo) :=
  let csvTag := Tag_Get (Tag f) (csvTagName reader) in
  if String.eqb csvTag "-" then Some None
  else
    let named :=
      if (0 <? String.length csvTag)%nat then
        let tagFields := strings_Split csvTag (csvTagFieldSep reader) in
        match tagFields with
        | [] => None
        | headerName :: more =>
            Some (headerName,
                  match more with
                  | flag :: _ => String.eqb flag "required"
                  | [] => false
                  end)
        end
      else Some (Name f, false) in
    match named with
    | None => None
    | Some (headerName, required) =>
        Some (Some {| Header := strings_ToLower L headerName;
                      Required := required;
                      StructFieldIndex := i;
                      RecordIndex := -1 |})
    end.

(** ** The first revision (csv_to_struct.go, lines 1-258) *)

Module Rev1.
Section Decoder.
Variable L : GoStd.

(** [isSupportedField]. *)
Fixpoint isSupportedField (f : rtype) : bool :=
  match f with
  | Plain k str pkg =>
      match k with
      | reflect.Int | reflect.Int8 | reflect.Int16 | reflect.Int32
      | reflect.Int64
      | reflect.Uint | reflect.Uint8 | reflect.Uint16 | reflect.Uint32
      | reflect.Uint64
      | reflect.Float32 | reflect.Float64 | reflect.Bool
      | reflect.String => true
      | reflect.Struct => String.eqb str "time.Time"
      | _ => false
      end
  | Pointer elem => isSupportedField elem
  end.

(** The loop of [NewDecodeStruct] over the fields, from field [i] on. *)
Fixpoint NewDecodeStruct_fields (reader : DecodeStruct) (i : nat)
    (fs : list StructField) : built :=
  match fs with
  | [] => Built reader
  | f :: rest =>
      if negb (isSupportedField (Type_ f)) then
        BuildPanic (unsupported_type (rtype_String (Type_ f)))
      else
        match field_info L reader i f with
        | None => BuildPanic "index out of range"
        | Some None => NewDecodeStruct_fields reader (S i) rest
        | Some (Some c) => NewDecodeStruct_fields (add_col reader c) (S i) rest
        end
  end.

Definition NewDecodeStruct (v : shape) (opts : list option_) : built :=
  match v with
  | OfOther =>
      BuildPanic
        "argument of NewDecodeStruct must be an struct or pointer to struct"
  | OfStruct rt | OfPointer rt =>
      let reader :=
        fold_left (fun c opt => apply_option opt c) opts
          {| cols := []; foundCols := [];
             recordType := {| TypeString := ""; Fields := [] |};
             timeFormat := time_RFC3339;
             csvTagName := defaultCSVTagName;
             csvTagFieldSep := defaultCSVTagFieldSep |} in
      match NewDecodeStruct_fields reader 0 (Fields rt) with
      | Built reader => Built (set_recordType reader rt)
      | BuildPanic msg => BuildPanic msg
      end
  end.

(** [setField] on a field of type [t] that holds [f]: the value the field
    holds afterwards, and how the call ends.  [f.Set(reflect.ValueOf(t))]
    stores a [time.Time]: on a field of a struct type that prints as
    time.Time and is not the type of the package [time], the value is not
    assignable and [Set] panics. *)
Fixpoint setField (r : DecodeStruct) (t : rtype) (f : value L) (s : string)
    : value L * outcome :=
  match t with
  | Pointer elem =>
      let z := zero L elem in
      let '(z', res) := setField r elem z s in
      (VPtr (Some z'), res)
  | Plain k str pkg =>
      match k with
      | reflect.String => (VString s, Nil)
      | reflect.Bool =>
          match strconv_ParseBool s with
          | inr err => (f, Err err)
          | inl b => (VBool b, Nil)
          end
      | reflect.Int | reflect.Int8 | reflect.Int16 | reflect.Int32
      | reflect.Int64 =>
          match strconv_ParseInt (IntSize L) s with
          | (_, Some err) => (f, Err err)
          | (i, None) => (SetInt L k i, Nil)
          end
      | reflect.Uint | reflect.Uint8 | reflect.Uint16 | reflect.Uint32
      | reflect.Uint64 =>
          match strconv_ParseUint (IntSize L) s with
          | (_, Some err) => (f, Err err)
          | (ui, None) => (SetUint L k ui, Nil)
          end
      | reflect.Float32 | reflect.Float64 =>
          match strconv_ParseFloat L s with
          | inr e => (f, Err (NumError "ParseFloat" s e))
          | inl fv => (SetFloat L k fv, Nil)
          end
      | reflect.Struct =>
          if negb (String.eqb str "time.Time") then
            (f, Err (errorString (unsupported_type str)))
          else
            match time_Parse L (timeFormat r) s with
            | inr e => (f, Err (TimeParseError e))
            | inl x =>
                if bool_decide (t = time_Time) then (VTime x, Nil)
                else (f, Panic (not_assignable t))
            end
      | _ => (f, Err (errorString (unsupported_type str)))
      end
  end.

(** One turn of the loop of [unmarshal], for the pointer [j] of
    [foundCols]: the fields of the target afterwards, and [Nil] when the
    loop goes on. *)
Definition unmarshal_column (r : DecodeStruct) (rv : list (value L))
    (record : list string) (j : nat) : list (value L) * outcome :=
  match cols r !! j with
  | None => (rv, Panic "invalid memory address or nil pointer dereference")
  | Some c =>
      if RecordIndex c <? 0 then (rv, Panic "index out of range")
      else
        match record !! Z.to_nat (RecordIndex c) with
        | None => (rv, Panic "index out of range")
        | Some s =>
            if negb (Required c) && (String.length s =? 0)%nat then (rv, Nil)
            else
              match Fields (recordType r) !! StructFieldIndex c,
                    rv !! StructFieldIndex c with
              | Some fld, Some f =>
                  if Exported fld then
                    let '(f', res) := setField r (Type_ fld) f s in
                    (<[StructFieldIndex c := f']> rv, res)
                  else (rv, Nil)
              | _, _ => (rv, Panic "reflect: Field index out of range")
              end
        end
  end.

Fixpoint unmarshal_loop (r : DecodeStruct) (rv : list (value L))
    (record : list string) (fc : list nat) : list (value L) * outcome :=
  match fc with
  | [] => (rv, Nil)
  | j :: rest =>
      match unmarshal_column r rv record j with
      | (rv', Nil) => unmarshal_loop r rv' record rest
      | stop => stop
      end
  end.

Definition unmarshal (r : DecodeStruct) (rv : list (value L))
    (record : list string) : list (value L) * outcome :=
  unmarshal_loop r rv record (foundCols r).

(** [UnmarshalCSV] on a pointer [v] to a struct variable: the variable
    afterwards, and how the call ends. *)
Definition UnmarshalCSV (r : DecodeStruct) (record : list string)
    (v : instance L) : instance L * outcome :=
  if negb (length record =? length (foundCols r))%nat then
    (v, Err (errorString "csv record must have same column with csv header"))
  else if negb (bool_decide (itype v = recordType r)) then
    (v, Err (errorString
               ("second argument of UnmarshalCSV function must be a pointer to "
                ++ TypeString (recordType r))))
  else
    let '(fs, res) := unmarshal r (ifields v) record in
    ({| itype := itype v; ifields := fs |}, res).

Definition GetStruct (r : DecodeStruct) (record : list string)
    : option (instance L) * outcome :=
  let v := New L (recordType r) in
  match UnmarshalCSV r record v with
  | (v', Nil) => (Some v', Nil)
  | (_, stop) => (None, stop)
  end.

End Decoder.
End Rev1.

(** ** The second revision (csv_to_struct.go, lines 259-539) *)

Module Rev2.
Section Decoder.
Variable L : GoStd.

(** [isSupportedField]. *)
Fixpoint isSupportedField (f : rtype) : bool :=
  match f with
  | Plain k str pkg =>
      match k with
      | reflect.Map | reflect.Slice | reflect.Array => false
      | reflect.Struct => String.eqb str "time.Time"
      | _ => true
      end
  | Pointer elem => isSupportedField elem
  end.

Fixpoint NewDecodeStruct_fields (reader : DecodeStruct) (i : nat)
    (fs : list StructField) : built :=
  match fs with
  | [] => Built reader
  | f :: rest =>
      if negb (isSupportedField (Type_ f)) then
        BuildPanic (unsupported_type (rtype_String (Type_ f)))
      else
        match field_info L reader i f with
        | None => BuildPanic "index out of range"
        | Some None => NewDecodeStruct_fields reader (S i) rest
        | Some (Some c) => NewDecodeStruct_fields (add_col reader c) (S i) rest
        end
  end.

Definition NewDecodeStruct (v : shape) (opts : list option_) : built :=
  match v with
  | OfOther =>
      BuildPanic
        "argument of NewDecodeStruct must be an struct or pointer to struct"
  | OfStruct rt | OfPointer rt =>
      let reader :=
        fold_left (fun c opt => apply_option opt c) opts
          {| cols := []; foundCols := [];
             recordType := {| TypeString := ""; Fields := [] |};
             timeFormat := time_RFC3339;
             csvTagName := defaultCSVTagName;
             csvTagFieldSep := defaultCSVTagFieldSep |} in
      match NewDecodeStruct_fields reader 0 (Fields rt) with
      | Built reader => Built (set_recordType reader rt)
      | BuildPanic msg => BuildPanic msg
      end
  end.

(** [Value.String()] of a value that is not of kind String. *)
Definition Value_String (t : rtype) : string :=
  "<" ++ rtype_String t ++ " Value>".

(** [setCustomField]: the switch on [f.Kind()]. *)
Definition setCustomField (t : rtype) (f : value L) (s : string)
    : value L * outcome :=
  match t with
  | Pointer _ => (f, Err (errorString (unsupported_type (Value_String t))))
  | Plain k str pkg =>
      match k with
      | reflect.String => (VString s, Nil)
      | reflect.Bool =>
          match strconv_ParseBool s with
          | inr err => (f, Err err)
          | inl b => (VBool b, Nil)
          end
      | reflect.Int | reflect.Int8 | reflect.Int16 | reflect.Int32
      | reflect.Int64 =>
          match strconv_ParseInt (IntSize L) s with
          | (_, Some err) => (f, Err err)
          | (i, None) => (SetInt L k i, Nil)
          end
      | reflect.Uint | reflect.Uint8 | reflect.Uint16 | reflect.Uint32
      | reflect.Uint64 =>
          match strconv_ParseUint (IntSize L) s with
          | (_, Some err) => (f, Err err)
          | (ui, None) => (SetUint L k ui, Nil)
          end
      | reflect.Float32 | reflect.Float64 =>
          match strconv_ParseFloat L s with
          | inr e => (f, Err (NumError "ParseFloat" s e))
          | inl fv => (SetFloat L k fv, Nil)
          end
      | _ => (f, Err (errorString (unsupported_type (Value_String t))))
      end
  end.

(** The dynamic type of [f.Interface()] for a field of type [t] that holds
    [f]: the type of the field, and for a field of an interface type the
    type of the value that the interface holds, if it holds one. *)
Definition dynamic_type (t : rtype) (f : value L) : option rtype :=
  match t with
  | Plain reflect.Interface _ _ =>
      match f with
      | VIface (Some (d, _)) => Some d
      | _ => None
      end
  | _ => Some t
  end.

(** The predeclared types that the type switch of [setField] names, by
    kind: a case [int] is taken by the type [int] itself and by no defined
    type of kind Int. *)
Definition predeclared (k : reflect.Kind) : option rtype :=
  match k with
  | reflect.Bool => Some (Plain k "bool" "")
  | reflect.String => Some (Plain k "string" "")
  | reflect.Int => Some (Plain k "int" "")
  | reflect.Int8 => Some (Plain k "int8" "")
  | reflect.Int16 => Some (Plain k "int16" "")
  | reflect.Int32 => Some (Plain k "int32" "")
  | reflect.Int64 => Some (Plain k "int64" "")
  | reflect.Uint => Some (Plain k "uint" "")
  | reflect.Uint8 => Some (Plain k "uint8" "")
  | reflect.Uint16 => Some (Plain k "uint16" "")
  | reflect.Uint32 => Some (Plain k "uint32" "")
  | reflect.Uint64 => Some (Plain k "uint64" "")
  | reflect.Float32 => Some (Plain k "float32" "")
  | reflect.Float64 => Some (Plain k "float64" "")
  | _ => None
  end.

(** The cases of the type switch [switch f.Interface().(type)]. *)
Inductive switch_case :=
| case_string
| case_bool
| case_int
| case_uint
| case_float
| case_Time
| case_default.

(** The case that a dynamic type takes; the nil interface value takes the
    default. *)
Definition type_switch (d : option rtype) : switch_case :=
  match d with
  | Some (Plain k str pkg) =>
      if bool_decide (Plain k str pkg = time_Time) then case_Time
      else if bool_decide (predeclared k = Some (Plain k str pkg)) then
        match k with
        | reflect.String => case_string
        | reflect.Bool => case_bool
        | reflect.Int | reflect.Int8 | reflect.Int16 | reflect.Int32
        | reflect.Int64 => case_int
        | reflect.Uint | reflect.Uint8 | reflect.Uint16 | reflect.Uint32
        | reflect.Uint64 => case_uint
        | reflect.Float32 | reflect.Float64 => case_float
        | _ => case_default
        end
      else case_default
  | _ => case_default
  end.

(** The type switch of [setField], on a value that is no longer
    dereferenced.  A case other than the default is taken by a field of the
    type of the case, and by a field of an interface type that holds a value
    of that type: on the latter the setters [SetString], [SetBool],
    [SetInt], [SetUint] and [SetFloat] panic, the kind of the field being
    Interface, and [Set] stores the [time.Time] in the interface. *)
Definition setField_switch (r : DecodeStruct) (t : rtype) (f : value L)
    (s : string) : value L * outcome :=
  match type_switch (dynamic_type t f) with
  | case_string =>
      match t with
      | Plain reflect.Interface _ _ | Pointer _ =>
          (f, Panic (wrong_kind "SetString"))
      | Plain _ _ _ => (VString s, Nil)
      end
  | case_bool =>
      match strconv_ParseBool s with
      | inr err => (f, Err err)
      | inl b =>
          match t with
          | Plain reflect.Interface _ _ | Pointer _ =>
              (f, Panic (wrong_kind "SetBool"))
          | Plain _ _ _ => (VBool b, Nil)
          end
      end
  | case_int =>
      match strconv_ParseInt (IntSize L) s with
      | (_, Some err) => (f, Err err)
      | (i, None) =>
          match t with
          | Plain reflect.Interface _ _ | Pointer _ =>
              (f, Panic (wrong_kind "SetInt"))
          | Plain k _ _ => (SetInt L k i, Nil)
          end
      end
  | case_uint =>
      match strconv_ParseUint (IntSize L) s with
      | (_, Some err) => (f, Err err)
      | (ui, None) =>
          match t with
          | Plain reflect.Interface _ _ | Pointer _ =>
              (f, Panic (wrong_kind "SetUint"))
          | Plain k _ _ => (SetUint L k ui, Nil)
          end
      end
  | case_float =>
      match strconv_ParseFloat L s with
      | inr e => (f, Err (NumError "ParseFloat" s e))
      | inl fv =>
          match t with
          | Plain reflect.Interface _ _ | Pointer _ =>
              (f, Panic (wrong_kind "SetFloat"))
          | Plain k _ _ => (SetFloat L k fv, Nil)
          end
      end
  | case_Time =>
      match time_Parse L (timeFormat r) s with
      | inr e => (f, Err (TimeParseError e))
      | inl x =>
          match t with
          | Plain reflect.Interface _ _ =>
              (VIface (Some (time_Time, VTime x)), Nil)
          | _ => (VTime x, Nil)
          end
      end
  | case_default => setCustomField t f s
  end.

(** [setField]: one pointer is followed, then the type switch. *)
Definition setField (r : DecodeStruct) (t : rtype) (f : value L)
    (s : string) : value L * outcome :=
  match t with
  | Pointer elem =>
      let z := zero L elem in
      let '(z', res) := setField_switch r elem z s in
      (VPtr (Some z'), res)
  | Plain _ _ _ => setField_switch r t f s
  end.

Definition unmarshal_column (r : DecodeStruct) (rv : list (value L))
    (record : list string) (j : nat) : list (value L) * outcome :=
  match cols r !! j with
  | None => (rv, Panic "invalid memory address or nil pointer dereference")
  | Some c =>
      if RecordIndex c <? 0 then (rv, Panic "index out of range")
      else
        match record !! Z.to_nat (RecordIndex c) with
        | None => (rv, Panic "index out of range")
        | Some s =>
            match Fields (recordType r) !! StructFieldIndex c,
                  rv !! StructFieldIndex c with
            | Some fld, Some f =>
                if Exported fld then
                  let '(f', res) := setField r (Type_ fld) f s in
                  (<[StructFieldIndex c := f']> rv, res)
                else (rv, Nil)
            | _, _ => (rv, Panic "reflect: Field index out of range")
            end
        end
  end.

Fixpoint unmarshal_loop (r : DecodeStruct) (rv : list (value L))
    (record : list string) (fc : list nat) : list (value L) * outcome :=
  match fc with
  | [] => (rv, Nil)
  | j :: rest =>
      match unmarshal_column r rv record j with
      | (rv', Nil) => unmarshal_loop r rv' record rest
      | stop => stop
      end
  end.

Definition unmarshal (r : DecodeStruct) (rv : list (value L))
    (record : list string) : list (value L) * outcome :=
  unmarshal_loop r rv record (foundCols r).

Definition UnmarshalCSV (r : DecodeStruct) (record : list string)
    (v : instance L) : instance L * outcome :=
  if negb (length record =? length (foundCols r))%nat then
    (v, Err (errorString "csv record must have same column with csv header"))
  else if negb (bool_decide (itype v = recordType r)) then
    (v, Err (errorString
               ("second argument of UnmarshalCSV function must be a pointer to "
                ++ TypeString (recordType r))))
  else
    let '(fs, res) := unmarshal r (ifields v) record in
    ({| itype := itype v; ifields := fs |}, res).

Definition GetStruct (r : DecodeStruct) (record : list string)
    : option (instance L) * outcome :=
  let v := New L (recordType r) in
  match UnmarshalCSV r record v with
  | (v', Nil) => (Some v', Nil)
  | (_, stop) => (None, stop)
  end.

End Decoder.
End Rev2.

(** ** A small instance of the library for the examples

    ASCII letters and white space for [strings], quoting of the quote and
    the backslash for [strconv.Quote]; floating point numbers restricted to
    the decimal integers and times to non-empty texts of digits and of the
    punctuation of RFC 3339, and to the empty text with the empty layout.
    The examples below use it on ASCII input only. *)

Definition ascii_lower (c : ascii) : ascii :=
  let n := nat_of_ascii c in
  if ((65 <=? n) && (n <=? 90))%nat then ascii_of_nat (n + 32) else c.

Fixpoint ascii_ToLower (s : string) : string :=
  match s with
  | EmptyString => EmptyString
  | String c rest => String (ascii_lower c) (ascii_ToLower rest)
  end.

Definition ascii_space (c : ascii) : bool :=
  let n := nat_of_ascii c in
  ((n =? 32) || ((9 <=? n) && (n <=? 13)))%nat.

Fixpoint trim_left (s : string) : string :=
  match s with
  | EmptyString => EmptyString
  | String c rest => if ascii_space c then trim_left rest else s
  end.

Fixpoint trim_right (s : string) : string :=
  match s with
  | EmptyString => EmptyString
  | String c rest =>
      match trim_right rest with
      | EmptyString => if ascii_space c then EmptyString else String c ""
      | rest' => String c rest'
      end
  end.

Definition ascii_TrimSpace (s : string) : string := trim_right (trim_left s).

Definition dquote : ascii := "034"%char.
Definition backslash : ascii := "092"%char.

Fixpoint quote_body (s : string) : string :=
  match s with
  | EmptyString => String dquote ""
  | String c rest =>
      if Ascii.eqb c dquote || Ascii.eqb c backslash
      then String backslash (String c (quote_body rest))
      else String c (quote_body rest)
  end.

Definition ascii_Quote (s : string) : string := String dquote (quote_body s).

Definition integer_ParseFloat (s : string) : Z + NumErr :=
  match strconv_ParseInt 64 s with
  | (i, None) => inl i
  | (_, Some (NumError _ _ e)) => inr e
  | (_, Some _) => inr ErrSyntax
  end.

Fixpoint timestamp_chars (s : string) : bool :=
  match s with
  | EmptyString => true
  | String c rest =>
      let n := nat_of_ascii c in
      (((48 <=? n) && (n <=? 58)) || (n =? 45) || (n =? 43) || (n =? 46)
       || (n =? 84) || (n =? 90))%nat
      && timestamp_chars rest
  end.

Definition text_time_Parse (layout value : string)
    : string + time_ParseError :=
  match value with
  | EmptyString =>
      match layout with
      | EmptyString => inl "0000-01-01T00:00:00Z"
      | _ =>
          inr {| Layout := layout; Value := value; LayoutElem := layout;
                 ValueElem := value; Message := "" |}
      end
  | _ =>
      if timestamp_chars value then inl value
      else inr {| Layout := layout; Value := value; LayoutElem := layout;
                  ValueElem := value; Message := "" |}
  end.

Definition std : GoStd :=
  {| IntSize := 64;
     float64 := Z; Time := string;
     float64_zero := 0; Time_zero := "0001-01-01T00:00:00Z";
     strings_ToLower := ascii_ToLower;
     strings_TrimSpace := ascii_TrimSpace;
     strconv_Quote := ascii_Quote;
     strconv_ParseFloat := integer_ParseFloat;
     float32_round := fun x => x;
     time_Parse := text_time_Parse;
     IntSize_platform := or_intror eq_refl;
     ParseFloat_empty := eq_refl;
     time_Parse_empty_layout := ex_intro _ "0000-01-01T00:00:00Z" eq_refl;
     time_Parse_RFC3339_empty :=
       ex_intro _ {| Layout := time_RFC3339; Value := "";
                     LayoutElem := time_RFC3339; ValueElem := "";
                     Message := "" |} eq_refl |}.

(** The same library on a platform whose [int] has 32 bits. *)
Definition std32 : GoStd :=
  {| IntSize := 32;
     float64 := Z; Time := string;
     float64_zero := 0; Time_zero := "0001-01-01T00:00:00Z";
     strings_ToLower := ascii_ToLower;
     strings_TrimSpace := ascii_TrimSpace;
     strconv_Quote := ascii_Quote;
     strconv_ParseFloat := integer_ParseFloat;
     float32_round := fun x => x;
     time_Parse := text_time_Parse;
     IntSize_platform := or_introl eq_refl;
     ParseFloat_empty := eq_refl;
     time_Parse_empty_layout := ex_intro _ "0000-01-01T00:00:00Z" eq_refl;
     time_Parse_RFC3339_empty :=
       ex_intro _ {| Layout := time_RFC3339; Value := "";
                     LayoutElem := time_RFC3339; ValueElem := "";
                     Message := "" |} eq_refl |}.

(** ** Vocabulary of the specification *)

(** The normalized form of a header cell: trimmed, then lower-cased. *)
Definition normalize (L : GoStd) (cell : string) : string :=
  strings_ToLower L (strings_TrimSpace L cell).

(** The descriptor [f] has the column name [col]. *)
Definition matches (col : string) (f : csvFieldInfo) : bool :=
  String.eqb (Header f) col.

(** Some descriptor of the decoder has the column name [col]. *)
Definition known (r : DecodeStruct) (col : string) : bool :=
  existsb (matches col) (cols r).

(** The descriptor [f] is required and no cell of [header] matches it. *)
Definition missing (L : GoStd) (header : list string) (f : csvFieldInfo)
    : bool :=
  Required f && negb (existsb (fun cell => matches (normalize L cell) f) header).

(** The positions, counted from [j], of the descriptors that match [col]. *)
Fixpoint matching_from (col : string) (j : nat) (cs : list csvFieldInfo)
    : list nat :=
  match cs with
  | [] => []
  | f :: rest =>
      if matches col f then j :: matching_from col (S j) rest
      else matching_from col (S j) rest
  end.

(** What one header cell does to a descriptor. *)
Definition bind_one (i : Z) (col : string) (f : csvFieldInfo) : csvFieldInfo :=
  if matches col f then set_RecordIndex f i else f.

(** What the cells of [header], at the positions from [i] on, do to a
    descriptor. *)
Fixpoint bind_all (L : GoStd) (i : nat) (header : list string)
    (f : csvFieldInfo) : csvFieldInfo :=
  match header with
  | [] => f
  | cell :: rest =>
      bind_all L (S i) rest (bind_one (Z.of_nat i) (normalize L cell) f)
  end.

(** A descriptor without its binding. *)
Definition unbind (f : csvFieldInfo) : csvFieldInfo := set_RecordIndex f (-1).

(** The type under every pointer of a type. *)
Fixpoint base (t : rtype) : rtype :=
  match t with
  | Pointer elem => base elem
  | Plain _ _ _ => t
  end.

(** The type under at most one pointer. *)
Definition unwrap_one (t : rtype) : rtype :=
  match t with
  | Pointer elem => elem
  | Plain _ _ _ => t
  end.

(** The supported kinds of the specification: the signed and the unsigned
    integers of every width, the floating point numbers, the booleans, the
    strings, and [time.Time]. *)
Definition supported_kind (t : rtype) : bool :=
  match t with
  | Pointer _ => false
  | Plain k str pkg =>
      match k with
      | reflect.Int | reflect.Int8 | reflect.Int16 | reflect.Int32
      | reflect.Int64 => true
      | reflect.Uint | reflect.Uint8 | reflect.Uint16 | reflect.Uint32
      | reflect.Uint64 => true
      | reflect.Float32 | reflect.Float64 => true
      | reflect.Bool => true
      | reflect.String => true
      | reflect.Struct => String.eqb str "time.Time"
      | _ => false
      end
  end.

(** What the second revision accepts: every kind but maps, slices, arrays
    and the structs other than [time.Time]. *)
Definition accepted_kind (t : rtype) : bool :=
  match t with
  | Pointer _ => false
  | Plain k str pkg =>
      match k with
      | reflect.Map | reflect.Slice | reflect.Array => false
      | reflect.Struct => String.eqb str "time.Time"
      | _ => true
      end
  end.

(** The field carries the tag - under the tag name [tagName]. *)
Definition ignored (tagName : string) (f : StructField) : bool :=
  String.eqb (Tag_Get (Tag f) tagName) "-".

(** The tag name in force after the options. *)
Definition tag_name_of (opts : list option_) : string :=
  fold_left (fun n opt => match opt with WithCSVTagName n' => n' | _ => n end)
    opts defaultCSVTagName.

(** The descriptors of the fields [fs], the first of which has index [i]. *)
Fixpoint descriptors (L : GoStd) (reader : DecodeStruct) (i : nat)
    (fs : list StructField) : list csvFieldInfo :=
  match fs with
  | [] => []
  | f :: rest =>
      match field_info L reader i f with
      | Some (Some c) => c :: descriptors L reader (S i) rest
      | _ => descriptors L reader (S i) rest
      end
  end.

(** The struct type behind the argument of [NewDecodeStruct]. *)
Definition struct_of (v : shape) : option StructType :=
  match v with
  | OfStruct rt | OfPointer rt => Some rt
  | OfOther => None
  end.

(** The error of [UnmarshalCSV] for a row of the wrong length. *)
Definition row_shape_error : error :=
  errorString "csv record must have same column with csv header".

(** The pointers of [foundCols] after the scan of [header]: for every cell
    in turn, the descriptors that match it. *)
Definition bindings (L : GoStd) (cs : list csvFieldInfo)
    (header : list string) : list nat :=
  flat_map (fun cell => matching_from (normalize L cell) 0 cs) header.

(** The value of a field of type [t] whose pointers, if any, lead to a
    variable that holds [v]. *)
Fixpoint pointed (L : GoStd) (t : rtype) (v : value L) : value L :=
  match t with
  | Pointer elem => VPtr (Some (pointed L elem v))
  | Plain _ _ _ => v
  end.

(** What the variable that [setField] parses into holds before the
    parse: the field itself, or the zero value that [reflect.New] gives
    behind the pointers of a pointer field. *)
Definition fresh_or_old (L : GoStd) (t : rtype) (f : value L) : value L :=
  match t with
  | Pointer _ => zero L (base t)
  | Plain _ _ _ => f
  end.

(** What a field of type [t] that held [f] holds after a parse that
    failed: [f] itself, or pointers to a zero value. *)
Definition after_failure (L : GoStd) (t : rtype) (f : value L) : value L :=
  pointed L t (fresh_or_old L t f).

Definition signed_kind (k : reflect.Kind) : bool :=
  match k with
  | reflect.Int | reflect.Int8 | reflect.Int16 | reflect.Int32
  | reflect.Int64 => true
  | _ => false
  end.

Definition unsigned_kind (k : reflect.Kind) : bool :=
  match k with
  | reflect.Uint | reflect.Uint8 | reflect.Uint16 | reflect.Uint32
  | reflect.Uint64 => true
  | _ => false
  end.

Definition float_kind (k : reflect.Kind) : bool :=
  match k with
  | reflect.Float32 | reflect.Float64 => true
  | _ => false
  end.

(** The function of [strconv] that [setField] calls for a kind, as
    [NumError.Func] names it. *)
Definition parser_name (k : reflect.Kind) : string :=
  match k with
  | reflect.Bool => "ParseBool"
  | reflect.Int | reflect.Int8 | reflect.Int16 | reflect.Int32
  | reflect.Int64 => "ParseInt"
  | reflect.Uint | reflect.Uint8 | reflect.Uint16 | reflect.Uint32
  | reflect.Uint64 => "ParseUint"
  | reflect.Float32 | reflect.Float64 => "ParseFloat"
  | _ => ""
  end.

(** The number that a text of decimal digits denotes after the digits
    read so far, which denote [acc]; [None] when a byte is not a digit. *)
Fixpoint digits_value (acc : Z) (s : string) : option Z :=
  match s with
  | EmptyString => Some acc
  | String c rest =>
      let n := Z.of_nat (nat_of_ascii c) in
      if (48 <=? n) && (n <=? 57)
      then digits_value (acc * 10 + (n - 48)) rest
      else None
  end.

(** The number that a decimal text without sign denotes. *)
Definition decimal_unsigned (s : string) : option Z :=
  match s with
  | EmptyString => None
  | _ => digits_value 0 s
  end.

(** The number that a decimal text with an optional sign denotes. *)
Definition decimal_signed (s : string) : option Z :=
  match s with
  | EmptyString => None
  | String c rest =>
      if Ascii.eqb c "+" then decimal_unsigned rest
      else if Ascii.eqb c "-" then
        match decimal_unsigned rest with
        | Some v => Some (- v)
        | None => None
        end
      else decimal_unsigned s
  end.

(** The largest unsigned integer of [bits] bits, as [ParseUint] computes
    it in uint64: [uint64(1)<<uint(bitSize) - 1]. *)
Definition maxVal (bits : Z) : Z := (2 ^ bits - 1) mod 2 ^ 64.

(** Every descriptor of the decoder points to a field of its struct. *)
Definition fields_in_range (r : DecodeStruct) : Prop :=
  Forall (fun c =>
            (StructFieldIndex c < length (Fields (recordType r)))%nat)
    (cols r).

(** Every pointer of [foundCols] leads to a descriptor, bound to a
    position below [n]. *)
Definition bound_below (r : DecodeStruct) (n : nat) : Prop :=
  Forall (fun j => exists c,
              cols r !! j = Some c /\ 0 <= RecordIndex c < Z.of_nat n)
    (foundCols r).

(** The position, from [i] on, of the last cell of [header] that matches
    the descriptor [f]. *)
Fixpoint last_position (L : GoStd) (f : csvFieldInfo) (i : nat)
    (header : list string) : option nat :=
  match header with
  | [] => None
  | cell :: rest =>
      match last_position L f (S i) rest with
      | Some k => Some k
      | None => if matches (normalize L cell) f then Some i else None
      end
  end.

(** The indices, counted from [i], of the fields that are not ignored. *)
Fixpoint kept_indices (tagName : string) (i : nat) (fs : list StructField)
    : list nat :=
  match fs with
  | [] => []
  | f :: rest =>
      if ignored tagName f then kept_indices tagName (S i) rest
      else i :: kept_indices tagName (S i) rest
  end.

(** The reader of [NewDecodeStruct] after its options. *)
Definition configured (opts : list option_) : DecodeStruct :=
  fold_left (fun c opt => apply_option opt c) opts
    {| cols := []; foundCols := [];
       recordType := {| TypeString := ""; Fields := [] |};
       timeFormat := time_RFC3339;
       csvTagName := defaultCSVTagName;
       csvTagFieldSep := defaultCSVTagFieldSep |}.

(** Two options set the same field of the decoder. *)
Definition same_setting (o1 o2 : option_) : bool :=
  match o1, o2 with
  | WithTimeFormat _, WithTimeFormat _ => true
  | WithCSVTagName _, WithCSVTagName _ => true
  | WithCSVTagFieldSep _, WithCSVTagFieldSep _ => true
  | _, _ => false
  end.

(** The argument of an option, and the field of the decoder it sets. *)
Definition argument (o : option_) : string :=
  match o with
  | WithTimeFormat s | WithCSVTagName s | WithCSVTagFieldSep s => s
  end.

Definition setting (r : DecodeStruct) (o : option_) : string :=
  match o with
  | WithTimeFormat _ => timeFormat r
  | WithCSVTagName _ => csvTagName r
  | WithCSVTagFieldSep _ => csvTagFieldSep r
  end.

(** The byte [ch] occurs in [s]. *)
Fixpoint has_byte (ch : ascii) (s : string) : bool :=
  match s with
  | EmptyString => false
  | String c rest => Ascii.eqb c ch || has_byte ch rest
  end.

(** The value [v] is a value of the type [t]: an integer within the
    width of its kind, a boolean, a string, a float, a time, or a pointer
    that is nil or leads to a value of the element type. The kinds that
    the decoder never writes are not constrained. *)
Fixpoint has_type (L : GoStd) (t : rtype) (v : value L) : Prop :=
  match t with
  | Pointer elem =>
      match v with
      | VPtr None => True
      | VPtr (Some w) => has_type L elem w
      | _ => False
      end
  | Plain k str pkg =>
      match k with
      | reflect.Int | reflect.Int8 | reflect.Int16 | reflect.Int32
      | reflect.Int64 =>
          exists i, v = VInt i
                    /\ - 2 ^ (bitSize L k - 1) <= i < 2 ^ (bitSize L k - 1)
      | reflect.Uint | reflect.Uint8 | reflect.Uint16 | reflect.Uint32
      | reflect.Uint64 =>
          exists u, v = VUint u /\ 0 <= u < 2 ^ bitSize L k
      | reflect.Bool => exists b, v = VBool b
      | reflect.String => exists s, v = VString s
      | reflect.Float32 | reflect.Float64 => exists x, v = VFloat x
      | reflect.Struct =>
          if bool_decide (t = time_Time) then exists x, v = VTime x else True
      | _ => True
      end
  end.

(** Every field of the struct variable holds a value of its type. *)
Definition well_typed (L : GoStd) (inst : instance L) : Prop :=
  Forall2 (fun fld v => has_type L (Type_ fld) v)
    (Fields (itype inst)) (ifields inst).

(** A type with one pointer at most. *)
Definition shallow (t : rtype) : bool :=
  match t with
  | Plain _ _ _ => true
  | Pointer (Plain _ _ _) => true
  | Pointer (Pointer _) => false
  end.

(** A type that prints as time.Time under its pointers is the type
    [time.Time] of the package [time], and not a struct type of another
    package with the same name. *)
Definition genuine (t : rtype) : bool :=
  match base t with
  | Plain reflect.Struct str pkg =>
      negb (String.eqb str "time.Time") || String.eqb pkg "time"
  | _ => true
  end.

(** The error of [UnmarshalCSV] for a target of another type. *)
Definition type_mismatch_error (r : DecodeStruct) : error :=
  errorString
    ("second argument of UnmarshalCSV function must be a pointer to "
     ++ TypeString (recordType r)).

(** ** Struct types of the examples *)

Definition field (name : string) (t : rtype) (tag : list (string * string))
    : StructField :=
  {| Name := name; Type_ := t; Tag := tag; Exported := true |}.

Definition t_int : rtype := Plain reflect.Int "int" "".
Definition t_int8 : rtype := Plain reflect.Int8 "int8" "".
Definition t_int64 : rtype := Plain reflect.Int64 "int64" "".
Definition t_string : rtype := Plain reflect.String "string" "".
Definition t_float64 : rtype := Plain reflect.Float64 "float64" "".

(** [struct { P **int }]. *)
Definition double_pointer : StructType :=
  {| TypeString := "struct { P **int }";
     Fields := [field "P" (Pointer (Pointer t_int)) []] |}.

(** [struct { M map[string]string }] with the tag csv:- on [M]. *)
Definition ignored_map : StructType :=
  {| TypeString := "struct { M map[string]string }";
     Fields := [field "M" (Plain reflect.Map "map[string]string" "")
                  [("csv", "-")]] |}.

(** [struct { N int8 }]. *)
Definition tiny : StructType :=
  {| TypeString := "struct { N int8 }"; Fields := [field "N" t_int8 []] |}.

(** [struct { N int64 }]. *)
Definition wide : StructType :=
  {| TypeString := "struct { N int64 }"; Fields := [field "N" t_int64 []] |}.

(** [struct { A string; P *int }]. *)
Definition with_pointer : StructType :=
  {| TypeString := "struct { A string; P *int }";
     Fields := [field "A" t_string []; field "P" (Pointer t_int) []] |}.

(** [struct { A string; B int }] with the tag csv:- on [B]. *)
Definition with_ignored : StructType :=
  {| TypeString := "struct { A string; B int }";
     Fields := [field "A" t_string []; field "B" t_int [("csv", "-")]] |}.

(** [struct { secret int; Shown string }]: the first field is not
    exported. *)
Definition with_secret : StructType :=
  {| TypeString := "struct { secret int; Shown string }";
     Fields := [ {| Name := "secret"; Type_ := t_int; Tag := [];
                    Exported := false |};
                 field "Shown" t_string [] ] |}.

(** [struct { A string; B string }] with the tag csv:x on both fields. *)
Definition same_column : StructType :=
  {| TypeString := "struct { A string; B string }";
     Fields := [field "A" t_string [("csv", "x")];
                field "B" t_string [("csv", "x")]] |}.

(** The struct of the scenarios of the specification: [Name] and [Age]
    required, [Score] optional. *)
Definition person : StructType :=
  {| TypeString := "Person";
     Fields := [field "Name" t_string [("csv", "Name,required")];
                field "Age" t_int [("csv", "Age,required")];
                field "Score" t_float64 []] |}.

(** The struct [Record] of csv_to_struct_test.go. *)
Definition Record_ : StructType :=
  {| TypeString := "csv2struct_test.Record";
     Fields :=
       [field "StringField" t_string [("csv", "String Field,required")];
        field "IntField" t_int [("csv", "Integer Field,required")];
        field "UintField" (Plain reflect.Uint "uint" "")
          [("csv", "Unsigned Integer Field,required")];
        field "BoolField" (Plain reflect.Bool "bool" "")
          [("csv", "Boolean Field,required")];
        field "FloatField" t_float64 [("csv", "Float Field,required")];
        field "OptionalTimeField" time_Time
          [("csv", "Optional Time Field")];
        field "OptionalIntField" t_int [];
        field "OptionalIntPointer" (Pointer t_int) []] |}.

(** The decoder of a construction that did not panic. *)
Definition decoder_of (b : built) : DecodeStruct :=
  match b with
  | Built r => r
  | BuildPanic _ =>
      {| cols := []; foundCols := [];
         recordType := {| TypeString := ""; Fields := [] |};
         timeFormat := ""; csvTagName := ""; csvTagFieldSep := "" |}
  end.

(** [NewDecodeStruct(&T{})] followed by [ParseHeader(header)], in the
    first revision. *)
Definition decoder_for (t : StructType) (header : list string)
    : DecodeStruct :=
  fst (ParseHeader std (decoder_of (Rev1.NewDecodeStruct std (OfPointer t) []))
         header).

Definition Record_header : list string :=
  ["String Field"; "Unsigned Integer Field"; "Integer Field"; "Float Field";
   "Boolean Field"; "OptionalIntField"; "OptionalIntPointer";
   "Optional Time Field"].

(** The type [Time] of a package [time] that is not the one of the
    standard library, and [struct { T time.Time }] in a file that imports
    that package. *)
Definition foreign_Time : rtype :=
  Plain reflect.Struct "time.Time" "example.com/time".

Definition borrowed : StructType :=
  {| TypeString := "struct { T time.Time }";
     Fields := [field "T" foreign_Time []] |}.

(** [struct { T time.Time }] with the tag csv:t,required on [T]. *)
Definition stamped : StructType :=
  {| TypeString := "struct { T time.Time }";
     Fields := [field "T" time_Time [("csv", "t,required")]] |}.

(** [NewDecodeStruct(&T{}, WithTimeFormat(...))] with the empty format,
    followed by [ParseHeader] on the column t. *)
Definition stamped_decoder : DecodeStruct :=
  fst (ParseHeader std
         (decoder_of (Rev1.NewDecodeStruct std (OfPointer stamped)
                        [WithTimeFormat EmptyString]))
         ["t"]).

(** The row of the scenario of the tests, with an empty cell in the
    optional column OptionalIntField. *)
Definition Record_row : list string :=
  ["field 1"; "100"; "-30"; "-200"; "true"; ""; "-10";
   "2017-10-09T12:30:30+07:00"].

(** [NewDecodeStruct(&Person{})] in the first revision. *)
Definition person_decoder : DecodeStruct :=
  decoder_of (Rev1.NewDecodeStruct std (OfPointer person) []).

Definition name_descriptor : csvFieldInfo :=
  {| Header := "name"; Required := true; RecordIndex := -1;
     StructFieldIndex := 0 |}.

Definition age_descriptor (i : Z) : csvFieldInfo :=
  {| Header := "age"; Required := true; RecordIndex := i;
     StructFieldIndex := 1 |}.

(** * Properties *)

Local Open Scope list_scope.

(** ** Header reconciliation *)

Section HeaderProperties.
Variable L : GoStd.

Lemma ParseHeader_bind_spec (i : Z) (col : string) (cs : list csvFieldInfo) :
  forall (j : nat) (found : bool),
    ParseHeader_bind i col j cs found
    = (map (bind_one i col) cs, matching_from col j cs,
       found || existsb (matches col) cs).
Proof.
  induction cs as [|f rest IH]; intros j found; simpl.
  - by rewrite orb_false_r.
  - unfold bind_one, matches in *.
    destruct (String.eqb (Header f) col); rewrite IH; simpl.
    + by rewrite orb_true_r.
    + done.
Qed.

Lemma scan_cons (r : DecodeStruct) (i : nat) (cell : string)
    (rest : list string) :
  ParseHeader_scan L r i (cell :: rest)
  = let col := normalize L cell in
    let r' := with_binding r (map (bind_one (Z.of_nat i) col) (cols r))
                (foundCols r ++ matching_from col 0 (cols r)) in
    if known r col then ParseHeader_scan L r' (S i) rest
    else (r', Some (unexpected_column L cell)).
Proof.
  simpl. fold (normalize L cell). by rewrite ParseHeader_bind_spec.
Qed.

Lemma bind_one_id (i : Z) (col : string) (cs : list csvFieldInfo) :
  existsb (matches col) cs = false -> map (bind_one i col) cs = cs.
Proof.
  induction cs as [|f rest IH]; simpl; [done|].
  intros [Hf Hrest]%orb_false_elim.
  unfold bind_one at 1. rewrite Hf. by rewrite IH.
Qed.

Lemma matching_from_none (col : string) (cs : list csvFieldInfo) :
  forall j, existsb (matches col) cs = false -> matching_from col j cs = [].
Proof.
  induction cs as [|f rest IH]; intros j; simpl; [done|].
  intros [Hf Hrest]%orb_false_elim. rewrite Hf. by apply IH.
Qed.

Lemma existsb_matches_bind (i : Z) (col col' : string)
    (cs : list csvFieldInfo) :
  existsb (matches col') (map (bind_one i col) cs) = existsb (matches col') cs.
Proof.
  induction cs as [|f rest IH]; simpl; [done|].
  rewrite IH. f_equal. unfold bind_one, matches.
  by destruct (String.eqb (Header f) col).
Qed.

Lemma known_with_binding (r : DecodeStruct) (i : Z) (col col' : string)
    (fc : list nat) :
  known (with_binding r (map (bind_one i col) (cols r)) fc) col'
  = known r col'.
Proof. unfold known. simpl. apply existsb_matches_bind. Qed.

Lemma known_reset (r : DecodeStruct) (col : string) :
  known (reset r) col = known r col.
Proof.
  unfold known, reset. simpl.
  induction (cols r) as [|f rest IH]; simpl; [done|]. by rewrite IH.
Qed.

(** The scan of a header whose cells are all known, followed by more
    cells, is the scan of the rest from the state the first part leaves. *)
Lemma scan_app (pre post : list string) :
  forall (r : DecodeStruct) (i : nat),
    Forall (fun cell => known r (normalize L cell) = true) pre ->
    exists r',
      ParseHeader_scan L r i pre = (r', None)
      /\ (forall col, known r' col = known r col)
      /\ ParseHeader_scan L r i (pre ++ post)
         = ParseHeader_scan L r' (i + length pre) post.
Proof.
  induction pre as [|cell pre IH]; intros r i Hall.
  - exists r. simpl. by rewrite Nat.add_0_r.
  - inversion Hall as [|? ? Hcell Hpre]; subst.
    set (r1 := with_binding r
                 (map (bind_one (Z.of_nat i) (normalize L cell)) (cols r))
                 (foundCols r
                  ++ matching_from (normalize L cell) 0 (cols r))).
    destruct (IH r1 (S i)) as (r' & Hscan & Hknown & Happ).
    { eapply Forall_impl; [exact Hpre|]. intros c Hc. simpl in Hc.
      unfold r1. by rewrite known_with_binding. }
    exists r'. rewrite <- app_comm_cons, !scan_cons. simpl.
    rewrite Hcell. fold r1. split; [done|]. split.
    + intros col. rewrite Hknown. unfold r1. apply known_with_binding.
    + rewrite Happ. f_equal. simpl. lia.
Qed.

Lemma first_unknown (r : DecodeStruct) (header : list string) :
  forall (i : nat) (cell : string),
    header !! i = Some cell ->
    known r (normalize L cell) = false ->
    exists pre first post,
      header = pre ++ first :: post
      /\ Forall (fun c => known r (normalize L c) = true) pre
      /\ known r (normalize L first) = false
      /\ (length pre <= i)%nat.
Proof.
  induction header as [|c rest IH]; intros i cell Hi Hcell; [done|].
  destruct (known r (normalize L c)) eqn:Hc.
  - destruct i as [|i]; simpl in Hi.
    + injection Hi as ->. congruence.
    + destruct (IH i cell Hi Hcell) as (pre & first & post & -> & ? & ? & ?).
      exists (c :: pre), first, post. repeat split; auto.
      simpl. lia.
  - exists [], c, rest. repeat split; auto. simpl. lia.
Qed.

(** Scanning stops at a cell that no descriptor matches, whatever
    follows it. *)
Lemma ParseHeader_stops (r : DecodeStruct) (pre post : list string)
    (cell : string) :
  Forall (fun c => known r (normalize L c) = true) pre ->
  known r (normalize L cell) = false ->
  snd (ParseHeader L r (pre ++ cell :: post))
  = Some (unexpected_column L cell)
  /\ ParseHeader L r (pre ++ cell :: post) = ParseHeader L r (pre ++ [cell]).
Proof.
  intros Hpre Hcell. unfold ParseHeader.
  assert (Hpre' : Forall (fun c => known (reset r) (normalize L c) = true) pre).
  { eapply Forall_impl; [exact Hpre|]. intros c Hc. simpl in Hc.
    by rewrite known_reset. }
  destruct (scan_app pre (cell :: post) (reset r) 0 Hpre')
    as (r1 & Hs1 & Hk1 & ->).
  destruct (scan_app pre [cell] (reset r) 0 Hpre') as (r2 & Hs2 & _ & ->).
  assert (r2 = r1) by congruence. subst r2.
  rewrite !scan_cons. simpl.
  rewrite Hk1, known_reset, Hcell. done.
Qed.

(** C1. A header cell that, once trimmed and lower-cased, is the column
    name of no descriptor makes [ParseHeader] fail with an
    [IncorrectFileErr]: the message is "Unexpected column" followed by
    the quoted original text of the first such cell, wherever it stands;
    the cells after it are not examined (the call ends as it does on the
    header cut after that cell), and when every cell before position [i]
    is known the cell named is the one at [i]. *)
Theorem unknown_column_rejected (r : DecodeStruct) (header : list string)
    (i : nat) (cell : string) :
  header !! i = Some cell ->
  known r (normalize L cell) = false ->
  exists (j : nat) (first : string),
    header !! j = Some first
    /\ (j <= i)%nat
    /\ known r (normalize L first) = false
    /\ Forall (fun c => known r (normalize L c) = true) (take j header)
    /\ snd (ParseHeader L r header)
       = Some (IncorrectFileErr
                 ("Unexpected column " ++ strconv_Quote L first)%string)
    /\ ParseHeader L r header = ParseHeader L r (take (S j) header)
    /\ (Forall (fun c => known r (normalize L c) = true) (take i header) ->
        j = i /\ first = cell).
Proof.
  intros Hi Hcell.
  destruct (first_unknown r header i cell Hi Hcell)
    as (pre & first & post & -> & Hpre & Hfirst & Hle).
  exists (length pre), first.
  assert (Hj : (pre ++ first :: post) !! length pre = Some first).
  { by rewrite list_lookup_middle. }
  assert (Htake : take (length pre) (pre ++ first :: post) = pre).
  { by rewrite take_app_length. }
  assert (HtakeS : take (S (length pre)) (pre ++ first :: post)
                   = pre ++ [first]).
  { replace (S (length pre)) with (length pre + 1)%nat by lia.
    by rewrite take_app_add. }
  destruct (ParseHeader_stops r pre post first Hpre Hfirst) as [Herr Hcut].
  split; [exact Hj|]. split; [exact Hle|]. split; [exact Hfirst|].
  split; [by rewrite Htake|]. split; [exact Herr|].
  split; [by rewrite HtakeS|].
  intros Hall.
  destruct (decide (length pre = i)) as [Heq|Hne].
  - split; [done|]. subst i. congruence.
  - exfalso.
    assert (Hin : first ∈ take i (pre ++ first :: post)).
    { apply list_elem_of_lookup. exists (length pre).
      rewrite lookup_take_lt; [done|lia]. }
    rewrite Forall_forall in Hall. specialize (Hall first Hin).
    simpl in Hall. congruence.
Qed.

(** *** A call does not depend on the bindings of the call before *)

Lemma reset_unbind (r : DecodeStruct) :
  reset r = with_binding r (map unbind (cols r)) [].
Proof. done. Qed.

Lemma unbind_bind_one (i : Z) (col : string) (f : csvFieldInfo) :
  unbind (bind_one i col f) = unbind f.
Proof. unfold bind_one. by destruct (matches col f). Qed.

Lemma reset_with_binding (r : DecodeStruct) (cs : list csvFieldInfo)
    (fc : list nat) :
  map unbind cs = map unbind (cols r) ->
  reset (with_binding r cs fc) = reset r.
Proof. intros H. unfold reset, with_binding. simpl. fold unbind. by rewrite H. Qed.

Lemma reset_bind (r : DecodeStruct) (i : Z) (col : string) (fc : list nat) :
  reset (with_binding r (map (bind_one i col) (cols r)) fc) = reset r.
Proof.
  apply reset_with_binding. rewrite map_map.
  apply map_ext. intros f. apply unbind_bind_one.
Qed.

Lemma reset_scan (header : list string) :
  forall (r : DecodeStruct) (i : nat),
    reset (fst (ParseHeader_scan L r i header)) = reset r.
Proof.
  induction header as [|cell rest IH]; intros r i; [done|].
  rewrite scan_cons. simpl.
  destruct (known r (normalize L cell)).
  - rewrite IH. apply reset_bind.
  - simpl. apply reset_bind.
Qed.

Lemma reset_reset (r : DecodeStruct) : reset (reset r) = reset r.
Proof.
  apply reset_with_binding. simpl. rewrite map_map. by apply map_ext.
Qed.

Lemma reset_ParseHeader (r : DecodeStruct) (header : list string) :
  reset (fst (ParseHeader L r header)) = reset r.
Proof.
  unfold ParseHeader.
  pose proof (reset_scan header (reset r) 0) as H.
  destruct (ParseHeader_scan L (reset r) 0 header) as [r' [e|]];
    simpl in *; by rewrite H, reset_reset.
Qed.

Lemma ParseHeader_of_reset (r1 r2 : DecodeStruct) (header : list string) :
  reset r1 = reset r2 -> ParseHeader L r1 header = ParseHeader L r2 header.
Proof. intros H. unfold ParseHeader. by rewrite H. Qed.

(** C5. [ParseHeader] starts from a clean slate: it works on [reset r],
    in which every [RecordIndex] is -1 and [foundCols] is empty, so the
    state and the result of a call after another call are those of the
    same call on the decoder as it was built: nothing of the header of the
    first call is left in them. *)
Theorem ParseHeader_clean_slate (r : DecodeStruct) (h1 h2 : list string) :
  ParseHeader L r h2 = ParseHeader L (reset r) h2
  /\ Forall (fun f => RecordIndex f = -1) (cols (reset r))
  /\ foundCols (reset r) = []
  /\ ParseHeader L (fst (ParseHeader L r h1)) h2 = ParseHeader L r h2.
Proof.
  split; [|split; [|split]].
  - apply ParseHeader_of_reset. by rewrite reset_reset.
  - unfold reset. simpl. apply Forall_forall. intros f Hf.
    apply list_elem_of_In, in_map_iff in Hf. by destruct Hf as (f0 & <- & _).
  - done.
  - apply ParseHeader_of_reset, reset_ParseHeader.
Qed.

(** *** Required columns *)

Lemma Header_bind_all (header : list string) :
  forall (i : nat) (f : csvFieldInfo),
    Header (bind_all L i header f) = Header f
    /\ Required (bind_all L i header f) = Required f
    /\ StructFieldIndex (bind_all L i header f) = StructFieldIndex f.
Proof.
  induction header as [|cell rest IH]; intros i f; simpl; [done|].
  destruct (IH (S i) (bind_one (Z.of_nat i) (normalize L cell) f))
    as (-> & -> & ->).
  unfold bind_one. by destruct (matches (normalize L cell) f).
Qed.

Lemma matches_bind_one (i : Z) (col col' : string) (f : csvFieldInfo) :
  matches col' (bind_one i col f) = matches col' f.
Proof. unfold bind_one, matches. by destruct (String.eqb (Header f) col). Qed.

Lemma existsb_pointwise {A : Type} (p q : A -> bool) (l : list A) :
  (forall x, p x = q x) -> existsb p l = existsb q l.
Proof.
  intros H. induction l as [|x l IH]; simpl; [done|]. by rewrite H, IH.
Qed.

(** A descriptor is unbound after the scan exactly when it was unbound
    before and no cell matches it. *)
Lemma RecordIndex_bind_all (header : list string) :
  forall (i : nat) (f : csvFieldInfo),
    (RecordIndex (bind_all L i header f) =? -1)
    = (RecordIndex f =? -1)
      && negb (existsb (fun cell => matches (normalize L cell) f) header).
Proof.
  induction header as [|cell rest IH]; intros i f; simpl.
  - by rewrite andb_true_r.
  - rewrite IH. rewrite negb_orb.
    assert (Hext : existsb
              (fun c => matches (normalize L c)
                          (bind_one (Z.of_nat i) (normalize L cell) f)) rest
            = existsb (fun c => matches (normalize L c) f) rest).
    { apply existsb_pointwise. intros c. apply matches_bind_one. }
    rewrite Hext. unfold bind_one.
    destruct (matches (normalize L cell) f) eqn:Hm; simpl.
    + rewrite andb_false_r.
      destruct (Z.eqb_spec (Z.of_nat i) (-1)); [lia|done].
    + done.
Qed.

Lemma scan_known (header : list string) :
  forall (r : DecodeStruct) (i : nat),
    Forall (fun cell => known r (normalize L cell) = true) header ->
    exists r',
      ParseHeader_scan L r i header = (r', None)
      /\ cols r' = map (bind_all L i header) (cols r).
Proof.
  induction header as [|cell rest IH]; intros r i Hall.
  - exists r. simpl. by rewrite map_id.
  - inversion Hall as [|? ? Hcell Hrest]; subst.
    rewrite scan_cons. simpl. rewrite Hcell.
    set (r1 := with_binding r
                 (map (bind_one (Z.of_nat i) (normalize L cell)) (cols r))
                 (foundCols r
                  ++ matching_from (normalize L cell) 0 (cols r))).
    destruct (IH r1 (S i)) as (r' & Hs & Hc).
    { eapply Forall_impl; [exact Hrest|]. intros c Hc. simpl in Hc.
      unfold r1. by rewrite known_with_binding. }
    exists r'. split; [done|]. rewrite Hc. unfold r1. simpl.
    by rewrite map_map.
Qed.

Lemma required_after_scan (header : list string) (cs : list csvFieldInfo) :
  ParseHeader_required L (map (bind_all L 0 header) (map unbind cs))
  = match find (missing L header) cs with
    | Some f => Some (mandatory_missing L f)
    | None => None
    end.
Proof.
  induction cs as [|f rest IH]; simpl; [done|].
  destruct (Header_bind_all header 0 (unbind f)) as (Hh & Hr & _).
  rewrite Hr, RecordIndex_bind_all. simpl.
  unfold missing at 1. unfold matches.
  destruct (Required f); simpl.
  - destruct (existsb _ header); simpl; [exact IH|].
    unfold mandatory_missing. by rewrite Hh.
  - exact IH.
Qed.

(** C2. On a header all of whose cells are known, [ParseHeader] returns
    the error "Mandatory column <name> is missing" for the first
    descriptor, in the order of [cols], that is required and matched by no
    cell, and nil when there is none: it fails exactly when a required
    column is missing, and a header that leaves out optional columns only
    is accepted. *)
Theorem missing_required_column (r : DecodeStruct) (header : list string) :
  Forall (fun cell => known r (normalize L cell) = true) header ->
  snd (ParseHeader L r header)
  = match find (missing L header) (cols r) with
    | Some f =>
        Some (IncorrectFileErr
                ("Mandatory column " ++ strconv_Quote L (Header f)
                 ++ " is missing")%string)
    | None => None
    end
  /\ ((exists e, snd (ParseHeader L r header) = Some e)
      <-> exists f, f ∈ cols r /\ Required f = true
                    /\ forall cell, cell ∈ header ->
                         Header f <> normalize L cell)
  /\ ((forall f, f ∈ cols r -> Required f = true ->
        exists cell, cell ∈ header /\ Header f = normalize L cell)
      -> snd (ParseHeader L r header) = None).
Proof.
  intros Hall.
  assert (Heq : snd (ParseHeader L r header)
                = match find (missing L header) (cols r) with
                  | Some f => Some (mandatory_missing L f)
                  | None => None
                  end).
  { unfold ParseHeader.
    destruct (scan_known header (reset r) 0) as (r' & -> & Hcols).
    { eapply Forall_impl; [exact Hall|]. intros c Hc. simpl in Hc.
      by rewrite known_reset. }
    simpl. rewrite Hcols. apply required_after_scan. }
  assert (Hmiss : forall f, missing L header f = true
            <-> Required f = true
                /\ forall cell, cell ∈ header -> Header f <> normalize L cell).
  { intros f. unfold missing. rewrite andb_true_iff, negb_true_iff.
    split; intros [Hr Hn]; (split; [done|]).
    - intros cell Hin Heqh.
      assert (existsb (fun c => matches (normalize L c) f) header = true)
        as Habs; [|congruence].
      apply existsb_exists. exists cell. split; [by apply list_elem_of_In|].
      unfold matches. by apply String.eqb_eq.
    - destruct (existsb _ header) eqn:Hex; [|done].
      apply existsb_exists in Hex as (cell & Hin & Hm).
      exfalso. apply (Hn cell); [by apply list_elem_of_In|].
      unfold matches in Hm. by apply String.eqb_eq. }
  split; [exact Heq|]. split.
  - rewrite Heq. split.
    + intros [e He].
      destruct (find (missing L header) (cols r)) as [f|] eqn:Hfind; [|done].
      apply find_some in Hfind as [Hin Hm]. apply Hmiss in Hm as [Hr Hn].
      exists f. split; [by apply list_elem_of_In|]. done.
    + intros (f & Hin & Hr & Hn).
      destruct (find (missing L header) (cols r)) as [g|] eqn:Hfind; [eauto|].
      exfalso. apply list_elem_of_In in Hin.
      pose proof (find_none _ _ Hfind f Hin) as Hf. simpl in Hf.
      assert (missing L header f = true) by (apply Hmiss; done). congruence.
  - intros Hcov. rewrite Heq.
    destruct (find (missing L header) (cols r)) as [f|] eqn:Hfind; [|done].
    exfalso. apply find_some in Hfind as [Hin Hm].
    apply Hmiss in Hm as [Hr Hn].
    destruct (Hcov f) as (cell & Hc & Hh); [by apply list_elem_of_In|done|].
    by apply (Hn cell).
Qed.

End HeaderProperties.

(** ** Construction *)

Section Construction.
Variable L : GoStd.

Lemma Split_from_nonempty (sep : string) (s : string) :
  forall (skip : nat) (cur : string), Split_from sep skip cur s <> [].
Proof.
  induction s as [|c rest IH]; intros skip cur; [done|].
  cbn [Split_from]. destruct skip; [|apply IH].
  destruct (String.prefix sep (String c rest)); [done|apply IH].
Qed.

Lemma strings_Split_nonempty (s sep : string) :
  s <> EmptyString -> strings_Split s sep <> [].
Proof.
  intros Hs. unfold strings_Split. destruct sep.
  - destruct s; [done|]. done.
  - apply Split_from_nonempty.
Qed.

(** The index [tagFields[0]] is never out of range. *)
Lemma field_info_some (reader : DecodeStruct) (i : nat) (f : StructField) :
  field_info L reader i f <> None.
Proof.
  unfold field_info.
  destruct (String.eqb (Tag_Get (Tag f) (csvTagName reader)) "-"); [done|].
  destruct (Tag_Get (Tag f) (csvTagName reader)) as [|c tag] eqn:Htag;
    simpl; [done|].
  pose proof (strings_Split_nonempty (String c tag) (csvTagFieldSep reader))
    as Hne.
  destruct (strings_Split (String c tag) (csvTagFieldSep reader));
    [by exfalso; apply Hne|done].
Qed.

Lemma field_info_ignored (reader : DecodeStruct) (i : nat) (f : StructField) :
  field_info L reader i f = Some None
  <-> ignored (csvTagName reader) f = true.
Proof.
  unfold field_info, ignored.
  destruct (String.eqb (Tag_Get (Tag f) (csvTagName reader)) "-");
    [done|].
  split; [|done]. intros H.
  destruct (if (0 <? String.length (Tag_Get (Tag f) (csvTagName reader)))%nat
            then _ else _) as [[h rq]|]; done.
Qed.

Lemma field_info_index (reader : DecodeStruct) (i : nat) (f : StructField)
    (c : csvFieldInfo) :
  field_info L reader i f = Some (Some c) ->
  StructFieldIndex c = i /\ RecordIndex c = -1
  /\ ignored (csvTagName reader) f = false.
Proof.
  unfold field_info, ignored.
  destruct (String.eqb (Tag_Get (Tag f) (csvTagName reader)) "-");
    [done|].
  destruct (if (0 <? String.length (Tag_Get (Tag f) (csvTagName reader)))%nat
            then _ else _) as [[h rq]|]; [|done].
  intros [= <-]. done.
Qed.

Lemma field_info_add_col (reader : DecodeStruct) (c : csvFieldInfo) :
  field_info L (add_col reader c) = field_info L reader.
Proof. done. Qed.

Lemma descriptors_add_col (reader : DecodeStruct) (c : csvFieldInfo)
    (fs : list StructField) :
  forall i, descriptors L (add_col reader c) i fs = descriptors L reader i fs.
Proof. induction fs as [|f rest IH]; intros i; simpl; [done|]. by rewrite IH. Qed.

(** The loop over the fields panics exactly when the type of some field
    is rejected by [isSupportedField]; otherwise it appends the
    descriptors of the fields that are not ignored. *)
Lemma Rev1_fields_spec (fs : list StructField) :
  forall (reader : DecodeStruct) (i : nat),
    if forallb (fun f => Rev1.isSupportedField (Type_ f)) fs
    then Rev1.NewDecodeStruct_fields L reader i fs
         = Built (with_binding reader
                    (cols reader ++ descriptors L reader i fs)
                    (foundCols reader))
    else exists msg, Rev1.NewDecodeStruct_fields L reader i fs = BuildPanic msg.
Proof.
  induction fs as [|f rest IH]; intros reader i; simpl.
  - rewrite app_nil_r. by destruct reader.
  - destruct (Rev1.isSupportedField (Type_ f)) eqn:Hsup; simpl; [|eauto].
    pose proof (field_info_some reader i f) as Hsome.
    destruct (field_info L reader i f) as [[c|]|] eqn:Hinfo; [| |done].
    + specialize (IH (add_col reader c) (S i)).
      destruct (forallb _ rest); [|exact IH].
      rewrite IH, descriptors_add_col. simpl.
      by rewrite <- app_assoc.
    + apply IH.
Qed.

Lemma Rev2_fields_spec (fs : list StructField) :
  forall (reader : DecodeStruct) (i : nat),
    if forallb (fun f => Rev2.isSupportedField (Type_ f)) fs
    then Rev2.NewDecodeStruct_fields L reader i fs
         = Built (with_binding reader
                    (cols reader ++ descriptors L reader i fs)
                    (foundCols reader))
    else exists msg, Rev2.NewDecodeStruct_fields L reader i fs = BuildPanic msg.
Proof.
  induction fs as [|f rest IH]; intros reader i; simpl.
  - rewrite app_nil_r. by destruct reader.
  - destruct (Rev2.isSupportedField (Type_ f)) eqn:Hsup; simpl; [|eauto].
    pose proof (field_info_some reader i f) as Hsome.
    destruct (field_info L reader i f) as [[c|]|] eqn:Hinfo; [| |done].
    + specialize (IH (add_col reader c) (S i)).
      destruct (forallb _ rest); [|exact IH].
      rewrite IH, descriptors_add_col. simpl.
      by rewrite <- app_assoc.
    + apply IH.
Qed.

Lemma Rev1_isSupportedField_base (t : rtype) :
  Rev1.isSupportedField t = supported_kind (base t).
Proof. induction t as [k str|elem IH]; simpl; [by destruct k|exact IH]. Qed.

Lemma Rev2_isSupportedField_base (t : rtype) :
  Rev2.isSupportedField t = accepted_kind (base t).
Proof. induction t as [k str|elem IH]; simpl; [by destruct k|exact IH]. Qed.

Lemma forallb_pointwise {A : Type} (p q : A -> bool) (l : list A) :
  (forall x, p x = q x) -> forallb p l = forallb q l.
Proof.
  intros H. induction l as [|x l IH]; simpl; [done|]. by rewrite H, IH.
Qed.

Lemma forallb_false_elem {A : Type} (p : A -> bool) (l : list A) :
  forallb p l = false <-> exists x, x ∈ l /\ p x = false.
Proof.
  induction l as [|x l IH]; simpl.
  - split; [done|]. intros (x & Hx & _). by apply elem_of_nil in Hx.
  - rewrite andb_false_iff, IH. split.
    + intros [Hx|(y & Hy & Hp)]; [exists x|exists y];
        (split; [|done]); by constructor.
    + intros (y & Hy & Hp). apply elem_of_cons in Hy as [->|Hy]; eauto.
Qed.

Lemma unsupported_type_panics_aux (v : shape) (rt : StructType)
    (opts : list option_) :
  struct_of v = Some rt ->
  (exists msg, Rev1.NewDecodeStruct L v opts = BuildPanic msg)
  <-> exists f, f ∈ Fields rt /\ supported_kind (base (Type_ f)) = false.
Proof.
  intros Hv.
  rewrite <- (forallb_false_elem (fun f => supported_kind (base (Type_ f)))).
  assert (Hext : forallb (fun f => supported_kind (base (Type_ f)))
                   (Fields rt)
                 = forallb (fun f => Rev1.isSupportedField (Type_ f))
                     (Fields rt)).
  { apply forallb_pointwise. intros f. by rewrite Rev1_isSupportedField_base. }
  rewrite Hext. clear Hext.
  destruct v as [t|t|]; simpl in Hv; [injection Hv as ->..|done];
    unfold Rev1.NewDecodeStruct;
    match goal with
    | |- context [Rev1.NewDecodeStruct_fields L ?rd 0 (Fields rt)] =>
        pose proof (Rev1_fields_spec (Fields rt) rd 0) as Hspec
    end;
    destruct (forallb _ (Fields rt)); cbv iota in Hspec.
  all: try (rewrite Hspec; simpl; split;
            [intros [msg Hm]; discriminate|done]).
  all: destruct Hspec as [msg Hmsg]; rewrite Hmsg; split; eauto.
Qed.

(** C7, as the code has it. Building panics exactly when the type of
    some field of the struct, ignored or not, is of an unsupported kind
    once every pointer around it is removed; the supported kinds are the
    signed and unsigned integers, the floats, the booleans, the strings
    and [time.Time], so maps, slices, arrays and other structs are
    rejected, and a pointer to a pointer to a supported type is accepted.
    The second revision rejects maps, slices, arrays and the structs other
    than [time.Time] only. *)
Theorem unsupported_type_panics (v : shape) (rt : StructType)
    (opts : list option_) :
  struct_of v = Some rt ->
  ((exists msg, Rev1.NewDecodeStruct L v opts = BuildPanic msg)
   <-> exists f, f ∈ Fields rt /\ supported_kind (base (Type_ f)) = false)
  /\ ((exists msg, Rev2.NewDecodeStruct L v opts = BuildPanic msg)
      <-> exists f, f ∈ Fields rt /\ accepted_kind (base (Type_ f)) = false).
Proof.
  intros Hv. split.
  - by apply unsupported_type_panics_aux.
  - rewrite <- (forallb_false_elem (fun f => accepted_kind (base (Type_ f)))).
    assert (Hext : forallb (fun f => accepted_kind (base (Type_ f)))
                     (Fields rt)
                   = forallb (fun f => Rev2.isSupportedField (Type_ f))
                       (Fields rt)).
    { apply forallb_pointwise. intros f. by rewrite Rev2_isSupportedField_base. }
    rewrite Hext. clear Hext.
    destruct v as [t|t|]; simpl in Hv; [injection Hv as ->..|done];
      unfold Rev2.NewDecodeStruct;
      match goal with
      | |- context [Rev2.NewDecodeStruct_fields L ?rd 0 (Fields rt)] =>
          pose proof (Rev2_fields_spec (Fields rt) rd 0) as Hspec
      end;
      destruct (forallb _ (Fields rt)); cbv iota in Hspec.
    all: try (rewrite Hspec; simpl; split;
              [intros [msg Hm]; discriminate|done]).
    all: destruct Hspec as [msg Hmsg]; rewrite Hmsg; split; eauto.
Qed.

Lemma options_csvTagName (opts : list option_) :
  forall r0,
    csvTagName (fold_left (fun c opt => apply_option opt c) opts r0)
    = fold_left
        (fun n opt => match opt with WithCSVTagName n' => n' | _ => n end)
        opts (csvTagName r0).
Proof.
  induction opts as [|o opts IH]; intros r0; simpl; [done|].
  rewrite IH. by destruct o.
Qed.

Lemma options_cols (opts : list option_) :
  forall r0,
    cols (fold_left (fun c opt => apply_option opt c) opts r0) = cols r0
    /\ foundCols (fold_left (fun c opt => apply_option opt c) opts r0)
       = foundCols r0.
Proof.
  induction opts as [|o opts IH]; intros r0; simpl; [done|].
  destruct (IH (apply_option o r0)) as [-> ->]. by destruct o.
Qed.

(** A descriptor built from the fields [fs] belongs to a field that is
    not ignored, and carries the index of that field. *)
Lemma descriptors_elem (reader : DecodeStruct) (fs : list StructField) :
  forall (i : nat) (c : csvFieldInfo),
    c ∈ descriptors L reader i fs ->
    exists (k : nat) (f : StructField),
      fs !! k = Some f
      /\ StructFieldIndex c = (i + k)%nat
      /\ RecordIndex c = -1
      /\ ignored (csvTagName reader) f = false.
Proof.
  induction fs as [|f rest IH]; intros i c Hc; simpl in Hc.
  - by apply elem_of_nil in Hc.
  - assert (Hrest : c ∈ descriptors L reader (S i) rest ->
              exists (k : nat) (f0 : StructField),
                (f :: rest) !! k = Some f0
                /\ StructFieldIndex c = (i + k)%nat
                /\ RecordIndex c = -1
                /\ ignored (csvTagName reader) f0 = false).
    { intros Hin. destruct (IH (S i) c Hin) as (k & f0 & Hk & Hi & Hr & Hg).
      exists (S k), f0. repeat split; auto. lia. }
    destruct (field_info L reader i f) as [[c0|]|] eqn:Hinfo; auto.
    apply elem_of_cons in Hc as [->|Hc]; auto.
    apply field_info_index in Hinfo as (Hi & Hr & Hg).
    exists 0%nat, f. repeat split; auto. lia.
Qed.

(** The decoder that [NewDecodeStruct] returns. *)
Lemma Rev1_built (v : shape) (rt : StructType) (opts : list option_)
    (r : DecodeStruct) :
  struct_of v = Some rt ->
  Rev1.NewDecodeStruct L v opts = Built r ->
  exists reader,
    csvTagName reader = tag_name_of opts
    /\ cols r = descriptors L reader 0 (Fields rt)
    /\ foundCols r = []
    /\ recordType r = rt
    /\ forallb (fun f => Rev1.isSupportedField (Type_ f)) (Fields rt) = true.
Proof.
  intros Hv Hb.
  assert (Hgen : match Rev1.NewDecodeStruct_fields L
                   (fold_left (fun c opt => apply_option opt c) opts
                      {| cols := []; foundCols := [];
                         recordType := {| TypeString := ""; Fields := [] |};
                         timeFormat := time_RFC3339;
                         csvTagName := defaultCSVTagName;
                         csvTagFieldSep := defaultCSVTagFieldSep |})
                   0 (Fields rt) with
                 | Built reader => Built (set_recordType reader rt)
                 | BuildPanic msg => BuildPanic msg
                 end = Built r).
  { destruct v; simpl in Hv; [injection Hv as ->..|done]; exact Hb. }
  clear Hb Hv.
  match type of Hgen with
  | context [Rev1.NewDecodeStruct_fields L ?rd 0 (Fields rt)] =>
      pose proof (Rev1_fields_spec (Fields rt) rd 0) as Hspec;
      exists rd
  end.
  destruct (forallb _ (Fields rt)); cbv iota in Hspec.
  - rewrite Hspec in Hgen. injection Hgen as <-. simpl.
    rewrite options_csvTagName.
    match goal with
    | |- context [cols (fold_left ?f opts ?r0)] =>
        destruct (options_cols opts r0) as [-> ->]
    end.
    done.
  - destruct Hspec as [msg Hmsg]. rewrite Hmsg in Hgen. discriminate.
Qed.

(** C9, as the code has it. A field with the tag - never becomes a
    descriptor: no descriptor of a decoder that was built carries its
    index. The type of every field is validated before the tag is read,
    so a field of an unsupported type makes building panic whether it is
    ignored or not. *)
Theorem ignored_field_no_descriptor (v : shape) (rt : StructType)
    (opts : list option_) :
  struct_of v = Some rt ->
  (forall r, Rev1.NewDecodeStruct L v opts = Built r ->
     forall (i : nat) (f : StructField),
       Fields rt !! i = Some f ->
       ignored (tag_name_of opts) f = true ->
       forall c, c ∈ cols r -> StructFieldIndex c <> i)
  /\ (forall f, f ∈ Fields rt ->
        Rev1.isSupportedField (Type_ f) = false ->
        exists msg, Rev1.NewDecodeStruct L v opts = BuildPanic msg).
Proof.
  intros Hv. split.
  - intros r Hb i f Hi Hign c Hc Heq.
    destruct (Rev1_built v rt opts r Hv Hb) as (reader & Htag & Hcols & _).
    rewrite Hcols in Hc.
    destruct (descriptors_elem reader (Fields rt) 0 c Hc)
      as (k & f0 & Hk & Hidx & _ & Hg).
    simpl in Hidx. rewrite Hidx in Heq. subst k.
    rewrite Htag in Hg. congruence.
  - intros f Hin Hsup.
    destruct (unsupported_type_panics_aux v rt opts Hv) as [_ Hpanic].
    apply Hpanic. exists f. split; [done|].
    by rewrite <- Rev1_isSupportedField_base.
Qed.

End Construction.

(** ** Row decoding *)

Section Decoding.
Variable L : GoStd.

Lemma ParseBool_error (s : string) (e : error) :
  strconv_ParseBool s = inr e -> e = NumError "ParseBool" s ErrSyntax.
Proof.
  unfold strconv_ParseBool.
  destruct (existsb _ _); [done|]. destruct (existsb _ _); [done|].
  by intros [= <-].
Qed.

Lemma ParseUint_error (bits : Z) (s : string) (v : Z) (e : error) :
  strconv_ParseUint bits s = (v, Some e) ->
  exists k, e = NumError "ParseUint" s k.
Proof.
  unfold strconv_ParseUint.
  destruct (ParseUint_raw bits s) as [un [k|]]; [|done].
  intros [= _ <-]. eauto.
Qed.

Lemma ParseInt_error (bits : Z) (s : string) (v : Z) (e : error) :
  strconv_ParseInt bits s = (v, Some e) ->
  exists k, e = NumError "ParseInt" s k.
Proof.
  unfold strconv_ParseInt. destruct s as [|c rest]; [intros [= _ <-]; eauto|].
  destruct (if Ascii.eqb c "+" then _ else _) as [neg s'].
  destruct (ParseUint_raw bits s') as [un [[|]|]].
  - intros [= _ <-]; eauto.
  - destruct (negb neg && _); [intros [= _ <-]; eauto|].
    destruct (neg && _); [intros [= _ <-]; eauto|done].
  - destruct (negb neg && _); [intros [= _ <-]; eauto|].
    destruct (neg && _); [intros [= _ <-]; eauto|done].
Qed.

Ltac parser_error_case L r s :=
  let e := fresh "err" in
  let H := fresh "Hparse" in
  first
    [ done
    | intros [= _ <-]; unfold row_shape_error, unsupported_type;
      simpl; discriminate
    | destruct (strconv_ParseBool s) as [?|e] eqn:H; [done|];
      intros [= _ <-]; by rewrite (ParseBool_error s e H)
    | destruct (strconv_ParseInt (IntSize L) s) as [? [e|]] eqn:H; [|done];
      intros [= _ <-]; by destruct (ParseInt_error _ s _ e H) as [? ->]
    | destruct (strconv_ParseUint (IntSize L) s) as [? [e|]] eqn:H; [|done];
      intros [= _ <-]; by destruct (ParseUint_error _ s _ e H) as [? ->]
    | destruct (strconv_ParseFloat L s); [done|]; by intros [= _ <-]
    | destruct (negb _);
      [ intros [= _ <-]; unfold row_shape_error, unsupported_type;
        simpl; discriminate
      | destruct (time_Parse L (timeFormat r) s);
        [by destruct (bool_decide _)|by intros [= _ <-]] ] ].

(** The errors of [setField] are those of the parsers and the message for
    an unsupported type: never the error of a row of the wrong length. *)
Lemma Rev1_setField_error (r : DecodeStruct) (t : rtype) (s : string) :
  forall (f f' : value L) (e : error),
    Rev1.setField L r t f s = (f', Err e) -> e <> row_shape_error.
Proof.
  induction t as [k str pkg|elem IH]; intros f f' e; simpl.
  - destruct k; parser_error_case L r s.
  - destruct (Rev1.setField L r elem (zero L elem) s) as [z' err] eqn:Hz.
    intros [= _ ->]. by apply (IH _ _ _ Hz).
Qed.

Lemma Rev1_column_error (r : DecodeStruct) (rv rv' : list (value L))
    (record : list string) (j : nat) (e : error) :
  Rev1.unmarshal_column L r rv record j = (rv', Err e) ->
  e <> row_shape_error.
Proof.
  unfold Rev1.unmarshal_column.
  destruct (cols r !! j) as [c|]; [|done].
  destruct (RecordIndex c <? 0); [done|].
  destruct (record !! Z.to_nat (RecordIndex c)) as [s|]; [|done].
  destruct (negb (Required c) && _); [done|].
  destruct (Fields (recordType r) !! StructFieldIndex c) as [fld|]; [|done].
  destruct (rv !! StructFieldIndex c) as [f|]; [|done].
  destruct (Exported fld); [|done].
  destruct (Rev1.setField L r (Type_ fld) f s) as [f' res] eqn:Hset.
  intros [= _ ->]. by apply (Rev1_setField_error _ _ _ _ _ _ Hset).
Qed.

Lemma Rev1_loop_error (r : DecodeStruct) (record : list string)
    (fc : list nat) :
  forall (rv rv' : list (value L)) (e : error),
    Rev1.unmarshal_loop L r rv record fc = (rv', Err e) ->
    e <> row_shape_error.
Proof.
  induction fc as [|j rest IH]; intros rv rv' e; simpl; [done|].
  destruct (Rev1.unmarshal_column L r rv record j) as [rv1 [|e1|msg]] eqn:Hcol.
  - apply IH.
  - intros [= _ <-]. by apply (Rev1_column_error _ _ _ _ _ _ Hcol).
  - done.
Qed.

Lemma matching_from_map (g : csvFieldInfo -> csvFieldInfo) (col : string)
    (cs : list csvFieldInfo) :
  (forall f, Header (g f) = Header f) ->
  forall j, matching_from col j (map g cs) = matching_from col j cs.
Proof.
  intros Hg. induction cs as [|f rest IH]; intros j; simpl; [done|].
  unfold matches. by rewrite Hg, !IH.
Qed.

Lemma bindings_map (g : csvFieldInfo -> csvFieldInfo)
    (cs : list csvFieldInfo) (header : list string) :
  (forall f, Header (g f) = Header f) ->
  bindings L (map g cs) header = bindings L cs header.
Proof.
  intros Hg. unfold bindings.
  induction header as [|cell rest IH]; simpl; [done|].
  by rewrite IH, matching_from_map.
Qed.

Lemma Header_bind_one (i : Z) (col : string) (f : csvFieldInfo) :
  Header (bind_one i col f) = Header f.
Proof. unfold bind_one. by destruct (matches col f). Qed.

(** A scan that reaches the end of the header has appended, for every
    cell in turn, the descriptors that match it. *)
Lemma scan_foundCols (header : list string) :
  forall (r : DecodeStruct) (i : nat) (r' : DecodeStruct),
    ParseHeader_scan L r i header = (r', None) ->
    foundCols r' = foundCols r ++ bindings L (cols r) header.
Proof.
  induction header as [|cell rest IH]; intros r i r'.
  - simpl. intros [= <-]. by rewrite app_nil_r.
  - rewrite scan_cons. simpl.
    destruct (known r (normalize L cell)); [|done].
    intros Hscan. apply IH in Hscan. rewrite Hscan. simpl.
    rewrite bindings_map by apply Header_bind_one.
    unfold bindings at 2. simpl. by rewrite <- app_assoc.
Qed.

Lemma ParseHeader_foundCols (r0 r : DecodeStruct) (header : list string) :
  ParseHeader L r0 header = (r, None) ->
  foundCols r = bindings L (cols r0) header.
Proof.
  unfold ParseHeader.
  destruct (ParseHeader_scan L (reset r0) 0 header) as [r' [e|]] eqn:Hscan;
    [done|].
  intros [= <- _]. apply scan_foundCols in Hscan. rewrite Hscan. simpl.
  by apply bindings_map.
Qed.

(** C4. After a successful [ParseHeader], [UnmarshalCSV] returns the
    error of a row of the wrong length exactly when the number of cells of
    the row differs from the length of [foundCols], which counts the
    bindings of descriptors to header cells (for every cell, the
    descriptors that match it) and not the cells of the header; when the
    two are equal and the target has the type of the decoder, the call is
    the loop of [unmarshal] over the bound columns. *)
Theorem row_shape_checked (r0 r : DecodeStruct) (header : list string)
    (record : list string) (v : instance L) :
  ParseHeader L r0 header = (r, None) ->
  (snd (Rev1.UnmarshalCSV L r record v) = Err row_shape_error
   <-> length record <> length (foundCols r))
  /\ foundCols r = bindings L (cols r0) header
  /\ (length record = length (foundCols r) ->
      itype v = recordType r ->
      Rev1.UnmarshalCSV L r record v
      = ({| itype := itype v;
            ifields := fst (Rev1.unmarshal L r (ifields v) record) |},
         snd (Rev1.unmarshal L r (ifields v) record))).
Proof.
  intros Hparse. split; [|split].
  - unfold Rev1.UnmarshalCSV.
    destruct (Nat.eqb_spec (length record) (length (foundCols r)))
      as [Heq|Hne]; simpl.
    + split; [|done]. intros Herr. exfalso.
      destruct (bool_decide (itype v = recordType r)); simpl in Herr.
      * unfold Rev1.unmarshal in Herr.
        destruct (Rev1.unmarshal_loop L r (ifields v) record (foundCols r))
          as [fs res] eqn:Hloop.
        simpl in Herr. subst res.
        by apply (Rev1_loop_error _ _ _ _ _ _ Hloop).
      * unfold row_shape_error in Herr. discriminate.
    + done.
  - by apply ParseHeader_foundCols.
  - intros Hlen Htype. unfold Rev1.UnmarshalCSV.
    rewrite Hlen, Nat.eqb_refl. simpl.
    rewrite bool_decide_eq_true_2 by done. simpl.
    by destruct (Rev1.unmarshal L r (ifields v) record).
Qed.

(** *** Fields that cannot be set *)

(** C10. A bound column whose field is not settable (the field is not
    exported) is skipped: the turn of the loop does not write to the
    target and does not return an error, whatever the text of the cell; so
    a turn that returns an error is on a settable field. With the cell and
    the field in range the turn ends with nil and the loop goes on. Both
    revisions. *)
Theorem unsettable_field_skipped (r : DecodeStruct) (rv : list (value L))
    (record : list string) (j : nat) (c : csvFieldInfo) (fld : StructField) :
  cols r !! j = Some c ->
  Fields (recordType r) !! StructFieldIndex c = Some fld ->
  Exported fld = false ->
  (fst (Rev1.unmarshal_column L r rv record j) = rv
   /\ forall e, snd (Rev1.unmarshal_column L r rv record j) <> Err e)
  /\ (fst (Rev2.unmarshal_column L r rv record j) = rv
      /\ forall e, snd (Rev2.unmarshal_column L r rv record j) <> Err e)
  /\ (forall (s : string) (f : value L),
        0 <= RecordIndex c ->
        record !! Z.to_nat (RecordIndex c) = Some s ->
        rv !! StructFieldIndex c = Some f ->
        Rev1.unmarshal_column L r rv record j = (rv, Nil)
        /\ Rev2.unmarshal_column L r rv record j = (rv, Nil)
        /\ forall rest,
             Rev1.unmarshal_loop L r rv record (j :: rest)
             = Rev1.unmarshal_loop L r rv record rest).
Proof.
  intros Hc Hfld Hexp.
  unfold Rev1.unmarshal_column, Rev2.unmarshal_column.
  rewrite Hc, Hfld, Hexp.
  split; [|split].
  - destruct (RecordIndex c <? 0); [done|].
    destruct (record !! Z.to_nat (RecordIndex c)) as [s|]; [|done].
    destruct (negb (Required c) && _); [done|].
    by destruct (rv !! StructFieldIndex c).
  - destruct (RecordIndex c <? 0); [done|].
    destruct (record !! Z.to_nat (RecordIndex c)) as [s|]; [|done].
    by destruct (rv !! StructFieldIndex c).
  - intros s f Hidx Hs Hf.
    assert (Hcol : Rev1.unmarshal_column L r rv record j = (rv, Nil)).
    { unfold Rev1.unmarshal_column. rewrite Hc, Hfld, Hexp, Hs, Hf.
      destruct (Z.ltb_spec (RecordIndex c) 0); [lia|].
      by destruct (negb (Required c) && _). }
    split; [|split].
    + rewrite Hs, Hf. destruct (Z.ltb_spec (RecordIndex c) 0); [lia|].
      by destruct (negb (Required c) && _).
    + rewrite Hs, Hf. by destruct (Z.ltb_spec (RecordIndex c) 0); [lia|].
    + intros rest. simpl. by rewrite Hcol.
Qed.

(** *** The first failure *)

Lemma Rev1_setField_plain_failure (r : DecodeStruct) (k : reflect.Kind)
    (str pkg s : string) (f f' : value L) (res : outcome) :
  Rev1.setField L r (Plain k str pkg) f s = (f', res) ->
  res <> Nil -> f' = f.
Proof.
  simpl. destruct k; try (by intros [= <- <-]).
  - destruct (strconv_ParseBool s); by intros [= <- <-].
  - destruct (strconv_ParseInt _ s) as [? [?|]]; by intros [= <- <-].
  - destruct (strconv_ParseInt _ s) as [? [?|]]; by intros [= <- <-].
  - destruct (strconv_ParseInt _ s) as [? [?|]]; by intros [= <- <-].
  - destruct (strconv_ParseInt _ s) as [? [?|]]; by intros [= <- <-].
  - destruct (strconv_ParseInt _ s) as [? [?|]]; by intros [= <- <-].
  - destruct (strconv_ParseUint _ s) as [? [?|]]; by intros [= <- <-].
  - destruct (strconv_ParseUint _ s) as [? [?|]]; by intros [= <- <-].
  - destruct (strconv_ParseUint _ s) as [? [?|]]; by intros [= <- <-].
  - destruct (strconv_ParseUint _ s) as [? [?|]]; by intros [= <- <-].
  - destruct (strconv_ParseUint _ s) as [? [?|]]; by intros [= <- <-].
  - destruct (strconv_ParseFloat L s); by intros [= <- <-].
  - destruct (strconv_ParseFloat L s); by intros [= <- <-].
  - destruct (negb _); [by intros [= <- <-]|].
    destruct (time_Parse L (timeFormat r) s); [|by intros [= <- <-]].
    destruct (bool_decide _); by intros [= <- <-].
Qed.

(** [setField] on a type is [setField] on the type under its pointers,
    applied to the variable behind them. *)
Lemma Rev1_setField_base (r : DecodeStruct) (t : rtype) (s : string) :
  forall f : value L,
    Rev1.setField L r t f s
    = (pointed L t
         (fst (Rev1.setField L r (base t) (fresh_or_old L t f) s)),
       snd (Rev1.setField L r (base t) (fresh_or_old L t f) s)).
Proof.
  induction t as [k str pkg|elem IH]; intros f.
  - cbn [base fresh_or_old pointed].
    by destruct (Rev1.setField L r (Plain k str pkg) f s).
  - cbn [Rev1.setField base pointed]. rewrite IH.
    unfold fresh_or_old. cbn [base].
    destruct elem as [k str pkg|elem']; cbn [base]; done.
Qed.

Lemma base_plain (t : rtype) : exists k str pkg, base t = Plain k str pkg.
Proof. induction t as [k str pkg|elem IH]; simpl; eauto. Qed.

Lemma Rev1_setField_failure (r : DecodeStruct) (t : rtype) (s : string)
    (f f' : value L) (res : outcome) :
  Rev1.setField L r t f s = (f', res) ->
  res <> Nil -> f' = after_failure L t f.
Proof.
  rewrite Rev1_setField_base. unfold after_failure.
  destruct (base_plain t) as (k & str & pkg & Hbase). rewrite Hbase.
  destruct (Rev1.setField L r (Plain k str pkg) (fresh_or_old L t f) s)
    as [v err] eqn:Hset.
  simpl. intros [= <- ->] Hres.
  by rewrite (Rev1_setField_plain_failure _ _ _ _ _ _ _ _ Hset Hres).
Qed.

Lemma Rev1_loop_app (r : DecodeStruct) (record : list string)
    (pre post : list nat) :
  forall rv : list (value L),
    Rev1.unmarshal_loop L r rv record (pre ++ post)
    = match Rev1.unmarshal_loop L r rv record pre with
      | (rv1, Nil) => Rev1.unmarshal_loop L r rv1 record post
      | stop => stop
      end.
Proof.
  induction pre as [|j pre IH]; intros rv; simpl; [done|].
  destruct (Rev1.unmarshal_column L r rv record j) as [rv1 [|e|msg]]; auto.
Qed.

(** A turn of the loop that returns an error is a turn on a settable
    field whose parse failed. *)
Lemma Rev1_column_failure (r : DecodeStruct) (rv rv' : list (value L))
    (record : list string) (j : nat) (e : error) :
  Rev1.unmarshal_column L r rv record j = (rv', Err e) ->
  exists (c : csvFieldInfo) (fld : StructField) (f : value L) (s : string),
    cols r !! j = Some c
    /\ 0 <= RecordIndex c
    /\ record !! Z.to_nat (RecordIndex c) = Some s
    /\ Fields (recordType r) !! StructFieldIndex c = Some fld
    /\ rv !! StructFieldIndex c = Some f
    /\ Exported fld = true
    /\ snd (Rev1.setField L r (Type_ fld) f s) = Err e
    /\ rv' = <[StructFieldIndex c := after_failure L (Type_ fld) f]> rv.
Proof.
  unfold Rev1.unmarshal_column.
  destruct (cols r !! j) as [c|]; [|done].
  destruct (Z.ltb_spec (RecordIndex c) 0) as [|Hidx]; [done|].
  destruct (record !! Z.to_nat (RecordIndex c)) as [s|] eqn:Hs; [|done].
  destruct (negb (Required c) && _); [done|].
  destruct (Fields (recordType r) !! StructFieldIndex c) as [fld|] eqn:Hfld;
    [|done].
  destruct (rv !! StructFieldIndex c) as [f|] eqn:Hf; [|done].
  destruct (Exported fld) eqn:Hexp; [|done].
  destruct (Rev1.setField L r (Type_ fld) f s) as [f' res] eqn:Hset.
  intros [= <- ->]. exists c, fld, f, s.
  pose proof (Rev1_setField_failure _ _ _ _ _ _ Hset) as Hfail.
  rewrite Hfail by done. rewrite Hset. by repeat split.
Qed.

(** C8, as the code has it. The first turn of the loop whose parse fails
    ends the row: [unmarshal] returns the error of that parse and the bound
    columns after it are not processed. Nothing is rolled back: every field
    other than the one of the failing column holds what the turns before
    left in it. The field of the failing column keeps its value when its
    type is not a pointer; a pointer field has already been set to a
    pointer to a new zero value. *)
Theorem first_failure_aborts (r : DecodeStruct) (rv rv1 rv2 : list (value L))
    (record : list string) (pre post : list nat) (j : nat) (e : error) :
  foundCols r = pre ++ j :: post ->
  Rev1.unmarshal_loop L r rv record pre = (rv1, Nil) ->
  Rev1.unmarshal_column L r rv1 record j = (rv2, Err e) ->
  Rev1.unmarshal L r rv record = (rv2, Err e)
  /\ exists (c : csvFieldInfo) (fld : StructField) (f : value L) (s : string),
       cols r !! j = Some c
       /\ record !! Z.to_nat (RecordIndex c) = Some s
       /\ Fields (recordType r) !! StructFieldIndex c = Some fld
       /\ rv1 !! StructFieldIndex c = Some f
       /\ snd (Rev1.setField L r (Type_ fld) f s) = Err e
       /\ rv2 = <[StructFieldIndex c := after_failure L (Type_ fld) f]> rv1
       /\ (forall k, k <> StructFieldIndex c -> rv2 !! k = rv1 !! k)
       /\ (forall k str pkg, Type_ fld = Plain k str pkg -> rv2 = rv1)
       /\ (forall elem, Type_ fld = Pointer elem ->
             rv2 !! StructFieldIndex c
             = Some (pointed L (Type_ fld) (zero L (base elem)))).
Proof.
  intros Hfound Hpre Hcol. split.
  - unfold Rev1.unmarshal. rewrite Hfound, Rev1_loop_app, Hpre. simpl.
    by rewrite Hcol.
  - destruct (Rev1_column_failure _ _ _ _ _ _ Hcol)
      as (c & fld & f & s & Hc & _ & Hs & Hfld & Hf & _ & Hset & ->).
    exists c, fld, f, s. repeat split; auto.
    + intros k Hk. by rewrite list_lookup_insert_ne.
    + intros k str pkg Ht. rewrite Ht. unfold after_failure. simpl.
      by apply list_insert_id.
    + intros elem Ht. rewrite list_lookup_insert_eq.
      * rewrite Ht. done.
      * by apply lookup_lt_Some in Hf.
Qed.

(** *** The place of a column in the loop *)

Lemma Rev2_loop_app (r : DecodeStruct) (record : list string)
    (pre post : list nat) :
  forall rv : list (value L),
    Rev2.unmarshal_loop L r rv record (pre ++ post)
    = match Rev2.unmarshal_loop L r rv record pre with
      | (rv1, Nil) => Rev2.unmarshal_loop L r rv1 record post
      | stop => stop
      end.
Proof.
  induction pre as [|j pre IH]; intros rv; simpl; [done|].
  destruct (Rev2.unmarshal_column L r rv record j) as [rv1 [|e|msg]]; auto.
Qed.

(** [unmarshal], seen from a bound column that the loop reaches: the turn
    for that column, and the rest of the loop when the turn ends with
    nil. *)
Lemma Rev1_unmarshal_at (r : DecodeStruct) (rv rv1 : list (value L))
    (record : list string) (pre post : list nat) (j : nat) :
  foundCols r = pre ++ j :: post ->
  Rev1.unmarshal_loop L r rv record pre = (rv1, Nil) ->
  Rev1.unmarshal L r rv record
  = match Rev1.unmarshal_column L r rv1 record j with
    | (rv2, Nil) => Rev1.unmarshal_loop L r rv2 record post
    | stop => stop
    end.
Proof.
  intros Hfound Hpre. unfold Rev1.unmarshal.
  by rewrite Hfound, Rev1_loop_app, Hpre.
Qed.

Lemma Rev2_unmarshal_at (r : DecodeStruct) (rv rv1 : list (value L))
    (record : list string) (pre post : list nat) (j : nat) :
  foundCols r = pre ++ j :: post ->
  Rev2.unmarshal_loop L r rv record pre = (rv1, Nil) ->
  Rev2.unmarshal L r rv record
  = match Rev2.unmarshal_column L r rv1 record j with
    | (rv2, Nil) => Rev2.unmarshal_loop L r rv2 record post
    | stop => stop
    end.
Proof.
  intros Hfound Hpre. unfold Rev2.unmarshal.
  by rewrite Hfound, Rev2_loop_app, Hpre.
Qed.

(** *** The two revisions of [setField] *)

(** On a type that the first revision supports and that is not a struct
    of another package printing as time.Time, the type switch of the
    second revision does what the switch on the kind of the first does. *)
Lemma Rev2_switch_agrees (r : DecodeStruct) (k : reflect.Kind)
    (str pkg : string) (g : value L) (s : string) :
  Rev1.isSupportedField (Plain k str pkg) = true ->
  genuine (Plain k str pkg) = true ->
  Rev2.setField_switch L r (Plain k str pkg) g s
  = Rev1.setField L r (Plain k str pkg) g s.
Proof.
  intros Hsup Hgen. unfold Rev2.setField_switch.
  assert (Hdyn : Rev2.dynamic_type L (Plain k str pkg) g
                 = Some (Plain k str pkg)) by (by destruct k).
  rewrite Hdyn. unfold Rev2.type_switch.
  destruct (decide (Plain k str pkg = time_Time)) as [Heq|Hne].
  - rewrite bool_decide_eq_true_2 by done.
    injection Heq as -> -> ->. cbn [Rev1.setField]. simpl.
    by destruct (time_Parse L (timeFormat r) s).
  - rewrite bool_decide_eq_false_2 by done.
    destruct k; try done;
      try (destruct (bool_decide _); reflexivity).
    exfalso. apply Hne. simpl in Hsup. unfold genuine in Hgen. simpl in Hgen.
    rewrite Hsup in Hgen. simpl in Hgen.
    apply String.eqb_eq in Hsup, Hgen. by subst.
Qed.

Lemma Rev2_setField_agrees (r : DecodeStruct) (t : rtype) (f : value L)
    (s : string) :
  Rev1.isSupportedField t = true ->
  shallow t = true ->
  genuine t = true ->
  Rev2.setField L r t f s = Rev1.setField L r t f s.
Proof.
  intros Hsup Hsh Hgen.
  destruct t as [k str pkg|[k str pkg|elem]]; [| |done].
  - by apply Rev2_switch_agrees.
  - cbn [Rev2.setField Rev1.setField]. by rewrite Rev2_switch_agrees.
Qed.

(** *** Empty cells *)

Lemma Rev1_column_other_field (r : DecodeStruct) (record : list string)
    (j : nat) (c : csvFieldInfo) :
  NoDup (StructFieldIndex <$> cols r) ->
  cols r !! j = Some c ->
  Required c = false ->
  0 <= RecordIndex c ->
  record !! Z.to_nat (RecordIndex c) = Some EmptyString ->
  forall (j' : nat) (rv : list (value L)),
    fst (Rev1.unmarshal_column L r rv record j') !! StructFieldIndex c
    = rv !! StructFieldIndex c.
Proof.
  intros Hnd Hc Hopt Hidx Hcell j' rv. unfold Rev1.unmarshal_column.
  destruct (cols r !! j') as [c'|] eqn:Hc'; [|done].
  destruct (decide (StructFieldIndex c' = StructFieldIndex c)) as [Heq|Hne].
  - assert (j' = j) as ->.
    { eapply (NoDup_lookup _ _ _ _ Hnd); rewrite list_lookup_fmap.
      - by rewrite Hc'.
      - rewrite Hc. simpl. by rewrite Heq. }
    assert (c' = c) as -> by congruence.
    destruct (Z.ltb_spec (RecordIndex c) 0); [lia|].
    rewrite Hcell, Hopt. done.
  - destruct (RecordIndex c' <? 0); [done|].
    destruct (record !! Z.to_nat (RecordIndex c')) as [s|]; [|done].
    destruct (negb (Required c') && _); [done|].
    destruct (Fields (recordType r) !! StructFieldIndex c') as [fld|]; [|done].
    destruct (rv !! StructFieldIndex c') as [f|]; [|done].
    destruct (Exported fld); [|done].
    destruct (Rev1.setField L r (Type_ fld) f s) as [f' res]; simpl;
      by rewrite list_lookup_insert_ne.
Qed.

(** The field of an optional column whose cell is empty holds after the
    loop what it held before. *)
Lemma Rev1_optional_empty_untouched (r : DecodeStruct) (record : list string)
    (j : nat) (c : csvFieldInfo) :
  NoDup (StructFieldIndex <$> cols r) ->
  cols r !! j = Some c ->
  Required c = false ->
  0 <= RecordIndex c ->
  record !! Z.to_nat (RecordIndex c) = Some EmptyString ->
  forall (fc : list nat) (rv : list (value L)),
    fst (Rev1.unmarshal_loop L r rv record fc) !! StructFieldIndex c
    = rv !! StructFieldIndex c.
Proof.
  intros Hnd Hc Hopt Hidx Hcell fc.
  induction fc as [|j' rest IH]; intros rv; simpl; [done|].
  pose proof (Rev1_column_other_field r record j c Hnd Hc Hopt Hidx Hcell j' rv)
    as Hcol.
  destruct (Rev1.unmarshal_column L r rv record j') as [rv1 [|e|msg]];
    simpl in *; [|done..].
  by rewrite IH.
Qed.

(** The turn of the loop for a cell that is not skipped, on a settable
    field: [setField] on the type under the pointers of the field. *)
Lemma Rev1_column_settable (r : DecodeStruct) (rv : list (value L))
    (record : list string) (j : nat) (c : csvFieldInfo) (fld : StructField)
    (f : value L) (s : string) :
  cols r !! j = Some c ->
  0 <= RecordIndex c ->
  record !! Z.to_nat (RecordIndex c) = Some s ->
  negb (Required c) && (String.length s =? 0)%nat = false ->
  Fields (recordType r) !! StructFieldIndex c = Some fld ->
  rv !! StructFieldIndex c = Some f ->
  Exported fld = true ->
  Rev1.unmarshal_column L r rv record j
  = (<[StructFieldIndex c :=
         pointed L (Type_ fld)
           (fst (Rev1.setField L r (base (Type_ fld))
                   (fresh_or_old L (Type_ fld) f) s))]> rv,
     snd (Rev1.setField L r (base (Type_ fld))
            (fresh_or_old L (Type_ fld) f) s)).
Proof.
  intros Hc Hidx Hs Hskip Hfld Hf Hexp. unfold Rev1.unmarshal_column.
  rewrite Hc, Hs, Hskip, Hfld, Hf, Hexp.
  destruct (Z.ltb_spec (RecordIndex c) 0); [lia|].
  by rewrite Rev1_setField_base.
Qed.

(** The second revision has no test of the cell: its turn on a settable
    field of a type that the first revision decodes alike is the turn above
    for every cell. *)
Lemma Rev2_column_settable (r : DecodeStruct) (rv : list (value L))
    (record : list string) (j : nat) (c : csvFieldInfo) (fld : StructField)
    (f : value L) (s : string) :
  cols r !! j = Some c ->
  0 <= RecordIndex c ->
  record !! Z.to_nat (RecordIndex c) = Some s ->
  Fields (recordType r) !! StructFieldIndex c = Some fld ->
  rv !! StructFieldIndex c = Some f ->
  Exported fld = true ->
  Rev1.isSupportedField (Type_ fld) = true ->
  shallow (Type_ fld) = true ->
  genuine (Type_ fld) = true ->
  Rev2.unmarshal_column L r rv record j
  = (<[StructFieldIndex c :=
         pointed L (Type_ fld)
           (fst (Rev1.setField L r (base (Type_ fld))
                   (fresh_or_old L (Type_ fld) f) s))]> rv,
     snd (Rev1.setField L r (base (Type_ fld))
            (fresh_or_old L (Type_ fld) f) s)).
Proof.
  intros Hc Hidx Hs Hfld Hf Hexp Hsup Hsh Hgen. unfold Rev2.unmarshal_column.
  rewrite Hc, Hs, Hfld, Hf, Hexp.
  destruct (Z.ltb_spec (RecordIndex c) 0); [lia|].
  rewrite Rev2_setField_agrees by done.
  by rewrite Rev1_setField_base.
Qed.

(** C3, as the code has it. In the first revision, the turn of the loop
    for an optional column whose cell is empty does nothing: no parse is
    attempted, [unmarshal] goes on with the next bound column and, the
    descriptors having distinct fields, the field holds after [unmarshal]
    what it held before. For a required column with an empty cell and a
    settable field, by the kind of the type under the pointers of the
    field: a string is set to the empty string and [unmarshal] goes on; for
    the boolean, integer, unsigned and float kinds [unmarshal] returns the
    syntax error of the parser; for [time.Time], [unmarshal] returns the
    error of [time.Parse] when the format of the decoder rejects the empty
    text, as the default [time.RFC3339] does, and stores the time and goes
    on when the format accepts it, as the empty format does. The second
    revision has no test of the cell: the empty cell of an optional column
    is parsed like any other, so that a string field is overwritten with
    the empty string and a numeric or boolean field makes [unmarshal]
    return the syntax error. *)
Theorem empty_cell_decoding (r : DecodeStruct) (rv rv1 : list (value L))
    (record : list string) (pre post : list nat) (j : nat)
    (c : csvFieldInfo) :
  foundCols r = pre ++ j :: post ->
  cols r !! j = Some c ->
  0 <= RecordIndex c ->
  record !! Z.to_nat (RecordIndex c) = Some EmptyString ->
  (Rev1.unmarshal_loop L r rv record pre = (rv1, Nil) ->
   Required c = false ->
     Rev1.unmarshal L r rv record = Rev1.unmarshal_loop L r rv1 record post
     /\ (NoDup (StructFieldIndex <$> cols r) ->
         fst (Rev1.unmarshal L r rv record) !! StructFieldIndex c
         = rv !! StructFieldIndex c))
  /\ (Rev1.unmarshal_loop L r rv record pre = (rv1, Nil) ->
      Required c = true ->
      forall (fld : StructField) (f : value L) (k : reflect.Kind)
             (str pkg : string),
        Fields (recordType r) !! StructFieldIndex c = Some fld ->
        rv1 !! StructFieldIndex c = Some f ->
        Exported fld = true ->
        base (Type_ fld) = Plain k str pkg ->
        (k = reflect.String ->
           Rev1.unmarshal L r rv record
           = Rev1.unmarshal_loop L r
               (<[StructFieldIndex c :=
                    pointed L (Type_ fld) (VString EmptyString)]> rv1)
               record post)
        /\ (k = reflect.Bool \/ signed_kind k = true
              \/ unsigned_kind k = true \/ float_kind k = true ->
            Rev1.unmarshal L r rv record
            = (<[StructFieldIndex c := after_failure L (Type_ fld) f]> rv1,
               Err (NumError (parser_name k) EmptyString ErrSyntax)))
        /\ (k = reflect.Struct -> str = "time.Time"%string ->
            (forall pe,
               time_Parse L (timeFormat r) EmptyString = inr pe ->
               Rev1.unmarshal L r rv record
               = (<[StructFieldIndex c := after_failure L (Type_ fld) f]> rv1,
                  Err (TimeParseError pe)))
            /\ (timeFormat r = time_RFC3339 ->
                exists pe,
                  Rev1.unmarshal L r rv record
                  = (<[StructFieldIndex c :=
                         after_failure L (Type_ fld) f]> rv1,
                     Err (TimeParseError pe)))
            /\ (forall x,
                  pkg = "time"%string ->
                  time_Parse L (timeFormat r) EmptyString = inl x ->
                  Rev1.unmarshal L r rv record
                  = Rev1.unmarshal_loop L r
                      (<[StructFieldIndex c :=
                           pointed L (Type_ fld) (VTime x)]> rv1)
                      record post)
            /\ (pkg = "time"%string -> timeFormat r = EmptyString ->
                exists x,
                  Rev1.unmarshal L r rv record
                  = Rev1.unmarshal_loop L r
                      (<[StructFieldIndex c :=
                           pointed L (Type_ fld) (VTime x)]> rv1)
                      record post)))
  /\ (Rev2.unmarshal_loop L r rv record pre = (rv1, Nil) ->
      forall (fld : StructField) (f : value L) (k : reflect.Kind)
             (str pkg : string),
        Fields (recordType r) !! StructFieldIndex c = Some fld ->
        rv1 !! StructFieldIndex c = Some f ->
        Exported fld = true ->
        shallow (Type_ fld) = true ->
        base (Type_ fld) = Plain k str pkg ->
        (k = reflect.String ->
           Rev2.unmarshal L r rv record
           = Rev2.unmarshal_loop L r
               (<[StructFieldIndex c :=
                    pointed L (Type_ fld) (VString EmptyString)]> rv1)
               record post)
        /\ (k = reflect.Bool \/ signed_kind k = true
              \/ unsigned_kind k = true \/ float_kind k = true ->
            Rev2.unmarshal L r rv record
            = (<[StructFieldIndex c := after_failure L (Type_ fld) f]> rv1,
               Err (NumError (parser_name k) EmptyString ErrSyntax)))).
Proof.
  intros Hfound Hc Hidx Hcell. split; [|split].
  - intros Hpre Hopt.
    assert (Hcol : Rev1.unmarshal_column L r rv1 record j = (rv1, Nil)).
    { unfold Rev1.unmarshal_column. rewrite Hc, Hcell, Hopt.
      by destruct (Z.ltb_spec (RecordIndex c) 0); [lia|]. }
    split.
    + by rewrite (Rev1_unmarshal_at r rv rv1 record pre post j), Hcol.
    + intros Hnd. unfold Rev1.unmarshal.
      by apply (Rev1_optional_empty_untouched r record j c).
  - intros Hpre Hreq fld f k str pkg Hfld Hf Hexp Hbase.
    assert (Hskip : negb (Required c) && (String.length EmptyString =? 0)%nat
                    = false) by (by rewrite Hreq).
    pose proof (Rev1_column_settable r rv1 record j c fld f EmptyString
                  Hc Hidx Hcell Hskip Hfld Hf Hexp) as Hcol.
    rewrite Hbase in Hcol.
    rewrite (Rev1_unmarshal_at r rv rv1 record pre post j Hfound Hpre), Hcol.
    unfold after_failure. clear Hcol.
    split; [|split].
    + by intros ->.
    + intros [->|[Hk|[Hk|Hk]]].
      * done.
      * by destruct k.
      * by destruct k.
      * destruct k; try done; cbn [Rev1.setField];
          by rewrite (ParseFloat_empty L).
    + intros -> ->. cbn [Rev1.setField]. simpl.
      split; [|split; [|split]].
      * intros pe Hpe. by rewrite Hpe.
      * intros Hfmt. rewrite Hfmt.
        destruct (time_Parse_RFC3339_empty L) as [pe Hpe].
        exists pe. by rewrite Hpe.
      * intros x -> Hx. rewrite Hx. by rewrite bool_decide_eq_true_2.
      * intros -> Hfmt. rewrite Hfmt.
        destruct (time_Parse_empty_layout L) as [x Hx].
        exists x. rewrite Hx. by rewrite bool_decide_eq_true_2.
  - intros Hpre fld f k str pkg Hfld Hf Hexp Hsh Hbase.
    assert (Hcol : Rev1.isSupportedField (Type_ fld) = true ->
                   genuine (Type_ fld) = true ->
                   Rev2.unmarshal L r rv record
                   = match
                       (<[StructFieldIndex c :=
                            pointed L (Type_ fld)
                              (fst (Rev1.setField L r (Plain k str pkg)
                                      (fresh_or_old L (Type_ fld) f)
                                      EmptyString))]> rv1,
                        snd (Rev1.setField L r (Plain k str pkg)
                               (fresh_or_old L (Type_ fld) f) EmptyString))
                     with
                     | (rv2, Nil) => Rev2.unmarshal_loop L r rv2 record post
                     | stop => stop
                     end).
    { intros Hsup Hgen.
      rewrite (Rev2_unmarshal_at r rv rv1 record pre post j Hfound Hpre).
      rewrite (Rev2_column_settable r rv1 record j c fld f EmptyString)
        by done.
      by rewrite Hbase. }
    assert (Hkind : k <> reflect.Struct ->
                    Rev1.isSupportedField (Plain k str pkg) = true ->
                    Rev1.isSupportedField (Type_ fld) = true
                    /\ genuine (Type_ fld) = true).
    { intros Hk Hsup. split.
      - by rewrite Rev1_isSupportedField_base, Hbase.
      - unfold genuine. rewrite Hbase. by destruct k. }
    unfold after_failure. split.
    + intros ->. destruct Hkind as [Hsup Hgen]; [done..|].
      by rewrite Hcol.
    + intros [->|[Hk|[Hk|Hk]]].
      * destruct Hkind as [Hsup Hgen]; [done..|]. by rewrite Hcol.
      * destruct Hkind as [Hsup Hgen]; [by destruct k..|].
        rewrite Hcol by done. by destruct k.
      * destruct Hkind as [Hsup Hgen]; [by destruct k..|].
        rewrite Hcol by done. by destruct k.
      * destruct Hkind as [Hsup Hgen]; [by destruct k..|].
        rewrite Hcol by done.
        destruct k; try done; cbn [Rev1.setField];
          by rewrite (ParseFloat_empty L).
Qed.

End Decoding.

(** ** Integers *)

Section Integers.
Variable L : GoStd.

Lemma digits_value_ge (s : string) :
  forall (n v : Z), 0 <= n -> digits_value n s = Some v -> n <= v.
Proof.
  induction s as [|c rest IH]; intros n v Hn; cbn [digits_value].
  - intros [= <-]. lia.
  - destruct (Z.leb_spec 48 (Z.of_nat (nat_of_ascii c))) as [H48|]; [|done].
    destruct (Z.leb_spec (Z.of_nat (nat_of_ascii c)) 57) as [H57|]; [|done].
    cbn [andb]. intros Hv. apply IH in Hv; lia.
Qed.

Lemma maxUint64_value : maxUint64 = 18446744073709551615.
Proof. reflexivity. Qed.

Lemma maxVal_bound (bits : Z) : 0 <= maxVal bits <= 18446744073709551615.
Proof.
  unfold maxVal.
  pose proof (Z.mod_pos_bound (2 ^ bits - 1) (2 ^ 64) ltac:(lia)). lia.
Qed.

Lemma maxVal_small (bits : Z) :
  0 < bits <= 64 -> maxVal bits = 2 ^ bits - 1.
Proof.
  intros Hbits. unfold maxVal. apply Z.mod_small.
  assert (0 < 2 ^ bits) by (apply Z.pow_pos_nonneg; lia).
  assert (2 ^ bits <= 2 ^ 64) by (apply Z.pow_le_mono_r; lia).
  lia.
Qed.

Lemma IntSize_range : 1 < IntSize L <= 64.
Proof. destruct (IntSize_platform L) as [-> | ->]; lia. Qed.

(** The digit loop of [ParseUint] returns the number the digits denote
    when it fits the bit size, and an error otherwise. *)
Lemma ParseUint_digits_spec (bits : Z) (s : string) :
  forall n : Z,
    0 <= n <= maxVal bits ->
    match digits_value n s with
    | Some v =>
        if v <=? maxVal bits then ParseUint_digits bits n s = (v, None)
        else ParseUint_digits bits n s = (maxVal bits, Some ErrRange)
    | None =>
        ParseUint_digits bits n s = (0, Some ErrSyntax)
        \/ ParseUint_digits bits n s = (maxVal bits, Some ErrRange)
    end.
Proof.
  pose proof (maxVal_bound bits) as HM.
  induction s as [|c rest IH]; intros n Hn;
    cbn [digits_value ParseUint_digits].
  - destruct (Z.leb_spec n (maxVal bits)); [done|lia].
  - set (d := Z.of_nat (nat_of_ascii c)).
    destruct (Z.leb_spec 48 d) as [H48|]; [|by left].
    destruct (Z.leb_spec d 57) as [H57|]; [|by left].
    cbn [andb].
    change (maxUint64 / 10 + 1) with 1844674407370955162.
    fold (maxVal bits).
    change (2 ^ 64) with 18446744073709551616.
    assert (Hover : maxVal bits < n * 10 + (d - 48) ->
              match digits_value (n * 10 + (d - 48)) rest with
              | Some v =>
                  if v <=? maxVal bits
                  then (maxVal bits, Some ErrRange) = (v, None)
                  else (maxVal bits, Some ErrRange)
                       = (maxVal bits, Some ErrRange)
              | None =>
                  (maxVal bits, Some ErrRange) = (0, Some ErrSyntax)
                  \/ (maxVal bits, Some ErrRange)
                     = (maxVal bits, Some ErrRange)
              end).
    { intros Hbig.
      destruct (digits_value (n * 10 + (d - 48)) rest) as [v|] eqn:Hv;
        [|by right].
      apply digits_value_ge in Hv; [|lia].
      destruct (Z.leb_spec v (maxVal bits)); [lia|done]. }
    destruct (Z.geb_spec n 1844674407370955162) as [Hcut|Hcut].
    + apply Hover. lia.
    + rewrite (Z.mod_small (n * 10)) by lia.
      destruct (Z_lt_le_dec 18446744073709551615 (n * 10 + (d - 48)))
        as [Hbig|Hfit].
      * assert (Hwrap : (n * 10 + (d - 48)) mod 18446744073709551616
                        = n * 10 + (d - 48) - 18446744073709551616).
        { symmetry. apply (Z.mod_unique _ _ 1); lia. }
        rewrite Hwrap.
        destruct (Z.ltb_spec (n * 10 + (d - 48) - 18446744073709551616)
                    (n * 10)); [|lia].
        cbn [orb]. apply Hover. lia.
      * rewrite (Z.mod_small (n * 10 + (d - 48))) by lia.
        destruct (Z.ltb_spec (n * 10 + (d - 48)) (n * 10)); [lia|].
        destruct (Z.gtb_spec (n * 10 + (d - 48)) (maxVal bits));
          cbn [orb].
        -- apply Hover. lia.
        -- apply IH. lia.
Qed.

Lemma decimal_unsigned_nonneg (s : string) (v : Z) :
  decimal_unsigned s = Some v -> 0 <= v.
Proof.
  destruct s as [|c rest]; [done|]. unfold decimal_unsigned.
  by apply digits_value_ge.
Qed.

Lemma ParseUint_raw_spec (bits : Z) (s : string) :
  match decimal_unsigned s with
  | Some v =>
      if v <=? maxVal bits then ParseUint_raw bits s = (v, None)
      else ParseUint_raw bits s = (maxVal bits, Some ErrRange)
  | None =>
      ParseUint_raw bits s = (0, Some ErrSyntax)
      \/ ParseUint_raw bits s = (maxVal bits, Some ErrRange)
  end.
Proof.
  destruct s as [|c rest]; [by left|].
  unfold decimal_unsigned, ParseUint_raw.
  apply ParseUint_digits_spec. pose proof (maxVal_bound bits). lia.
Qed.

(** [strconv.ParseUint] returns the number that [s] denotes when [s] is a
    decimal text and the number fits the bit size, and an error
    otherwise. *)
Lemma ParseUint_spec (bits : Z) (s : string) :
  0 < bits <= 64 ->
  match decimal_unsigned s with
  | Some v =>
      if v <? 2 ^ bits then strconv_ParseUint bits s = (v, None)
      else exists w,
          strconv_ParseUint bits s
          = (w, Some (NumError "ParseUint" s ErrRange))
  | None =>
      exists w e,
        strconv_ParseUint bits s = (w, Some (NumError "ParseUint" s e))
  end.
Proof.
  intros Hbits. pose proof (ParseUint_raw_spec bits s) as H.
  rewrite (maxVal_small bits Hbits) in H. unfold strconv_ParseUint.
  destruct (decimal_unsigned s) as [v|].
  - destruct (Z.leb_spec v (2 ^ bits - 1));
      destruct (Z.ltb_spec v (2 ^ bits)); try lia; rewrite H; eauto.
  - destruct H as [-> | ->]; eauto.
Qed.

Lemma ParseInt_after_sign (bits : Z) (neg : bool) (s s0 : string) :
  1 < bits <= 64 ->
  match decimal_unsigned s with
  | Some v =>
      let z := if neg then - v else v in
      if (- 2 ^ (bits - 1) <=? z) && (z <? 2 ^ (bits - 1)) then
        match ParseUint_raw bits s with
        | (_, Some ErrSyntax) => (0, Some (NumError "ParseInt" s0 ErrSyntax))
        | (un, _) =>
            let cutoff := 2 ^ (bits - 1) in
            if negb neg && (un >=? cutoff)
            then (cutoff - 1, Some (NumError "ParseInt" s0 ErrRange))
            else if neg && (un >? cutoff)
            then (- cutoff, Some (NumError "ParseInt" s0 ErrRange))
            else (if neg then - un else un, None)
        end = (z, None)
      else
        exists w,
          match ParseUint_raw bits s with
          | (_, Some ErrSyntax) => (0, Some (NumError "ParseInt" s0 ErrSyntax))
          | (un, _) =>
              let cutoff := 2 ^ (bits - 1) in
              if negb neg && (un >=? cutoff)
              then (cutoff - 1, Some (NumError "ParseInt" s0 ErrRange))
              else if neg && (un >? cutoff)
              then (- cutoff, Some (NumError "ParseInt" s0 ErrRange))
              else (if neg then - un else un, None)
          end = (w, Some (NumError "ParseInt" s0 ErrRange))
  | None =>
      exists w e,
        match ParseUint_raw bits s with
        | (_, Some ErrSyntax) => (0, Some (NumError "ParseInt" s0 ErrSyntax))
        | (un, _) =>
            let cutoff := 2 ^ (bits - 1) in
            if negb neg && (un >=? cutoff)
            then (cutoff - 1, Some (NumError "ParseInt" s0 ErrRange))
            else if neg && (un >? cutoff)
            then (- cutoff, Some (NumError "ParseInt" s0 ErrRange))
            else (if neg then - un else un, None)
        end = (w, Some (NumError "ParseInt" s0 e))
  end.
Proof.
  intros Hbits.
  pose proof (ParseUint_raw_spec bits s) as H.
  pose proof (decimal_unsigned_nonneg s) as Hpos.
  rewrite (maxVal_small bits) in H by lia.
  assert (Hpow : 2 ^ bits = 2 * 2 ^ (bits - 1)).
  { rewrite <- Z.pow_succ_r by lia. f_equal. lia. }
  assert (Hcut : 2 <= 2 ^ (bits - 1)).
  { change 2 with (2 ^ 1) at 1. apply Z.pow_le_mono_r; lia. }
  rewrite Hpow in H. set (cutoff := 2 ^ (bits - 1)) in *.
  destruct (decimal_unsigned s) as [v|].
  - specialize (Hpos v eq_refl). cbv zeta.
    destruct (Z.leb_spec v (2 * cutoff - 1)) as [Hfit|Hbig];
      rewrite H; destruct neg; cbn [negb andb].
    + destruct (Z.gtb_spec v cutoff);
        destruct (Z.leb_spec (- cutoff) (- v));
        destruct (Z.ltb_spec (- v) cutoff);
        cbn [andb]; try lia; eauto.
    + destruct (Z.geb_spec v cutoff);
        destruct (Z.leb_spec (- cutoff) v);
        destruct (Z.ltb_spec v cutoff);
        cbn [andb]; try lia; eauto.
    + destruct (Z.leb_spec (- cutoff) (- v)); cbn [andb]; [lia|].
      destruct (Z.gtb_spec (2 * cutoff - 1) cutoff); [eauto|lia].
    + destruct (Z.leb_spec (- cutoff) v);
        destruct (Z.ltb_spec v cutoff);
        destruct (Z.geb_spec (2 * cutoff - 1) cutoff);
        cbn [andb]; try lia; eauto.
  - destruct H as [-> | ->]; [eauto|].
    destruct neg; cbn [negb andb].
    + destruct (Z.gtb_spec (2 * cutoff - 1) cutoff); [eauto|lia].
    + destruct (Z.geb_spec (2 * cutoff - 1) cutoff); [eauto|lia].
Qed.

(** [strconv.ParseInt] returns the number that [s] denotes when [s] is a
    decimal text with an optional sign and the number fits a signed
    integer of the bit size, and an error otherwise. *)
Lemma ParseInt_spec (bits : Z) (s : string) :
  1 < bits <= 64 ->
  match decimal_signed s with
  | Some z =>
      if (- 2 ^ (bits - 1) <=? z) && (z <? 2 ^ (bits - 1))
      then strconv_ParseInt bits s = (z, None)
      else exists w,
          strconv_ParseInt bits s
          = (w, Some (NumError "ParseInt" s ErrRange))
  | None =>
      exists w e,
        strconv_ParseInt bits s = (w, Some (NumError "ParseInt" s e))
  end.
Proof.
  intros Hbits. destruct s as [|c rest]; [simpl; eauto|].
  unfold decimal_signed, strconv_ParseInt.
  destruct (Ascii.eqb c "+").
  - pose proof (ParseInt_after_sign bits false rest (String c rest) Hbits)
      as H.
    by destruct (decimal_unsigned rest).
  - destruct (Ascii.eqb c "-").
    + pose proof (ParseInt_after_sign bits true rest (String c rest) Hbits)
        as H.
      by destruct (decimal_unsigned rest).
    + pose proof (ParseInt_after_sign bits false (String c rest)
                    (String c rest) Hbits) as H.
      by destruct (decimal_unsigned (String c rest)).
Qed.

(** The conversion to a signed width keeps exactly the numbers of that
    width, and likewise for the unsigned widths. *)
Lemma to_signed_id (bits z : Z) :
  0 < bits ->
  to_signed bits z = z <-> - 2 ^ (bits - 1) <= z < 2 ^ (bits - 1).
Proof.
  intros Hbits. unfold to_signed.
  assert (Hpow : 2 ^ bits = 2 * 2 ^ (bits - 1)).
  { rewrite <- Z.pow_succ_r by lia. f_equal. lia. }
  assert (Hh : 0 < 2 ^ (bits - 1)) by (apply Z.pow_pos_nonneg; lia).
  rewrite Hpow. split.
  - intros H.
    assert (Hm : (z + 2 ^ (bits - 1)) mod (2 * 2 ^ (bits - 1))
                 = z + 2 ^ (bits - 1)) by lia.
    apply Z.mod_small_iff in Hm; lia.
  - intros H. rewrite Z.mod_small; lia.
Qed.

Lemma to_unsigned_id (bits z : Z) :
  0 <= bits -> to_unsigned bits z = z <-> 0 <= z < 2 ^ bits.
Proof.
  intros Hbits. unfold to_unsigned.
  assert (Hh : 0 < 2 ^ bits) by (apply Z.pow_pos_nonneg; lia).
  split.
  - intros H. apply Z.mod_small_iff in H; lia.
  - intros H. by apply Z.mod_small.
Qed.

Lemma bitSize_pos (k : reflect.Kind) : 0 < bitSize L k <= 64.
Proof. pose proof IntSize_range. destruct k; simpl; lia. Qed.

(** C6, as the code has it. A cell that is not empty and is bound to a
    settable field whose type, under its pointers, is of a signed kind is
    parsed by [strconv.ParseInt(s, 10, 0)] as an integer of
    [strconv.IntSize] bits, the size of an [int] on the platform:
    [unmarshal] returns the parse error, and leaves a field that is not a
    pointer as it is, when the text is not a decimal number with an
    optional sign or when the number does not fit [IntSize] bits. A number
    that fits is stored without any error, converted to the width of the
    field by [SetInt], and [unmarshal] goes on with the next bound column:
    the stored value is the number itself exactly when it fits the width of
    the field, and the number reduced modulo 2^width otherwise. The same
    holds for the unsigned kinds with [strconv.ParseUint] and [SetUint]. In
    the second revision the turn of the loop is the same for a field with
    one pointer at most. *)
Theorem integer_coercion (r : DecodeStruct) (rv rv1 : list (value L))
    (record : list string) (pre post : list nat) (j : nat)
    (c : csvFieldInfo) (fld : StructField) (f : value L)
    (k : reflect.Kind) (str pkg s : string) :
  foundCols r = pre ++ j :: post ->
  cols r !! j = Some c ->
  0 <= RecordIndex c ->
  record !! Z.to_nat (RecordIndex c) = Some s ->
  s <> EmptyString ->
  Fields (recordType r) !! StructFieldIndex c = Some fld ->
  rv1 !! StructFieldIndex c = Some f ->
  Exported fld = true ->
  base (Type_ fld) = Plain k str pkg ->
  (Rev1.unmarshal_loop L r rv record pre = (rv1, Nil) ->
   signed_kind k = true ->
     match decimal_signed s with
     | Some z =>
         if (- 2 ^ (IntSize L - 1) <=? z) && (z <? 2 ^ (IntSize L - 1)) then
           Rev1.unmarshal L r rv record
           = Rev1.unmarshal_loop L r
               (<[StructFieldIndex c :=
                    pointed L (Type_ fld)
                      (VInt (to_signed (bitSize L k) z))]> rv1)
               record post
         else
           Rev1.unmarshal L r rv record
           = (<[StructFieldIndex c := after_failure L (Type_ fld) f]> rv1,
              Err (NumError "ParseInt" s ErrRange))
     | None =>
         exists e,
           Rev1.unmarshal L r rv record
           = (<[StructFieldIndex c := after_failure L (Type_ fld) f]> rv1,
              Err (NumError "ParseInt" s e))
     end)
  /\ (Rev1.unmarshal_loop L r rv record pre = (rv1, Nil) ->
      unsigned_kind k = true ->
      match decimal_unsigned s with
      | Some z =>
          if z <? 2 ^ IntSize L then
            Rev1.unmarshal L r rv record
            = Rev1.unmarshal_loop L r
                (<[StructFieldIndex c :=
                     pointed L (Type_ fld)
                       (VUint (to_unsigned (bitSize L k) z))]> rv1)
                record post
          else
            Rev1.unmarshal L r rv record
            = (<[StructFieldIndex c := after_failure L (Type_ fld) f]> rv1,
               Err (NumError "ParseUint" s ErrRange))
      | None =>
          exists e,
            Rev1.unmarshal L r rv record
            = (<[StructFieldIndex c := after_failure L (Type_ fld) f]> rv1,
               Err (NumError "ParseUint" s e))
      end)
  /\ (Rev2.unmarshal_loop L r rv record pre = (rv1, Nil) ->
      shallow (Type_ fld) = true ->
      signed_kind k = true \/ unsigned_kind k = true ->
      Rev2.unmarshal_column L r rv1 record j
      = Rev1.unmarshal_column L r rv1 record j
      /\ Rev2.unmarshal L r rv record
         = match Rev1.unmarshal_column L r rv1 record j with
           | (rv2, Nil) => Rev2.unmarshal_loop L r rv2 record post
           | stop => stop
           end)
  /\ (IntSize L = 32 \/ IntSize L = 64)
  /\ (forall z, to_signed (bitSize L k) z = z
                <-> - 2 ^ (bitSize L k - 1) <= z < 2 ^ (bitSize L k - 1))
  /\ (forall z, to_unsigned (bitSize L k) z = z <-> 0 <= z < 2 ^ bitSize L k).
Proof.
  intros Hfound Hc Hidx Hs Hne Hfld Hf Hexp Hbase.
  assert (Hskip : negb (Required c) && (String.length s =? 0)%nat = false).
  { destruct s; [done|]. by rewrite andb_false_r. }
  pose proof (Rev1_column_settable L r rv1 record j c fld f s
                Hc Hidx Hs Hskip Hfld Hf Hexp) as Hcol.
  rewrite Hbase in Hcol.
  split; [|split; [|split; [|split; [|split]]]].
  - intros Hpre Hk.
    rewrite (Rev1_unmarshal_at L r rv rv1 record pre post j Hfound Hpre), Hcol.
    unfold after_failure.
    pose proof (ParseInt_spec (IntSize L) s IntSize_range) as H.
    destruct (decimal_signed s) as [z|].
    + destruct ((- 2 ^ (IntSize L - 1) <=? z) && (z <? 2 ^ (IntSize L - 1))).
      * destruct k; try done; cbn [Rev1.setField]; by rewrite H.
      * destruct H as [w H].
        destruct k; try done; cbn [Rev1.setField]; by rewrite H.
    + destruct H as (w & e & H). exists e.
      destruct k; try done; cbn [Rev1.setField]; by rewrite H.
  - intros Hpre Hk.
    rewrite (Rev1_unmarshal_at L r rv rv1 record pre post j Hfound Hpre), Hcol.
    unfold after_failure.
    pose proof (ParseUint_spec (IntSize L) s) as H.
    pose proof IntSize_range as Hsize. specialize (H ltac:(lia)).
    destruct (decimal_unsigned s) as [z|].
    + destruct (z <? 2 ^ IntSize L).
      * destruct k; try done; cbn [Rev1.setField]; by rewrite H.
      * destruct H as [w H].
        destruct k; try done; cbn [Rev1.setField]; by rewrite H.
    + destruct H as (w & e & H). exists e.
      destruct k; try done; cbn [Rev1.setField]; by rewrite H.
  - intros Hpre Hsh Hk.
    assert (Hsup : Rev1.isSupportedField (Type_ fld) = true).
    { rewrite Rev1_isSupportedField_base, Hbase.
      destruct Hk as [Hk|Hk]; by destruct k. }
    assert (Hgen : genuine (Type_ fld) = true).
    { unfold genuine. rewrite Hbase. destruct Hk as [Hk|Hk]; by destruct k. }
    assert (Heq : Rev2.unmarshal_column L r rv1 record j
                  = Rev1.unmarshal_column L r rv1 record j).
    { rewrite (Rev2_column_settable L r rv1 record j c fld f s) by done.
      by rewrite Hbase, Hcol. }
    split; [exact Heq|].
    by rewrite (Rev2_unmarshal_at L r rv rv1 record pre post j Hfound Hpre),
      Heq.
  - apply IntSize_platform.
  - intros z. apply to_signed_id, bitSize_pos.
  - intros z. apply to_unsigned_id. pose proof (bitSize_pos k). lia.
Qed.

End Integers.

(** ** Examples: the scenarios of the specification and of the tests *)

Example person_header_accepted :
  snd (ParseHeader std
         (decoder_of (Rev1.NewDecodeStruct std (OfPointer person) []))
         ["Name"; "Age"]) = None.
Proof. reflexivity. Qed.

Example person_row_decoded :
  Rev1.GetStruct std (decoder_for person ["Name"; "Age"]) ["Alice"; "30"]
  = (Some {| itype := person;
             ifields := [VString "Alice"; VInt 30; VFloat (0 : float64 std)] |},
     Nil).
Proof. reflexivity. Qed.

Example header_case_and_space :
  decoder_for Record_ ["Integer Field"; "String Field"; "Unsigned Integer Field";
                        "Boolean Field"; "Float Field"]
  = decoder_for Record_ [" integer field "; "STRING FIELD";
                         "Unsigned Integer Field"; "Boolean Field";
                         "Float Field"].
Proof. vm_compute. reflexivity. Qed.

Example Record_row_decoded :
  Rev1.GetStruct std (decoder_for Record_ Record_header)
    ["field 1"; "100"; "-30"; "-200"; "true"; "50"; "-10";
     "2017-10-09T12:30:30+07:00"]
  = (Some {| itype := Record_;
             ifields := [VString "field 1"; VInt (-30); VUint 100; VBool true;
                         VFloat ((-200) : float64 std);
                         VTime ("2017-10-09T12:30:30+07:00" : Time std);
                         VInt 50; VPtr (Some (VInt (-10)))] |},
     Nil).
Proof. reflexivity. Qed.

(** With an empty cell in the optional column OptionalIntField, the
    first revision decodes the row and leaves the field at zero. *)
Example Record_row_with_empty_cell :
  Rev1.GetStruct std (decoder_for Record_ Record_header) Record_row
  = (Some {| itype := Record_;
             ifields := [VString "field 1"; VInt (-30); VUint 100; VBool true;
                         VFloat ((-200) : float64 std);
                         VTime ("2017-10-09T12:30:30+07:00" : Time std);
                         VInt 0; VPtr (Some (VInt (-10)))] |},
     Nil).
Proof. reflexivity. Qed.

(** On a platform whose [int] has 32 bits, a number that fits the int64
    field and not an [int] is a range error. *)
Example int64_field_on_32_bits :
  Rev1.GetStruct std (decoder_for wide ["N"]) ["3000000000"]
  = (Some {| itype := wide; ifields := [VInt 3000000000] |}, Nil)
  /\ Rev1.GetStruct std32 (decoder_for wide ["N"]) ["3000000000"]
     = (None, Err (NumError "ParseInt" "3000000000" ErrRange)).
Proof. split; reflexivity. Qed.

(** Two descriptors with one column name are both bound to the cell: the
    row must then have two cells where the header has one. *)
Example bindings_not_header_width :
  foundCols (decoder_for same_column ["x"]) = [0%nat; 1%nat]
  /\ snd (Rev1.GetStruct std (decoder_for same_column ["x"]) ["v"])
     = Err row_shape_error.
Proof. split; reflexivity. Qed.

(** ** The theorems at concrete inputs *)

Lemma unknown_column_rejected_witness :
  snd (ParseHeader std
         (decoder_of (Rev1.NewDecodeStruct std (OfPointer person) []))
         ["Name"; "Age"; "Extra"])
  = Some (IncorrectFileErr
            ("Unexpected column " ++ ascii_Quote "Extra")%string).
Proof.
  destruct (unknown_column_rejected std
              (decoder_of (Rev1.NewDecodeStruct std (OfPointer person) []))
              ["Name"; "Age"; "Extra"] 2 "Extra" eq_refl eq_refl)
    as (j & first & _ & _ & _ & _ & Herr & _ & Hfirst).
  destruct Hfirst as [_ Heq].
  - repeat constructor.
  - rewrite Herr, Heq. reflexivity.
Defined.

Lemma missing_required_column_witness :
  snd (ParseHeader std
         (decoder_of (Rev1.NewDecodeStruct std (OfPointer person) []))
         ["Name"])
  = Some (IncorrectFileErr
            ("Mandatory column " ++ ascii_Quote "age" ++ " is missing")%string).
Proof.
  apply (proj1 (missing_required_column std
                  (decoder_of (Rev1.NewDecodeStruct std (OfPointer person) []))
                  ["Name"] ltac:(repeat constructor))).
Defined.

Lemma row_shape_checked_witness :
  snd (Rev1.UnmarshalCSV std (decoder_for person ["Name"; "Age"])
         ["Alice"] (New std person)) = Err row_shape_error.
Proof.
  apply (proj1 (row_shape_checked std
                  (decoder_of (Rev1.NewDecodeStruct std (OfPointer person) []))
                  (decoder_for person ["Name"; "Age"]) ["Name"; "Age"]
                  ["Alice"] (New std person) eq_refl)).
  simpl. lia.
Defined.

Lemma unsupported_type_panics_witness :
  exists r, Rev1.NewDecodeStruct std (OfStruct double_pointer) [] = Built r.
Proof.
  destruct (Rev1.NewDecodeStruct std (OfStruct double_pointer) [])
    as [r|msg] eqn:Hbuilt; [by exists r|].
  exfalso.
  destruct (proj1 (proj1 (unsupported_type_panics std (OfStruct double_pointer)
                            double_pointer [] eq_refl))
              (ex_intro _ msg Hbuilt)) as (f & Hin & Hsup).
  apply list_elem_of_singleton in Hin. subst f. discriminate.
Defined.

Lemma ignored_field_no_descriptor_witness :
  Forall (fun c => StructFieldIndex c <> 1%nat)
    (cols (decoder_of (Rev1.NewDecodeStruct std (OfStruct with_ignored) []))).
Proof.
  apply Forall_forall.
  apply (proj1 (ignored_field_no_descriptor std (OfStruct with_ignored)
                  with_ignored [] eq_refl)
           (decoder_of (Rev1.NewDecodeStruct std (OfStruct with_ignored) []))
           eq_refl 1%nat (field "B" t_int [("csv", "-")]) eq_refl eq_refl).
Defined.

Lemma unsettable_field_skipped_witness :
  Rev1.unmarshal_column std (decoder_for with_secret ["secret"; "Shown"])
    (ifields (New std with_secret)) ["not a number"; "text"] 0
  = (ifields (New std with_secret), Nil).
Proof.
  apply (proj2 (proj2 (unsettable_field_skipped std
                  (decoder_for with_secret ["secret"; "Shown"])
                  (ifields (New std with_secret)) ["not a number"; "text"] 0
                  {| Header := "secret"; Required := false; RecordIndex := 0;
                     StructFieldIndex := 0 |}
                  {| Name := "secret"; Type_ := t_int; Tag := [];
                     Exported := false |}
                  eq_refl eq_refl eq_refl))
           "not a number" (VInt 0) ltac:(simpl; lia) eq_refl eq_refl).
Defined.

Lemma first_failure_aborts_witness :
  Rev1.unmarshal std (decoder_for with_pointer ["A"; "P"])
    (ifields (New std with_pointer)) ["x"; "abc"]
  = ([VString "x"; VPtr (Some (VInt 0))],
     Err (NumError "ParseInt" "abc" ErrSyntax)).
Proof.
  apply (proj1 (first_failure_aborts std
                  (decoder_for with_pointer ["A"; "P"])
                  (ifields (New std with_pointer))
                  [VString "x"; VPtr None]
                  [VString "x"; VPtr (Some (VInt 0))]
                  ["x"; "abc"] [0%nat] [] 1
                  (NumError "ParseInt" "abc" ErrSyntax)
                  eq_refl eq_refl eq_refl)).
Defined.

Lemma empty_cell_decoding_witness :
  Rev1.unmarshal std (decoder_for Record_ Record_header)
    (ifields (New std Record_)) Record_row
  = Rev1.unmarshal_loop std (decoder_for Record_ Record_header)
      [VString "field 1"; VInt (-30); VUint 100; VBool true;
       VFloat ((-200) : float64 std); VTime (Time_zero std); VInt 0;
       VPtr None]
      Record_row [7%nat; 5%nat].
Proof.
  apply (proj1 (proj1 (empty_cell_decoding std
                         (decoder_for Record_ Record_header)
                         (ifields (New std Record_))
                         [VString "field 1"; VInt (-30); VUint 100;
                          VBool true; VFloat ((-200) : float64 std);
                          VTime (Time_zero std); VInt 0; VPtr None]
                         Record_row
                         [0%nat; 2%nat; 1%nat; 4%nat; 3%nat]
                         [7%nat; 5%nat] 6
                         {| Header := "optionalintfield"; Required := false;
                            RecordIndex := 5; StructFieldIndex := 6 |}
                         eq_refl eq_refl ltac:(simpl; lia) eq_refl)
                 eq_refl eq_refl)).
Defined.

Lemma integer_coercion_witness :
  Rev1.unmarshal std (decoder_for tiny ["N"]) (ifields (New std tiny)) ["127"]
  = ([VInt 127], Nil).
Proof.
  apply (proj1 (integer_coercion std (decoder_for tiny ["N"])
                  (ifields (New std tiny)) (ifields (New std tiny)) ["127"]
                  [] [] 0
                  {| Header := "n"; Required := false; RecordIndex := 0;
                     StructFieldIndex := 0 |}
                  (field "N" t_int8 []) (VInt 0) reflect.Int8 "int8" "" "127"
                  eq_refl eq_refl ltac:(simpl; lia) eq_refl
                  ltac:(discriminate) eq_refl eq_refl eq_refl eq_refl)
           eq_refl eq_refl).
Defined.

(** ** Where the code departs from the specification *)

(** C3. With the empty time format, the empty cell of the required
    [time.Time] column is decoded without any failure: the field holds the
    time that [time.Parse] makes of the empty text. In the second revision,
    the empty cell of the optional column OptionalIntField is not skipped:
    the row that the first revision decodes is rejected with the error of
    the parser. *)
Lemma empty_cells_not_as_specified :
  (Forall (fun c => Required c = true) (cols stamped_decoder)
   /\ foundCols stamped_decoder = [0%nat]
   /\ timeFormat stamped_decoder = EmptyString
   /\ Rev1.GetStruct std stamped_decoder [EmptyString]
      = (Some {| itype := stamped;
                 ifields := [VTime ("0000-01-01T00:00:00Z" : Time std)] |},
         Nil))
  /\ (cols (decoder_for Record_ Record_header) !! 6%nat
      = Some {| Header := "optionalintfield"; Required := false;
                RecordIndex := 5; StructFieldIndex := 6 |}
      /\ Record_row !! 5%nat = Some EmptyString
      /\ snd (Rev1.GetStruct std (decoder_for Record_ Record_header)
                Record_row) = Nil
      /\ Rev2.GetStruct std (decoder_for Record_ Record_header) Record_row
         = (None, Err (NumError "ParseInt" EmptyString ErrSyntax))).
Proof.
  split; [split; [repeat constructor|]|]; repeat split; reflexivity.
Qed.

(** C6. The number 300 does not fit an int8, and the row is decoded
    without any error: the field holds 300 - 256. *)
Lemma int8_out_of_range_stored :
  ~ (- 2 ^ 7 <= 300 < 2 ^ 7)
  /\ Rev1.GetStruct std (decoder_for tiny ["N"]) ["300"]
     = (Some {| itype := tiny; ifields := [VInt 44] |}, Nil)
  /\ Rev2.GetStruct std (decoder_for tiny ["N"]) ["300"]
     = (Some {| itype := tiny; ifields := [VInt 44] |}, Nil).
Proof. split; [lia|]. split; reflexivity. Qed.

(** C7. The field of [struct { P **int }] is not ignored and its type is
    still a pointer after one pointer is removed, and building does not
    panic. *)
Lemma double_pointer_accepted :
  ~ ((exists msg,
        Rev1.NewDecodeStruct std (OfStruct double_pointer) [] = BuildPanic msg)
     <-> exists f, f ∈ Fields double_pointer
                   /\ ignored defaultCSVTagName f = false
                   /\ supported_kind (unwrap_one (Type_ f)) = false).
Proof.
  intros [_ Hpanic].
  destruct Hpanic as [msg Hmsg]; [|discriminate].
  exists (field "P" (Pointer (Pointer t_int)) []).
  split; [by constructor|]. split; reflexivity.
Qed.

(** C8. The parse of the cell of the pointer field [P] fails, and [P],
    which was nil, points to a new zero value afterwards. *)
Lemma failing_pointer_field_overwritten :
  ifields (New std with_pointer) = [VString ""; VPtr None]
  /\ Rev1.UnmarshalCSV std (decoder_for with_pointer ["A"; "P"])
       ["x"; "abc"] (New std with_pointer)
     = ({| itype := with_pointer;
           ifields := [VString "x"; VPtr (Some (VInt 0))] |},
        Err (NumError "ParseInt" "abc" ErrSyntax)).
Proof. split; reflexivity. Qed.

(** C9. Every field of the struct is ignored, and building panics on the
    type of the ignored field. *)
Lemma ignored_unsupported_field_panics :
  Forall (fun f => ignored defaultCSVTagName f = true) (Fields ignored_map)
  /\ Rev1.NewDecodeStruct std (OfStruct ignored_map) []
     = BuildPanic (unsupported_type "map[string]string").
Proof. split; [repeat constructor|reflexivity]. Qed.

(** * Further properties of the code *)

(** ** Indices stay in range: decoding does not panic *)

Section Safety.
Variable L : GoStd.

Lemma matching_from_elem (col : string) (cs : list csvFieldInfo) :
  forall (j j' : nat),
    j' ∈ matching_from col j cs ->
    (j <= j')%nat
    /\ exists c, cs !! (j' - j)%nat = Some c /\ matches col c = true.
Proof.
  induction cs as [|f rest IH]; intros j j' Hin; simpl in Hin.
  - by apply elem_of_nil in Hin.
  - assert (Hrest : j' ∈ matching_from col (S j) rest ->
              (j <= j')%nat
              /\ exists c, (f :: rest) !! (j' - j)%nat = Some c
                           /\ matches col c = true).
    { intros H. destruct (IH _ _ H) as (Hle & c & Hc & Hm).
      split; [lia|]. exists c. split; [|done].
      replace (j' - j)%nat with (S (j' - S j)) by lia. done. }
    destruct (matches col f) eqn:Hf; [|auto].
    apply elem_of_cons in Hin as [->|Hin]; [|auto].
    split; [lia|]. exists f. by rewrite Nat.sub_diag.
Qed.

Lemma matching_from_known (col : string) (cs : list csvFieldInfo) :
  forall j, existsb (matches col) cs = true -> matching_from col j cs <> [].
Proof.
  induction cs as [|f rest IH]; intros j; simpl; [done|].
  destruct (matches col f); [done|]. simpl. apply IH.
Qed.

Lemma bound_below_mono (r : DecodeStruct) (n m : nat) :
  (n <= m)%nat -> bound_below r n -> bound_below r m.
Proof.
  intros Hle Hb. unfold bound_below. eapply Forall_impl; [exact Hb|].
  intros j (c & Hc & Hidx). exists c. split; [done|lia].
Qed.

(** One known cell keeps the pointers valid, below the next position. *)
Lemma bound_below_step (r : DecodeStruct) (i : nat) (col : string) :
  bound_below r i ->
  bound_below
    (with_binding r (map (bind_one (Z.of_nat i) col) (cols r))
       (foundCols r ++ matching_from col 0 (cols r)))
    (S i).
Proof.
  intros Hb. unfold bound_below. simpl. apply Forall_app. split.
  - eapply Forall_impl; [exact Hb|]. intros j (c & Hc & Hidx). simpl.
    exists (bind_one (Z.of_nat i) col c).
    split; [by rewrite list_lookup_fmap, Hc|].
    unfold bind_one. destruct (matches col c); simpl; lia.
  - apply Forall_forall. intros j Hj.
    destruct (matching_from_elem col (cols r) 0 j Hj) as (_ & c & Hc & Hm).
    rewrite Nat.sub_0_r in Hc.
    exists (bind_one (Z.of_nat i) col c).
    split; [by rewrite list_lookup_fmap, Hc|].
    unfold bind_one. rewrite Hm. simpl. lia.
Qed.

Lemma scan_bound (header : list string) :
  forall (r : DecodeStruct) (i : nat),
    bound_below r i ->
    (i <= length (foundCols r))%nat ->
    bound_below (fst (ParseHeader_scan L r i header))
      (length (foundCols (fst (ParseHeader_scan L r i header)))).
Proof.
  induction header as [|cell rest IH]; intros r i Hb Hle.
  - simpl. by apply (bound_below_mono r i).
  - rewrite scan_cons. simpl.
    pose proof (bound_below_step r i (normalize L cell) Hb) as Hstep.
    destruct (known r (normalize L cell)) eqn:Hk.
    + apply IH; [exact Hstep|]. simpl. rewrite length_app.
      pose proof (matching_from_known (normalize L cell) (cols r) 0 Hk) as Hne.
      destruct (matching_from (normalize L cell) 0 (cols r)); [done|].
      simpl. lia.
    + simpl. unfold known in Hk.
      rewrite (matching_from_none _ _ 0 Hk), app_nil_r.
      rewrite (bind_one_id _ _ _ Hk).
      apply (bound_below_mono _ i); [done|]. exact Hb.
Qed.

Lemma ParseHeader_bound (r : DecodeStruct) (header : list string) :
  bound_below (fst (ParseHeader L r header))
    (length (foundCols (fst (ParseHeader L r header)))).
Proof.
  unfold ParseHeader.
  pose proof (scan_bound header (reset r) 0) as H.
  destruct (ParseHeader_scan L (reset r) 0 header) as [r' [e|]]; simpl in *;
    apply H; try (by constructor); lia.
Qed.

Lemma fields_in_range_reset (r : DecodeStruct) :
  fields_in_range (reset r) <-> fields_in_range r.
Proof. unfold fields_in_range, reset. simpl. by rewrite Forall_map. Qed.

Lemma fields_in_range_ParseHeader (r : DecodeStruct) (header : list string) :
  fields_in_range r -> fields_in_range (fst (ParseHeader L r header)).
Proof.
  intros H. apply fields_in_range_reset.
  rewrite reset_ParseHeader. by apply fields_in_range_reset.
Qed.

Lemma recordType_ParseHeader (r : DecodeStruct) (header : list string) :
  recordType (fst (ParseHeader L r header)) = recordType r.
Proof.
  change (recordType (reset (fst (ParseHeader L r header)))
          = recordType (reset r)).
  by rewrite reset_ParseHeader.
Qed.

Lemma descriptors_in_range (reader : DecodeStruct) (fs : list StructField) :
  Forall (fun c => (StructFieldIndex c < length fs)%nat)
    (descriptors L reader 0 fs).
Proof.
  apply Forall_forall. intros c Hc.
  destruct (descriptors_elem L reader fs 0 c Hc) as (k & f & Hk & -> & _).
  apply lookup_lt_Some in Hk. simpl. lia.
Qed.

Lemma Rev1_built_in_range (v : shape) (rt : StructType) (opts : list option_)
    (r : DecodeStruct) :
  struct_of v = Some rt ->
  Rev1.NewDecodeStruct L v opts = Built r ->
  fields_in_range r /\ foundCols r = [] /\ recordType r = rt.
Proof.
  intros Hv Hb.
  destruct (Rev1_built L v rt opts r Hv Hb)
    as (reader & _ & Hcols & Hfound & Htype & _).
  split; [|done]. unfold fields_in_range. rewrite Hcols, Htype.
  apply descriptors_in_range.
Qed.

(** On a field whose type is not a struct of another package that prints
    as time.Time, [setField] does not panic. *)
Lemma Rev1_setField_safe (r : DecodeStruct) (t : rtype) (s : string)
    (f : value L) (msg : string) :
  genuine t = true ->
  snd (Rev1.setField L r t f s) <> Panic msg.
Proof.
  intros Hgen. rewrite Rev1_setField_base. cbn [snd].
  unfold genuine in Hgen.
  destruct (base_plain t) as (k & str & pkg & Hbase). rewrite Hbase in *.
  cbn [Rev1.setField]. destruct k; try done.
  - by destruct (strconv_ParseBool s).
  - by destruct (strconv_ParseInt _ s) as [? [?|]].
  - by destruct (strconv_ParseInt _ s) as [? [?|]].
  - by destruct (strconv_ParseInt _ s) as [? [?|]].
  - by destruct (strconv_ParseInt _ s) as [? [?|]].
  - by destruct (strconv_ParseInt _ s) as [? [?|]].
  - by destruct (strconv_ParseUint _ s) as [? [?|]].
  - by destruct (strconv_ParseUint _ s) as [? [?|]].
  - by destruct (strconv_ParseUint _ s) as [? [?|]].
  - by destruct (strconv_ParseUint _ s) as [? [?|]].
  - by destruct (strconv_ParseUint _ s) as [? [?|]].
  - by destruct (strconv_ParseFloat L s).
  - by destruct (strconv_ParseFloat L s).
  - destruct (String.eqb_spec str "time.Time") as [->|]; [|done].
    simpl in Hgen. apply String.eqb_eq in Hgen. subst pkg. simpl.
    by destruct (time_Parse L (timeFormat r) s).
Qed.

(** A turn of the loop on a pointer that leads to a descriptor bound
    inside the row does not panic and keeps the number of fields. *)
Lemma Rev1_column_safe (r : DecodeStruct) (rv : list (value L))
    (record : list string) (j : nat) :
  fields_in_range r ->
  Forall (fun fld => genuine (Type_ fld) = true) (Fields (recordType r)) ->
  length rv = length (Fields (recordType r)) ->
  (exists c, cols r !! j = Some c
             /\ 0 <= RecordIndex c < Z.of_nat (length record)) ->
  (forall msg, snd (Rev1.unmarshal_column L r rv record j) <> Panic msg)
  /\ length (fst (Rev1.unmarshal_column L r rv record j)) = length rv.
Proof.
  intros Hrange Hgen Hlen (c & Hc & Hidx). unfold Rev1.unmarshal_column.
  rewrite Hc. destruct (Z.ltb_spec (RecordIndex c) 0); [lia|].
  destruct (record !! Z.to_nat (RecordIndex c)) as [s|] eqn:Hs.
  2: { apply lookup_ge_None in Hs. lia. }
  destruct (negb (Required c) && _); [done|].
  assert (Hsfi : (StructFieldIndex c < length (Fields (recordType r)))%nat).
  { unfold fields_in_range in Hrange. rewrite Forall_forall in Hrange.
    apply Hrange. by eapply list_elem_of_lookup_2. }
  destruct (Fields (recordType r) !! StructFieldIndex c) as [fld|] eqn:Hfld.
  2: { apply lookup_ge_None in Hfld. lia. }
  destruct (rv !! StructFieldIndex c) as [f|] eqn:Hf.
  2: { apply lookup_ge_None in Hf. lia. }
  destruct (Exported fld); [|done].
  assert (Hg : genuine (Type_ fld) = true).
  { rewrite Forall_forall in Hgen. apply Hgen.
    by eapply list_elem_of_lookup_2. }
  pose proof (fun msg => Rev1_setField_safe r (Type_ fld) s f msg Hg) as Hnp.
  destruct (Rev1.setField L r (Type_ fld) f s) as [f' res]; simpl in *.
  split; [done|]. by rewrite length_insert.
Qed.

Lemma Rev1_loop_safe (r : DecodeStruct) (record : list string)
    (fc : list nat) :
  fields_in_range r ->
  Forall (fun fld => genuine (Type_ fld) = true) (Fields (recordType r)) ->
  Forall (fun j => exists c,
              cols r !! j = Some c
              /\ 0 <= RecordIndex c < Z.of_nat (length record)) fc ->
  forall rv : list (value L),
    length rv = length (Fields (recordType r)) ->
    (forall msg, snd (Rev1.unmarshal_loop L r rv record fc) <> Panic msg)
    /\ length (fst (Rev1.unmarshal_loop L r rv record fc)) = length rv.
Proof.
  intros Hrange Hgen Hfc.
  induction Hfc as [|j fc Hj Hfc IH]; intros rv Hlen; simpl; [done|].
  destruct (Rev1_column_safe r rv record j Hrange Hgen Hlen Hj) as [Hnp Hl].
  destruct (Rev1.unmarshal_column L r rv record j) as [rv1 [|e|msg]];
    simpl in *.
  - destruct (IH rv1) as [Hnp' Hl']; [lia|]. split; [done|lia].
  - done.
  - by destruct (Hnp msg).
Qed.

(** The state in which [UnmarshalCSV] cannot panic. *)
Lemma UnmarshalCSV_safe (r : DecodeStruct) (record : list string)
    (target : instance L) :
  fields_in_range r ->
  Forall (fun fld => genuine (Type_ fld) = true) (Fields (recordType r)) ->
  bound_below r (length (foundCols r)) ->
  length (ifields target) = length (Fields (itype target)) ->
  forall msg, snd (Rev1.UnmarshalCSV L r record target) <> Panic msg.
Proof.
  intros Hrange Hgen Hbound Hlen.
  unfold Rev1.UnmarshalCSV.
  destruct (Nat.eqb_spec (length record) (length (foundCols r)))
    as [Heq|]; simpl; [|done].
  destruct (bool_decide_reflect (itype target = recordType r)) as [Ht|];
    simpl; [|done].
  rewrite <- Heq in Hbound. rewrite Ht in Hlen.
  unfold Rev1.unmarshal.
  destruct (Rev1_loop_safe r record (foundCols r) Hrange Hgen Hbound
              (ifields target) Hlen) as [Hnp _].
  by destruct (Rev1.unmarshal_loop L r (ifields target) record (foundCols r)).
Qed.

Lemma New_length (t : StructType) :
  length (ifields (New L t)) = length (Fields (itype (New L t))).
Proof. unfold New. simpl. by rewrite length_map. Qed.

(** X1. For a decoder that [NewDecodeStruct] returned for a struct none
    of whose fields is of a struct type of another package that prints as
    time.Time, [UnmarshalCSV] on a pointer that is not nil to a struct
    variable and [GetStruct] never panic, whatever the header given to [ParseHeader]
    (accepted or not) and whatever the row: every pointer of [foundCols]
    leads to a descriptor whose [RecordIndex] is inside a row of the
    accepted length, every [StructFieldIndex] is a field of the struct, and
    every value that [setField] stores is assignable to its field. Before
    any [ParseHeader] they do not panic either. First revision. *)
Theorem decoding_never_panics (v : shape) (rt : StructType)
    (opts : list option_) (r0 : DecodeStruct) (header record : list string)
    (target : instance L) :
  struct_of v = Some rt ->
  Forall (fun fld => genuine (Type_ fld) = true) (Fields rt) ->
  Rev1.NewDecodeStruct L v opts = Built r0 ->
  length (ifields target) = length (Fields (itype target)) ->
  (forall msg,
     snd (Rev1.UnmarshalCSV L (fst (ParseHeader L r0 header)) record target)
     <> Panic msg)
  /\ (forall msg,
        snd (Rev1.GetStruct L (fst (ParseHeader L r0 header)) record)
        <> Panic msg)
  /\ (forall msg, snd (Rev1.UnmarshalCSV L r0 record target) <> Panic msg)
  /\ (forall msg, snd (Rev1.GetStruct L r0 record) <> Panic msg).
Proof.
  intros Hv Hgen Hb Hlen.
  destruct (Rev1_built_in_range v rt opts r0 Hv Hb) as (Hrange & Hfound & _).
  destruct (Rev1_built L v rt opts r0 Hv Hb) as (_ & _ & _ & _ & Htype & _).
  pose proof (fields_in_range_ParseHeader r0 header Hrange) as Hrange'.
  pose proof (ParseHeader_bound r0 header) as Hbound'.
  pose proof (recordType_ParseHeader r0 header) as Htype'.
  assert (Hgen0 : Forall (fun fld => genuine (Type_ fld) = true)
                    (Fields (recordType r0))) by (by rewrite Htype).
  assert (Hgen' : Forall (fun fld => genuine (Type_ fld) = true)
                    (Fields (recordType (fst (ParseHeader L r0 header)))))
    by (by rewrite Htype').
  assert (Hbound : bound_below r0 (length (foundCols r0))).
  { unfold bound_below. rewrite Hfound. constructor. }
  assert (Hget : forall r, fields_in_range r ->
            Forall (fun fld => genuine (Type_ fld) = true)
              (Fields (recordType r)) ->
            bound_below r (length (foundCols r)) ->
            forall msg, snd (Rev1.GetStruct L r record) <> Panic msg).
  { intros r Hr Hg Hbd msg. unfold Rev1.GetStruct.
    pose proof (UnmarshalCSV_safe r record (New L (recordType r))
                  Hr Hg Hbd (New_length _)) as Hnp.
    destruct (Rev1.UnmarshalCSV L r record (New L (recordType r)))
      as [v' [|e|m]]; simpl in *; [done|done|].
    intros [= <-]. by apply (Hnp m). }
  split; [|split; [|split]].
  - by apply UnmarshalCSV_safe.
  - by apply Hget.
  - by apply UnmarshalCSV_safe.
  - by apply Hget.
Qed.

End Safety.

(** ** More on header reconciliation *)

Section Reconciliation.
Variable L : GoStd.

(** The result of [ParseHeader] on a header whose cells are all known. *)
Lemma ParseHeader_known (r : DecodeStruct) (header : list string) :
  Forall (fun cell => known r (normalize L cell) = true) header ->
  ParseHeader L r header
  = (with_binding r (map (bind_all L 0 header) (map unbind (cols r)))
       (bindings L (cols r) header),
     match find (missing L header) (cols r) with
     | Some f => Some (mandatory_missing L f)
     | None => None
     end).
Proof.
  intros Hall. unfold ParseHeader.
  destruct (scan_known L header (reset r) 0) as (r' & Hscan & Hcols).
  { eapply Forall_impl; [exact Hall|]. intros c Hc. simpl in Hc.
    by rewrite known_reset. }
  rewrite Hscan.
  pose proof (scan_foundCols L header (reset r) 0 r' Hscan) as Hfound.
  simpl in Hfound, Hcols. fold unbind in Hfound, Hcols.
  rewrite bindings_map in Hfound by done.
  rewrite Hcols, required_after_scan. f_equal.
  pose proof (reset_scan L header (reset r) 0) as Hreset.
  rewrite Hscan in Hreset. simpl in Hreset.
  assert (recordType r' = recordType r /\ timeFormat r' = timeFormat r
          /\ csvTagName r' = csvTagName r
          /\ csvTagFieldSep r' = csvTagFieldSep r) as (Ht & Hf & Hn & Hs).
  { change (recordType (reset r') = recordType (reset (reset r))
            /\ timeFormat (reset r') = timeFormat (reset (reset r))
            /\ csvTagName (reset r') = csvTagName (reset (reset r))
            /\ csvTagFieldSep (reset r') = csvTagFieldSep (reset (reset r))).
    by rewrite Hreset. }
  destruct r'. simpl in *. unfold with_binding. simpl. by subst.
Qed.

Lemma unknown_or_all_known (r : DecodeStruct) (header : list string) :
  Forall (fun cell => known r (normalize L cell) = true) header
  \/ exists pre cell post,
       header = pre ++ cell :: post
       /\ Forall (fun c => known r (normalize L c) = true) pre
       /\ known r (normalize L cell) = false.
Proof.
  induction header as [|c rest IH]; [left; constructor|].
  destruct (known r (normalize L c)) eqn:Hc.
  - destruct IH as [Hall|(pre & cell & post & -> & Hpre & Hcell)].
    + left. by constructor.
    + right. exists (c :: pre), cell, post. repeat split; auto.
  - right. exists [], c, rest. repeat split; auto.
Qed.

Lemma accepted_iff (r : DecodeStruct) (header : list string) :
  snd (ParseHeader L r header) = None
  <-> Forall (fun cell => known r (normalize L cell) = true) header
      /\ Forall (fun f => missing L header f = false) (cols r).
Proof.
  split.
  - intros Hnil.
    destruct (unknown_or_all_known r header)
      as [Hall|(pre & cell & post & -> & Hpre & Hcell)].
    + split; [done|]. rewrite (ParseHeader_known r header Hall) in Hnil.
      simpl in Hnil.
      destruct (find (missing L header) (cols r)) eqn:Hfind; [done|].
      apply Forall_forall. intros f Hf. apply list_elem_of_In in Hf.
      apply (find_none _ _ Hfind f Hf).
    + destruct (ParseHeader_stops L r pre post cell Hpre Hcell) as [Herr _].
      congruence.
  - intros [Hall Hmiss]. rewrite (ParseHeader_known r header Hall). simpl.
    destruct (find (missing L header) (cols r)) as [f|] eqn:Hfind; [|done].
    apply find_some in Hfind as [Hin Hm].
    rewrite Forall_forall in Hmiss.
    rewrite (Hmiss f) in Hm; [done|by apply list_elem_of_In].
Qed.

(** X2. [ParseHeader] returns nil exactly when every cell of the header,
    trimmed and lower-cased, is the column name of some descriptor and
    every required descriptor is matched by some cell. *)
Theorem ParseHeader_accepts_iff (r : DecodeStruct) (header : list string) :
  snd (ParseHeader L r header) = None
  <-> Forall (fun cell => known r (normalize L cell) = true) header
      /\ Forall (fun f => missing L header f = false) (cols r).
Proof. apply accepted_iff. Qed.

(** X3. [ParseHeader] returns no error other than the two of errors.go:
    the error names, quoted, a cell of the header that no descriptor
    matches, or the column name of a required descriptor that no cell
    matches. *)
Theorem ParseHeader_errors (r : DecodeStruct) (header : list string)
    (e : error) :
  snd (ParseHeader L r header) = Some e ->
  (exists cell,
     cell ∈ header /\ known r (normalize L cell) = false
     /\ e = NewIncorrectFileErr
             ("Unexpected column " ++ strconv_Quote L cell)%string)
  \/ (exists f,
        f ∈ cols r /\ Required f = true
        /\ (forall cell, cell ∈ header -> Header f <> normalize L cell)
        /\ e = NewIncorrectFileErr
                ("Mandatory column " ++ strconv_Quote L (Header f)
                 ++ " is missing")%string).
Proof.
  intros Herr.
  destruct (unknown_or_all_known r header)
    as [Hall|(pre & cell & post & -> & Hpre & Hcell)].
  - right. rewrite (ParseHeader_known r header Hall) in Herr. simpl in Herr.
    destruct (find (missing L header) (cols r)) as [f|] eqn:Hfind; [|done].
    injection Herr as <-. apply find_some in Hfind as [Hin Hm].
    exists f. split; [by apply list_elem_of_In|].
    unfold missing in Hm. apply andb_true_iff in Hm as [Hreq Hno].
    split; [done|]. split; [|done].
    intros cell Hcell Heq. apply negb_true_iff in Hno.
    assert (existsb (fun c => matches (normalize L c) f) header = true)
      as Hex; [|congruence].
    apply existsb_exists. exists cell. split; [by apply list_elem_of_In|].
    unfold matches. by apply String.eqb_eq.
  - left. destruct (ParseHeader_stops L r pre post cell Hpre Hcell) as [He _].
    rewrite He in Herr. injection Herr as <-.
    exists cell. split; [|done].
    apply elem_of_app. right. by constructor.
Qed.

Lemma last_position_bind_one (i : Z) (col : string) (f : csvFieldInfo)
    (header : list string) :
  forall k, last_position L (bind_one i col f) k header
            = last_position L f k header.
Proof.
  induction header as [|cell rest IH]; intros k; simpl; [done|].
  by rewrite IH, matches_bind_one.
Qed.

Lemma RecordIndex_last_position (header : list string) :
  forall (i : nat) (f : csvFieldInfo),
    RecordIndex (bind_all L i header f)
    = match last_position L f i header with
      | Some k => Z.of_nat k
      | None => RecordIndex f
      end.
Proof.
  induction header as [|cell rest IH]; intros i f; simpl; [done|].
  rewrite IH, last_position_bind_one.
  destruct (last_position L f (S i) rest); [done|].
  unfold bind_one. by destruct (matches (normalize L cell) f).
Qed.

Lemma last_position_spec (f : csvFieldInfo) (header : list string) :
  forall i,
    match last_position L f i header with
    | Some k =>
        (i <= k)%nat
        /\ (exists cell, header !! (k - i)%nat = Some cell
                         /\ Header f = normalize L cell)
        /\ forall k' cell, (k - i < k')%nat -> header !! k' = Some cell ->
                           Header f <> normalize L cell
    | None => forall cell, cell ∈ header -> Header f <> normalize L cell
    end.
Proof.
  induction header as [|c rest IH]; intros i; simpl.
  - intros cell Hin. by apply elem_of_nil in Hin.
  - specialize (IH (S i)).
    destruct (last_position L f (S i) rest) as [k|].
    + destruct IH as (Hle & (cell & Hk & Hm) & Hlast).
      split; [lia|]. split.
      * exists cell. split; [|done].
        replace (k - i)%nat with (S (k - S i)) by lia. done.
      * intros k' cell' Hk' Hcell'. destruct k' as [|k']; [lia|].
        simpl in Hcell'. apply (Hlast k' cell'); [lia|done].
    + unfold matches. destruct (String.eqb_spec (Header f) (normalize L c))
        as [Heq|Hne].
      * split; [lia|]. split.
        -- exists c. by rewrite Nat.sub_diag.
        -- intros k' cell' Hk' Hcell'. destruct k' as [|k']; [lia|].
           simpl in Hcell'. apply IH. by eapply list_elem_of_lookup_2.
      * intros cell Hin. apply elem_of_cons in Hin as [->|Hin]; auto.
Qed.

(** X4. On a header whose cells are all known, [ParseHeader] binds every
    descriptor to the position of the last cell that matches it, and
    leaves -1 in the descriptors that no cell matches: a column name that
    occurs twice in the header is not rejected, and the later cell wins. *)
Theorem ParseHeader_binds_last (r : DecodeStruct) (header : list string)
    (j : nat) (f : csvFieldInfo) :
  Forall (fun cell => known r (normalize L cell) = true) header ->
  cols r !! j = Some f ->
  exists f',
    cols (fst (ParseHeader L r header)) !! j = Some f'
    /\ Header f' = Header f /\ Required f' = Required f
    /\ StructFieldIndex f' = StructFieldIndex f
    /\ match last_position L f 0 header with
       | Some k =>
           RecordIndex f' = Z.of_nat k
           /\ (exists cell, header !! k = Some cell
                            /\ Header f = normalize L cell)
           /\ forall k' cell, (k < k')%nat -> header !! k' = Some cell ->
                              Header f <> normalize L cell
       | None =>
           RecordIndex f' = -1
           /\ forall cell, cell ∈ header -> Header f <> normalize L cell
       end.
Proof.
  intros Hall Hj. rewrite (ParseHeader_known r header Hall). simpl.
  exists (bind_all L 0 header (unbind f)).
  split; [by rewrite !list_lookup_fmap, Hj|].
  destruct (Header_bind_all L header 0 (unbind f)) as (-> & -> & ->).
  repeat split; [done..|].
  rewrite RecordIndex_last_position.
  assert (Hlp : last_position L (unbind f) 0 header
                = last_position L f 0 header).
  { clear. generalize 0%nat.
    induction header as [|c rest IH]; intros i; simpl; [done|].
    by rewrite IH. }
  rewrite Hlp. pose proof (last_position_spec f header 0) as Hspec.
  destruct (last_position L f 0 header) as [k|].
  - destruct Hspec as (_ & Hcell & Hlast). rewrite Nat.sub_0_r in *.
    split; [done|]. split; [done|].
    intros k' cell Hk'. apply Hlast. lia.
  - done.
Qed.

(** X5. [ParseHeader] changes the bindings only: the names, the required
    flags and the field indices of the descriptors, their number and
    order, the struct type and the configuration of the decoder are after
    the call what they were before, whether the header is accepted or
    not. *)
Theorem ParseHeader_keeps_schema (r : DecodeStruct) (header : list string) :
  map Header (cols (fst (ParseHeader L r header))) = map Header (cols r)
  /\ map Required (cols (fst (ParseHeader L r header)))
     = map Required (cols r)
  /\ map StructFieldIndex (cols (fst (ParseHeader L r header)))
     = map StructFieldIndex (cols r)
  /\ recordType (fst (ParseHeader L r header)) = recordType r
  /\ timeFormat (fst (ParseHeader L r header)) = timeFormat r
  /\ csvTagName (fst (ParseHeader L r header)) = csvTagName r
  /\ csvTagFieldSep (fst (ParseHeader L r header)) = csvTagFieldSep r.
Proof.
  pose proof (reset_ParseHeader L r header) as Hreset.
  set (r' := fst (ParseHeader L r header)) in *.
  assert (Hcols : map unbind (cols r') = map unbind (cols r)).
  { change (cols (reset r') = cols (reset r)). by rewrite Hreset. }
  assert (Hmap : forall (A : Type) (g : csvFieldInfo -> A),
            (forall f, g (unbind f) = g f) ->
            map g (cols r') = map g (cols r)).
  { intros A g Hg. transitivity (map g (map unbind (cols r'))).
    - rewrite map_map. apply map_ext. intros f. by rewrite Hg.
    - rewrite Hcols, map_map. apply map_ext, Hg. }
  repeat split.
  - by apply Hmap.
  - by apply Hmap.
  - by apply Hmap.
  - change (recordType (reset r') = recordType (reset r)). by rewrite Hreset.
  - change (timeFormat (reset r') = timeFormat (reset r)). by rewrite Hreset.
  - change (csvTagName (reset r') = csvTagName (reset r)). by rewrite Hreset.
  - change (csvTagFieldSep (reset r') = csvTagFieldSep (reset r)).
    by rewrite Hreset.
Qed.

Lemma flat_map_width {A B : Type} (m : A -> list B) (l : list A) :
  Forall (fun x => (1 <= length (m x))%nat) l ->
  (length l <= length (flat_map m l))%nat
  /\ (length (flat_map m l) = length l
      <-> Forall (fun x => length (m x) = 1%nat) l).
Proof.
  induction 1 as [|x l Hx Hl [IHle IHeq]]; simpl.
  - split; [lia|]. split; [constructor|done].
  - rewrite length_app. split; [lia|]. split.
    + intros Hlen. constructor; [lia|]. apply IHeq. lia.
    + intros Hall. inversion Hall as [|? ? H1 Hrest]; subst.
      apply IHeq in Hrest. lia.
Qed.

(** X6. After an accepted header, [foundCols] holds one pointer for every
    pair of a header cell and a descriptor that matches it, so it is at
    least as long as the header, and as long as the header exactly when
    every cell is matched by one descriptor only. When two descriptors
    share the column name of some cell, [UnmarshalCSV] therefore rejects
    every row that has one cell per header cell. *)
Theorem bindings_and_header_width (r0 r : DecodeStruct)
    (header : list string) :
  ParseHeader L r0 header = (r, None) ->
  foundCols r = bindings L (cols r0) header
  /\ (length header <= length (foundCols r))%nat
  /\ (length (foundCols r) = length header
      <-> Forall (fun cell =>
                    length (matching_from (normalize L cell) 0 (cols r0))
                    = 1%nat) header)
  /\ (forall (record : list string) (target : instance L),
        length record = length header ->
        ~ Forall (fun cell =>
                    length (matching_from (normalize L cell) 0 (cols r0))
                    = 1%nat) header ->
        Rev1.UnmarshalCSV L r record target = (target, Err row_shape_error)
        /\ Rev2.UnmarshalCSV L r record target
           = (target, Err row_shape_error)).
Proof.
  intros Hparse.
  pose proof (ParseHeader_foundCols L r0 r header Hparse) as Hfound.
  assert (Hall : Forall (fun cell => known r0 (normalize L cell) = true)
                   header).
  { apply (accepted_iff r0 header). by rewrite Hparse. }
  assert (Hone : Forall (fun cell =>
                   (1 <= length (matching_from (normalize L cell) 0
                                   (cols r0)))%nat) header).
  { eapply Forall_impl; [exact Hall|]. intros cell Hk. simpl in Hk.
    pose proof (matching_from_known (normalize L cell) (cols r0) 0 Hk).
    destruct (matching_from (normalize L cell) 0 (cols r0)); [done|].
    simpl. lia. }
  destruct (flat_map_width _ header Hone) as [Hle Heq].
  fold (bindings L (cols r0) header) in Hle, Heq. rewrite <- Hfound in Hle, Heq.
  split; [done|]. split; [done|]. split; [done|].
  intros record target Hlen Hdup.
  assert (Hne : length record <> length (foundCols r)).
  { intros Hsame. apply Hdup, Heq. lia. }
  unfold Rev1.UnmarshalCSV, Rev2.UnmarshalCSV.
  by destruct (Nat.eqb_spec (length record) (length (foundCols r))).
Qed.

Lemma scan_normalized (h1 : list string) :
  forall (h2 : list string) (r : DecodeStruct) (i : nat),
    map (normalize L) h1 = map (normalize L) h2 ->
    fst (ParseHeader_scan L r i h1) = fst (ParseHeader_scan L r i h2)
    /\ (snd (ParseHeader_scan L r i h1) = None
        <-> snd (ParseHeader_scan L r i h2) = None).
Proof.
  induction h1 as [|c1 h1 IH]; intros [|c2 h2] r i Hmap; try done.
  simpl in Hmap. injection Hmap as Hc Hrest.
  rewrite !scan_cons. simpl. rewrite <- Hc.
  destruct (known r (normalize L c1)); [by apply IH|done].
Qed.

(** X7. [ParseHeader] sees a header through its trimmed, lower-cased
    cells only: two headers with the same normalized cells leave the same
    bindings in the decoder and are accepted or rejected together. *)
Theorem ParseHeader_normalized_only (r : DecodeStruct)
    (h1 h2 : list string) :
  map (normalize L) h1 = map (normalize L) h2 ->
  fst (ParseHeader L r h1) = fst (ParseHeader L r h2)
  /\ (snd (ParseHeader L r h1) = None <-> snd (ParseHeader L r h2) = None).
Proof.
  intros Hmap. unfold ParseHeader.
  destruct (scan_normalized h1 h2 (reset r) 0 Hmap) as [Hfst Hsnd].
  destruct (ParseHeader_scan L (reset r) 0 h1) as [r1 [e1|]];
    destruct (ParseHeader_scan L (reset r) 0 h2) as [r2 [e2|]];
    simpl in *; subst.
  - done.
  - by pose proof (proj2 Hsnd eq_refl).
  - by pose proof (proj1 Hsnd eq_refl).
  - done.
Qed.

Lemma missing_Permutation (h1 h2 : list string) (f : csvFieldInfo) :
  Permutation h1 h2 -> missing L h1 f = missing L h2 f.
Proof.
  intros Hp. unfold missing. f_equal. f_equal.
  apply eq_true_iff_eq. rewrite !existsb_exists.
  split; intros (cell & Hin & Hm); exists cell; split; auto.
  - by eapply Permutation_in.
  - eapply Permutation_in; [|exact Hin]. by symmetry.
Qed.

(** X8. The order of the columns does not matter for the verdict: a
    header and a permutation of it are accepted or rejected together, and
    when all their cells are known they get the same error (the first
    required descriptor without a cell). *)
Theorem ParseHeader_order_irrelevant (r : DecodeStruct)
    (h1 h2 : list string) :
  Permutation h1 h2 ->
  (snd (ParseHeader L r h1) = None <-> snd (ParseHeader L r h2) = None)
  /\ (Forall (fun cell => known r (normalize L cell) = true) h1 ->
      snd (ParseHeader L r h1) = snd (ParseHeader L r h2)).
Proof.
  intros Hp.
  assert (Hfind : find (missing L h1) (cols r) = find (missing L h2) (cols r)).
  { induction (cols r) as [|f cs IH]; simpl; [done|].
    by rewrite (missing_Permutation h1 h2 f Hp), IH. }
  assert (Hknown : Forall (fun cell => known r (normalize L cell) = true) h1
                   <-> Forall (fun cell => known r (normalize L cell) = true)
                         h2).
  { split; intros H.
    - eapply Permutation_Forall; [exact Hp|exact H].
    - eapply Permutation_Forall; [exact (Permutation_sym Hp)|exact H]. }
  split.
  - rewrite !accepted_iff, Hknown.
    assert (Hm : Forall (fun f => missing L h1 f = false) (cols r)
                 <-> Forall (fun f => missing L h2 f = false) (cols r)).
    { split; intros H; (eapply Forall_impl; [exact H|]); intros f; simpl;
        by rewrite (missing_Permutation h1 h2 f Hp). }
    by rewrite Hm.
  - intros Hall. rewrite (ParseHeader_known r h1 Hall).
    rewrite (ParseHeader_known r h2 (proj1 Hknown Hall)). simpl.
    by rewrite Hfind.
Qed.

End Reconciliation.

(** ** More on construction *)

Section Building.
Variable L : GoStd.

Lemma Rev1_built_eq (v : shape) (rt : StructType) (opts : list option_)
    (r : DecodeStruct) :
  struct_of v = Some rt ->
  Rev1.NewDecodeStruct L v opts = Built r ->
  r = set_recordType
        (with_binding (configured opts)
           (descriptors L (configured opts) 0 (Fields rt)) []) rt.
Proof.
  intros Hv Hb.
  assert (Hgen : match Rev1.NewDecodeStruct_fields L (configured opts) 0
                         (Fields rt) with
                 | Built reader => Built (set_recordType reader rt)
                 | BuildPanic msg => BuildPanic msg
                 end = Built r).
  { destruct v; simpl in Hv; [injection Hv as ->..|done]; exact Hb. }
  pose proof (Rev1_fields_spec L (Fields rt) (configured opts) 0) as Hspec.
  destruct (forallb _ (Fields rt)); cbv iota in Hspec.
  - rewrite Hspec in Hgen. injection Hgen as <-.
    destruct (options_cols opts
                {| cols := []; foundCols := [];
                   recordType := {| TypeString := ""; Fields := [] |};
                   timeFormat := time_RFC3339;
                   csvTagName := defaultCSVTagName;
                   csvTagFieldSep := defaultCSVTagFieldSep |}) as [Hc Hf].
    fold (configured opts) in Hc, Hf. by rewrite Hc, Hf.
  - destruct Hspec as [msg Hmsg]. rewrite Hmsg in Hgen. discriminate.
Qed.

Lemma configured_csvTagName (opts : list option_) :
  csvTagName (configured opts) = tag_name_of opts.
Proof. unfold configured. by rewrite options_csvTagName. Qed.

Lemma descriptors_indices (reader : DecodeStruct) (fs : list StructField) :
  forall i,
    map StructFieldIndex (descriptors L reader i fs)
    = kept_indices (csvTagName reader) i fs
    /\ Forall (fun c => RecordIndex c = -1) (descriptors L reader i fs).
Proof.
  induction fs as [|f rest IH]; intros i; simpl; [by split|].
  destruct (IH (S i)) as [IHm IHr].
  pose proof (field_info_some L reader i f) as Hsome.
  destruct (field_info L reader i f) as [[c|]|] eqn:Hinfo; [| |done].
  - destruct (field_info_index L reader i f c Hinfo) as (Hi & Hr & Hg).
    rewrite Hg. simpl. rewrite IHm, Hi. split; [done|]. by constructor.
  - apply field_info_ignored in Hinfo. by rewrite Hinfo.
Qed.

Lemma kept_indices_bounds (tagName : string) (fs : list StructField) :
  forall i,
    Forall (fun k => (i <= k < i + length fs)%nat) (kept_indices tagName i fs)
    /\ NoDup (kept_indices tagName i fs).
Proof.
  induction fs as [|f rest IH]; intros i; simpl.
  - split; constructor.
  - destruct (IH (S i)) as [IHb IHn].
    assert (Hb : Forall (fun k => (i <= k < i + S (length rest))%nat)
                   (kept_indices tagName (S i) rest)).
    { eapply Forall_impl; [exact IHb|]. intros k Hk. simpl in Hk. lia. }
    destruct (ignored tagName f); [done|].
    split; [constructor; [lia|done]|].
    constructor; [|done].
    intros Hin. rewrite Forall_forall in IHb. specialize (IHb i Hin). lia.
Qed.

(** X9. The decoder that [NewDecodeStruct] returns has one descriptor for
    every field that is not ignored, in the order of the fields: the field
    indices of the descriptors are the indices of those fields, increasing,
    so no two descriptors write to the same field, and every index is a
    field of the struct. No descriptor is bound ([RecordIndex] is -1) and
    [foundCols] is empty. *)
Theorem NewDecodeStruct_descriptors (v : shape) (rt : StructType)
    (opts : list option_) (r : DecodeStruct) :
  struct_of v = Some rt ->
  Rev1.NewDecodeStruct L v opts = Built r ->
  map StructFieldIndex (cols r)
  = kept_indices (tag_name_of opts) 0 (Fields rt)
  /\ NoDup (map StructFieldIndex (cols r))
  /\ Forall (fun c => (StructFieldIndex c < length (Fields rt))%nat) (cols r)
  /\ Forall (fun c => RecordIndex c = -1) (cols r)
  /\ foundCols r = []
  /\ recordType r = rt.
Proof.
  intros Hv Hb. rewrite (Rev1_built_eq v rt opts r Hv Hb). simpl.
  destruct (descriptors_indices (configured opts) (Fields rt) 0) as [Hm Hr].
  rewrite configured_csvTagName in Hm.
  destruct (kept_indices_bounds (tag_name_of opts) (Fields rt) 0) as [Hbd Hnd].
  rewrite Hm. repeat split; try done.
  apply Forall_forall. intros c Hc. rewrite Forall_forall in Hbd.
  apply (Hbd (StructFieldIndex c)). rewrite <- Hm.
  apply list_elem_of_In, in_map, list_elem_of_In, Hc.
Qed.

Lemma fold_option_last (after : list option_) :
  forall (o : option_) (c : DecodeStruct),
    Forall (fun o' => same_setting o o' = false) after ->
    setting (fold_left (fun c opt => apply_option opt c) after c) o
    = setting c o.
Proof.
  induction after as [|o' after IH]; intros o c Hall; simpl; [done|].
  inversion Hall as [|? ? Ho' Hafter]; subst.
  rewrite IH by done. by destruct o, o'.
Qed.

(** X10. The options are applied in the order given, each to one setting:
    the time format, the tag name and the tag separator of the decoder
    are the argument of the last option given for that setting, and
    [time.RFC3339], [csv] and the comma for a setting that no option
    names. *)
Theorem options_last_wins (v : shape) (rt : StructType)
    (opts : list option_) (r : DecodeStruct) :
  struct_of v = Some rt ->
  Rev1.NewDecodeStruct L v opts = Built r ->
  (forall before o after,
     opts = before ++ o :: after ->
     Forall (fun o' => same_setting o o' = false) after ->
     setting r o = argument o)
  /\ (forall o,
        Forall (fun o' => same_setting o o' = false) opts ->
        setting r o
        = match o with
          | WithTimeFormat _ => time_RFC3339
          | WithCSVTagName _ => defaultCSVTagName
          | WithCSVTagFieldSep _ => defaultCSVTagFieldSep
          end).
Proof.
  intros Hv Hb. rewrite (Rev1_built_eq v rt opts r Hv Hb).
  assert (Hset : forall o,
            setting (set_recordType
                       (with_binding (configured opts)
                          (descriptors L (configured opts) 0 (Fields rt)) [])
                       rt) o
            = setting (configured opts) o) by (by intros []).
  split.
  - intros before o after -> Hafter. rewrite Hset. unfold configured.
    rewrite fold_left_app. simpl. rewrite fold_option_last by done.
    by destruct o.
  - intros o Hall. rewrite Hset. unfold configured.
    rewrite fold_option_last by done. by destruct o.
Qed.

Lemma string_app_nil_r (s : string) : (s ++ "")%string = s.
Proof.
  induction s as [|c s IH]; [reflexivity|].
  change (String c (s ++ "")%string = String c s). by f_equal.
Qed.

Lemma string_app_assoc (a b c : string) :
  ((a ++ b) ++ c)%string = (a ++ (b ++ c))%string.
Proof.
  induction a as [|x a IH]; [reflexivity|].
  change (String x ((a ++ b) ++ c)%string = String x (a ++ (b ++ c))%string).
  by f_equal.
Qed.

Lemma prefix_char (ch c : ascii) (rest : string) :
  String.prefix (String ch "") (String c rest) = Ascii.eqb c ch.
Proof.
  assert (Hnil : forall s, String.prefix "" s = true) by (by intros []).
  transitivity (if ascii_dec ch c then String.prefix "" rest else false);
    [reflexivity|].
  rewrite Hnil. destruct (ascii_dec ch c) as [Heq|Hne].
  - subst c. symmetry. apply Ascii.eqb_refl.
  - symmetry. apply Ascii.eqb_neq. congruence.
Qed.

(** [strings.Split] on a text without the separator byte. *)
Lemma Split_char_absent (ch : ascii) (s : string) :
  forall cur,
    has_byte ch s = false ->
    Split_from (String ch "") 0 cur s = [(cur ++ s)%string].
Proof.
  induction s as [|c rest IH]; intros cur Hno.
  - simpl. by rewrite string_app_nil_r.
  - cbn [Split_from]. rewrite prefix_char.
    simpl in Hno. apply orb_false_elim in Hno as [Hc Hrest].
    rewrite Hc, IH by done. by rewrite string_app_assoc.
Qed.

(** [strings.Split] up to the first separator byte. *)
Lemma Split_char_first (ch : ascii) (a b : string) :
  forall cur,
    has_byte ch a = false ->
    Split_from (String ch "") 0 cur (a ++ String ch b)
    = (cur ++ a)%string :: Split_from (String ch "") 0 "" b.
Proof.
  induction a as [|c rest IH]; intros cur Hno.
  - change ("" ++ String ch b)%string with (String ch b).
    cbn [Split_from]. rewrite prefix_char, Ascii.eqb_refl.
    by rewrite string_app_nil_r.
  - change (String c rest ++ String ch b)%string
      with (String c (rest ++ String ch b)%string).
    cbn [Split_from]. rewrite prefix_char.
    simpl in Hno. apply orb_false_elim in Hno as [Hc Hrest].
    rewrite Hc, IH by done. by rewrite string_app_assoc.
Qed.

Lemma descriptors_elem_info (reader : DecodeStruct) (fs : list StructField) :
  forall (i : nat) (c : csvFieldInfo),
    c ∈ descriptors L reader i fs ->
    exists (k : nat) (f : StructField),
      fs !! k = Some f
      /\ StructFieldIndex c = (i + k)%nat
      /\ field_info L reader (i + k) f = Some (Some c).
Proof.
  induction fs as [|f rest IH]; intros i c Hc; simpl in Hc.
  - by apply elem_of_nil in Hc.
  - assert (Hrest : c ∈ descriptors L reader (S i) rest ->
              exists (k : nat) (f0 : StructField),
                (f :: rest) !! k = Some f0
                /\ StructFieldIndex c = (i + k)%nat
                /\ field_info L reader (i + k) f0 = Some (Some c)).
    { intros Hin. destruct (IH (S i) c Hin) as (k & f0 & Hk & Hi & Hinfo).
      exists (S k), f0. replace (i + S k)%nat with (S i + k)%nat by lia.
      by repeat split. }
    destruct (field_info L reader i f) as [[c0|]|] eqn:Hinfo; auto.
    apply elem_of_cons in Hc as [->|Hc]; auto.
    exists 0%nat, f. rewrite Nat.add_0_r.
    destruct (field_info_index L reader i f c0 Hinfo) as (Hi & _).
    by repeat split.
Qed.

(** X11. The column name and the required flag of a descriptor come from
    the tag of its field. A field without tag gets its own name,
    lower-cased, and is optional. With a one-byte separator, a tag without
    the separator is the column name itself, optional; a tag [name, flag]
    gives the column name [name], lower-cased, and is required exactly
    when [flag] is the text required (lower case): an empty [name] gives
    the empty column name, not the name of the field. *)
Theorem descriptor_names (v : shape) (rt : StructType) (opts : list option_)
    (r : DecodeStruct) (c : csvFieldInfo) :
  struct_of v = Some rt ->
  Rev1.NewDecodeStruct L v opts = Built r ->
  c ∈ cols r ->
  exists f,
    Fields rt !! StructFieldIndex c = Some f
    /\ Tag_Get (Tag f) (csvTagName r) <> "-"%string
    /\ (Tag_Get (Tag f) (csvTagName r) = EmptyString ->
        Header c = strings_ToLower L (Name f) /\ Required c = false)
    /\ (forall ch,
          csvTagFieldSep r = String ch "" ->
          Tag_Get (Tag f) (csvTagName r) <> EmptyString ->
          has_byte ch (Tag_Get (Tag f) (csvTagName r)) = false ->
          Header c = strings_ToLower L (Tag_Get (Tag f) (csvTagName r))
          /\ Required c = false)
    /\ (forall ch name flag,
          csvTagFieldSep r = String ch "" ->
          Tag_Get (Tag f) (csvTagName r) = (name ++ String ch flag)%string ->
          has_byte ch name = false ->
          has_byte ch flag = false ->
          Header c = strings_ToLower L name
          /\ Required c = String.eqb flag "required").
Proof.
  intros Hv Hb Hc. rewrite (Rev1_built_eq v rt opts r Hv Hb) in Hc |- *.
  simpl in Hc |- *.
  destruct (descriptors_elem_info (configured opts) (Fields rt) 0 c Hc)
    as (k & f & Hk & Hi & Hinfo).
  simpl in Hi, Hinfo. subst k. exists f. split; [done|].
  unfold field_info in Hinfo.
  set (tag := Tag_Get (Tag f) (csvTagName (configured opts))) in *.
  set (sep := csvTagFieldSep (configured opts)) in *.
  destruct (String.eqb_spec tag "-") as [|Hdash]; [done|].
  split; [done|]. split; [|split].
  - intros Htag. rewrite Htag in Hinfo. simpl in Hinfo.
    by injection Hinfo as <-.
  - intros ch Hsep Hne Hno.
    destruct tag as [|t0 tag'] eqn:Htag; [done|]. simpl in Hinfo.
    unfold strings_Split in Hinfo. rewrite Hsep in Hinfo.
    rewrite (Split_char_absent ch _ "" Hno) in Hinfo. simpl in Hinfo.
    by injection Hinfo as <-.
  - intros ch name flag Hsep Htag Hname Hflag.
    assert (Hlen : (0 <? String.length tag)%nat = true).
    { rewrite Htag. destruct name; done. }
    rewrite Hlen in Hinfo. unfold strings_Split in Hinfo.
    rewrite Hsep, Htag in Hinfo.
    rewrite (Split_char_first ch name flag "" Hname) in Hinfo.
    rewrite (Split_char_absent ch flag "" Hflag) in Hinfo. simpl in Hinfo.
    by injection Hinfo as <-.
Qed.

End Building.

(** ** More on row decoding *)

Section Rows.
Variable L : GoStd.

(** *** What a call touches *)

Lemma Rev1_column_untouched (r : DecodeStruct) (rv : list (value L))
    (record : list string) (j k : nat) :
  (forall c, cols r !! j = Some c -> StructFieldIndex c <> k) ->
  fst (Rev1.unmarshal_column L r rv record j) !! k = rv !! k.
Proof.
  intros Hk. unfold Rev1.unmarshal_column.
  destruct (cols r !! j) as [c|]; [|done]. specialize (Hk c eq_refl).
  destruct (RecordIndex c <? 0); [done|].
  destruct (record !! Z.to_nat (RecordIndex c)) as [s|]; [|done].
  destruct (negb (Required c) && _); [done|].
  destruct (Fields (recordType r) !! StructFieldIndex c) as [fld|]; [|done].
  destruct (rv !! StructFieldIndex c) as [f|]; [|done].
  destruct (Exported fld); [|done].
  destruct (Rev1.setField L r (Type_ fld) f s) as [f' res]; simpl;
    by rewrite list_lookup_insert_ne.
Qed.

Lemma Rev2_column_untouched (r : DecodeStruct) (rv : list (value L))
    (record : list string) (j k : nat) :
  (forall c, cols r !! j = Some c -> StructFieldIndex c <> k) ->
  fst (Rev2.unmarshal_column L r rv record j) !! k = rv !! k.
Proof.
  intros Hk. unfold Rev2.unmarshal_column.
  destruct (cols r !! j) as [c|]; [|done]. specialize (Hk c eq_refl).
  destruct (RecordIndex c <? 0); [done|].
  destruct (record !! Z.to_nat (RecordIndex c)) as [s|]; [|done].
  destruct (Fields (recordType r) !! StructFieldIndex c) as [fld|]; [|done].
  destruct (rv !! StructFieldIndex c) as [f|]; [|done].
  destruct (Exported fld); [|done].
  destruct (Rev2.setField L r (Type_ fld) f s) as [f' res]; simpl;
    by rewrite list_lookup_insert_ne.
Qed.

Lemma Rev1_loop_untouched (r : DecodeStruct) (record : list string)
    (k : nat) (fc : list nat) :
  (forall j c, j ∈ fc -> cols r !! j = Some c -> StructFieldIndex c <> k) ->
  forall rv : list (value L),
    fst (Rev1.unmarshal_loop L r rv record fc) !! k = rv !! k.
Proof.
  induction fc as [|j fc IH]; intros Hk rv; simpl; [done|].
  pose proof (Rev1_column_untouched r rv record j k
                (fun c => Hk j c ltac:(by constructor))) as Hcol.
  destruct (Rev1.unmarshal_column L r rv record j) as [rv1 [|e|msg]];
    simpl in *; [|done..].
  rewrite IH; [done|]. intros j' c Hj'. apply Hk. by constructor.
Qed.

Lemma Rev2_loop_untouched (r : DecodeStruct) (record : list string)
    (k : nat) (fc : list nat) :
  (forall j c, j ∈ fc -> cols r !! j = Some c -> StructFieldIndex c <> k) ->
  forall rv : list (value L),
    fst (Rev2.unmarshal_loop L r rv record fc) !! k = rv !! k.
Proof.
  induction fc as [|j fc IH]; intros Hk rv; simpl; [done|].
  pose proof (Rev2_column_untouched r rv record j k
                (fun c => Hk j c ltac:(by constructor))) as Hcol.
  destruct (Rev2.unmarshal_column L r rv record j) as [rv1 [|e|msg]];
    simpl in *; [|done..].
  rewrite IH; [done|]. intros j' c Hj'. apply Hk. by constructor.
Qed.

(** X12. [UnmarshalCSV] writes to the fields of the bound columns only: a
    field that no descriptor of [foundCols] points to holds after the
    call, successful or not, what it held before, and the target keeps its
    type. Both revisions. *)
Theorem unbound_fields_untouched (r : DecodeStruct) (record : list string)
    (target : instance L) (k : nat) :
  (forall j c, j ∈ foundCols r -> cols r !! j = Some c ->
               StructFieldIndex c <> k) ->
  ifields (fst (Rev1.UnmarshalCSV L r record target)) !! k
  = ifields target !! k
  /\ itype (fst (Rev1.UnmarshalCSV L r record target)) = itype target
  /\ ifields (fst (Rev2.UnmarshalCSV L r record target)) !! k
     = ifields target !! k
  /\ itype (fst (Rev2.UnmarshalCSV L r record target)) = itype target.
Proof.
  intros Hk. unfold Rev1.UnmarshalCSV, Rev2.UnmarshalCSV.
  destruct (negb (length record =? length (foundCols r))%nat); [done|].
  destruct (negb (bool_decide (itype target = recordType r))); [done|].
  unfold Rev1.unmarshal, Rev2.unmarshal.
  pose proof (Rev1_loop_untouched r record k (foundCols r) Hk (ifields target))
    as H1.
  pose proof (Rev2_loop_untouched r record k (foundCols r) Hk (ifields target))
    as H2.
  destruct (Rev1.unmarshal_loop L r (ifields target) record (foundCols r)).
  by destruct (Rev2.unmarshal_loop L r (ifields target) record (foundCols r)).
Qed.

(** *** What a call reads *)

Lemma Rev1_column_cells (r : DecodeStruct) (rv : list (value L))
    (record1 record2 : list string) (j : nat) :
  (forall c, cols r !! j = Some c ->
             record1 !! Z.to_nat (RecordIndex c)
             = record2 !! Z.to_nat (RecordIndex c)) ->
  Rev1.unmarshal_column L r rv record1 j
  = Rev1.unmarshal_column L r rv record2 j.
Proof.
  intros Hc. unfold Rev1.unmarshal_column.
  destruct (cols r !! j) as [c|]; [|done]. by rewrite (Hc c eq_refl).
Qed.

Lemma Rev2_column_cells (r : DecodeStruct) (rv : list (value L))
    (record1 record2 : list string) (j : nat) :
  (forall c, cols r !! j = Some c ->
             record1 !! Z.to_nat (RecordIndex c)
             = record2 !! Z.to_nat (RecordIndex c)) ->
  Rev2.unmarshal_column L r rv record1 j
  = Rev2.unmarshal_column L r rv record2 j.
Proof.
  intros Hc. unfold Rev2.unmarshal_column.
  destruct (cols r !! j) as [c|]; [|done]. by rewrite (Hc c eq_refl).
Qed.

(** X13. A row is read at the positions the bound descriptors hold and
    nowhere else: two rows of the same length that agree at the
    [RecordIndex] of every descriptor of [foundCols] are decoded alike. So
    when a column name occurs twice in the header, the cell under its
    first occurrence is never read. Both revisions. *)
Theorem only_bound_cells_read (r : DecodeStruct)
    (record1 record2 : list string) (target : instance L) :
  length record1 = length record2 ->
  (forall j c, j ∈ foundCols r -> cols r !! j = Some c ->
               record1 !! Z.to_nat (RecordIndex c)
               = record2 !! Z.to_nat (RecordIndex c)) ->
  Rev1.UnmarshalCSV L r record1 target = Rev1.UnmarshalCSV L r record2 target
  /\ Rev2.UnmarshalCSV L r record1 target
     = Rev2.UnmarshalCSV L r record2 target.
Proof.
  intros Hlen Hcells. unfold Rev1.UnmarshalCSV, Rev2.UnmarshalCSV.
  rewrite Hlen.
  destruct (negb (length record2 =? length (foundCols r))%nat); [done|].
  destruct (negb (bool_decide (itype target = recordType r))); [done|].
  unfold Rev1.unmarshal, Rev2.unmarshal.
  assert (H1 : forall fc rv,
            (forall j, j ∈ fc -> j ∈ foundCols r) ->
            Rev1.unmarshal_loop L r rv record1 fc
            = Rev1.unmarshal_loop L r rv record2 fc).
  { induction fc as [|j fc IH]; intros rv Hsub; simpl; [done|].
    rewrite (Rev1_column_cells r rv record1 record2 j).
    - destruct (Rev1.unmarshal_column L r rv record2 j) as [rv1 [|e|msg]];
        [|done..].
      apply IH. intros j' Hj'. apply Hsub. by constructor.
    - intros c. apply Hcells, Hsub. by constructor. }
  assert (H2 : forall fc rv,
            (forall j, j ∈ fc -> j ∈ foundCols r) ->
            Rev2.unmarshal_loop L r rv record1 fc
            = Rev2.unmarshal_loop L r rv record2 fc).
  { induction fc as [|j fc IH]; intros rv Hsub; simpl; [done|].
    rewrite (Rev2_column_cells r rv record1 record2 j).
    - destruct (Rev2.unmarshal_column L r rv record2 j) as [rv1 [|e|msg]];
        [|done..].
      apply IH. intros j' Hj'. apply Hsub. by constructor.
    - intros c. apply Hcells, Hsub. by constructor. }
  by rewrite H1, H2.
Qed.

(** *** Values stay inside their types *)

Lemma to_signed_range (bits z : Z) :
  0 < bits ->
  - 2 ^ (bits - 1) <= to_signed bits z < 2 ^ (bits - 1).
Proof.
  intros Hbits. unfold to_signed.
  assert (Hpow : 2 ^ bits = 2 * 2 ^ (bits - 1)).
  { rewrite <- Z.pow_succ_r by lia. f_equal. lia. }
  assert (Hh : 0 < 2 ^ (bits - 1)) by (apply Z.pow_pos_nonneg; lia).
  pose proof (Z.mod_pos_bound (z + 2 ^ (bits - 1)) (2 ^ bits)) as Hm.
  lia.
Qed.

Lemma to_unsigned_range (bits z : Z) :
  0 <= bits -> 0 <= to_unsigned bits z < 2 ^ bits.
Proof.
  intros Hbits. unfold to_unsigned. apply Z.mod_pos_bound.
  apply Z.pow_pos_nonneg; lia.
Qed.

Lemma SetInt_has_type (k : reflect.Kind) (str pkg : string) (i : Z) :
  signed_kind k = true -> has_type L (Plain k str pkg) (SetInt L k i).
Proof.
  intros Hk. pose proof (bitSize_pos L k) as Hbits.
  destruct k; try done; eexists; (split; [reflexivity|]);
    apply to_signed_range; lia.
Qed.

Lemma SetUint_has_type (k : reflect.Kind) (str pkg : string) (u : Z) :
  unsigned_kind k = true -> has_type L (Plain k str pkg) (SetUint L k u).
Proof.
  intros Hk. pose proof (bitSize_pos L k) as Hbits.
  destruct k; try done; eexists; (split; [reflexivity|]);
    apply to_unsigned_range; lia.
Qed.

Lemma SetFloat_has_type (k : reflect.Kind) (str pkg : string)
    (x : float64 L) :
  float_kind k = true -> has_type L (Plain k str pkg) (SetFloat L k x).
Proof. intros Hk. destruct k; try done; by eexists. Qed.

Lemma zero_has_type (t : rtype) : has_type L t (zero L t).
Proof.
  destruct t as [k str pkg|elem]; [|done].
  pose proof (SetInt_has_type k str pkg 0) as Hi.
  pose proof (SetUint_has_type k str pkg 0) as Hu.
  unfold SetInt, SetUint, to_signed, to_unsigned in Hi, Hu.
  pose proof (bitSize_pos L k) as Hbits.
  assert (Hh : 0 < 2 ^ (bitSize L k - 1)) by (apply Z.pow_pos_nonneg; lia).
  assert (Hp : 0 < 2 ^ bitSize L k) by (apply Z.pow_pos_nonneg; lia).
  assert (Hpow : 2 ^ bitSize L k = 2 * 2 ^ (bitSize L k - 1)).
  { rewrite <- Z.pow_succ_r by lia. f_equal. lia. }
  rewrite Z.mod_0_l in Hu by lia.
  rewrite Z.add_0_l, Z.mod_small, Z.sub_diag in Hi by lia.
  destruct k; try done; try (by eexists); try (by apply Hi);
    try (by apply Hu).
  simpl. destruct (bool_decide _); [by eexists|done].
Qed.

Ltac typed_parse Hf :=
  repeat match goal with
    | |- context [strconv_ParseBool ?s] => destruct (strconv_ParseBool s)
    | |- context [strconv_ParseInt ?b ?s] =>
        destruct (strconv_ParseInt b s) as [? [?|]]
    | |- context [strconv_ParseUint ?b ?s] =>
        destruct (strconv_ParseUint b s) as [? [?|]]
    | |- context [strconv_ParseFloat ?L ?s] =>
        destruct (strconv_ParseFloat L s)
    | |- context [time_Parse ?L ?l ?s] => destruct (time_Parse L l s)
    end;
  cbn [fst];
  first [ exact Hf
        | by apply SetInt_has_type
        | by apply SetUint_has_type
        | by apply SetFloat_has_type
        | by eexists ].

Lemma Rev1_setField_typed (r : DecodeStruct) (t : rtype) (s : string) :
  forall f : value L,
    has_type L t f -> has_type L t (fst (Rev1.setField L r t f s)).
Proof.
  induction t as [k str pkg|elem IH]; intros f Hf.
  - cbn [Rev1.setField]. destruct k; try exact Hf; try typed_parse Hf.
    destruct (negb _); [exact Hf|].
    destruct (time_Parse L (timeFormat r) s); [|exact Hf].
    destruct (bool_decide_reflect (Plain reflect.Struct str pkg = time_Time))
      as [Heq|]; [|exact Hf].
    rewrite Heq. simpl. by eexists.
  - cbn [Rev1.setField].
    specialize (IH (zero L elem) (zero_has_type elem)).
    by destruct (Rev1.setField L r elem (zero L elem) s) as [z' err].
Qed.

Lemma Rev2_setCustomField_typed (t : rtype) (s : string) (f : value L) :
  has_type L t f -> has_type L t (fst (Rev2.setCustomField L t f s)).
Proof.
  intros Hf. destruct t as [k str pkg|elem]; [|exact Hf].
  cbn [Rev2.setCustomField]. destruct k; try exact Hf; typed_parse Hf.
Qed.

Lemma Rev2_setField_switch_typed (r : DecodeStruct) (t : rtype) (s : string)
    (f : value L) :
  has_type L t f -> has_type L t (fst (Rev2.setField_switch L r t f s)).
Proof.
  intros Hf.
  pose proof (Rev2_setCustomField_typed t s f Hf) as Hcustom.
  destruct t as [k str pkg|elem]; [|exact Hcustom].
  unfold Rev2.setField_switch.
  destruct k; try done;
    cbn [Rev2.dynamic_type Rev2.type_switch Rev2.predeclared];
    (match goal with
     | |- context [bool_decide (?a = time_Time)] =>
         destruct (bool_decide_reflect (a = time_Time)) as [Heq|]
     end;
     [|destruct (bool_decide (_ = _)); try exact Hcustom]);
    try discriminate Heq; try typed_parse Hf.
  injection Heq as -> ->. typed_parse Hf.
Qed.

Lemma Rev2_setField_typed (r : DecodeStruct) (t : rtype) (s : string)
    (f : value L) :
  has_type L t f -> has_type L t (fst (Rev2.setField L r t f s)).
Proof.
  intros Hf. destruct t as [k str pkg|elem].
  - by apply Rev2_setField_switch_typed.
  - cbn [Rev2.setField].
    pose proof (Rev2_setField_switch_typed r elem s (zero L elem)
                  (zero_has_type elem)) as Hz.
    by destruct (Rev2.setField_switch L r elem (zero L elem) s).
Qed.

Lemma typed_insert (fields : list StructField) (rv : list (value L))
    (k : nat) (fld : StructField) (v : value L) :
  Forall2 (fun fld v => has_type L (Type_ fld) v) fields rv ->
  fields !! k = Some fld ->
  has_type L (Type_ fld) v ->
  Forall2 (fun fld v => has_type L (Type_ fld) v) fields (<[k := v]> rv).
Proof.
  intros Hall Hk Hv.
  rewrite <- (list_insert_id fields k fld Hk).
  by apply Forall2_insert.
Qed.

Lemma Rev1_column_typed (r : DecodeStruct) (rv : list (value L))
    (record : list string) (j : nat) :
  Forall2 (fun fld v => has_type L (Type_ fld) v) (Fields (recordType r)) rv ->
  Forall2 (fun fld v => has_type L (Type_ fld) v) (Fields (recordType r))
    (fst (Rev1.unmarshal_column L r rv record j)).
Proof.
  intros Hall. unfold Rev1.unmarshal_column.
  destruct (cols r !! j) as [c|]; [|done].
  destruct (RecordIndex c <? 0); [done|].
  destruct (record !! Z.to_nat (RecordIndex c)) as [s|]; [|done].
  destruct (negb (Required c) && _); [done|].
  destruct (Fields (recordType r) !! StructFieldIndex c) as [fld|] eqn:Hfld;
    [|done].
  destruct (rv !! StructFieldIndex c) as [f|] eqn:Hf; [|done].
  destruct (Exported fld); [|done].
  assert (Hty : has_type L (Type_ fld) f).
  { by apply (Forall2_lookup_lr _ _ _ _ _ _ Hall Hfld Hf). }
  pose proof (Rev1_setField_typed r (Type_ fld) s f Hty) as Hset.
  destruct (Rev1.setField L r (Type_ fld) f s) as [f' res]; simpl in *.
  by apply (typed_insert _ _ _ fld).
Qed.

Lemma Rev2_column_typed (r : DecodeStruct) (rv : list (value L))
    (record : list string) (j : nat) :
  Forall2 (fun fld v => has_type L (Type_ fld) v) (Fields (recordType r)) rv ->
  Forall2 (fun fld v => has_type L (Type_ fld) v) (Fields (recordType r))
    (fst (Rev2.unmarshal_column L r rv record j)).
Proof.
  intros Hall. unfold Rev2.unmarshal_column.
  destruct (cols r !! j) as [c|]; [|done].
  destruct (RecordIndex c <? 0); [done|].
  destruct (record !! Z.to_nat (RecordIndex c)) as [s|]; [|done].
  destruct (Fields (recordType r) !! StructFieldIndex c) as [fld|] eqn:Hfld;
    [|done].
  destruct (rv !! StructFieldIndex c) as [f|] eqn:Hf; [|done].
  destruct (Exported fld); [|done].
  assert (Hty : has_type L (Type_ fld) f).
  { by apply (Forall2_lookup_lr _ _ _ _ _ _ Hall Hfld Hf). }
  pose proof (Rev2_setField_typed r (Type_ fld) s f Hty) as Hset.
  destruct (Rev2.setField L r (Type_ fld) f s) as [f' res]; simpl in *.
  by apply (typed_insert _ _ _ fld).
Qed.

Lemma New_well_typed (t : StructType) : well_typed L (New L t).
Proof.
  unfold well_typed, New. simpl.
  induction (Fields t) as [|f fs IH]; simpl; constructor; [|done].
  apply zero_has_type.
Qed.

(** X14. Decoding keeps every field inside its type: if the fields of the
    target hold values of their types, they still do after [UnmarshalCSV],
    successful or not; an integer field holds a number within its declared
    width whatever the cell was, a pointer field is nil or leads to a
    value of its element type. The struct that [GetStruct] returns is of
    that kind. Both revisions. *)
Theorem decoded_values_typed (r : DecodeStruct) (record : list string)
    (target : instance L) :
  well_typed L target ->
  well_typed L (fst (Rev1.UnmarshalCSV L r record target))
  /\ well_typed L (fst (Rev2.UnmarshalCSV L r record target))
  /\ (forall v, fst (Rev1.GetStruct L r record) = Some v -> well_typed L v)
  /\ (forall v, fst (Rev2.GetStruct L r record) = Some v -> well_typed L v).
Proof.
  assert (H1 : forall fc rv,
            Forall2 (fun fld v => has_type L (Type_ fld) v)
              (Fields (recordType r)) rv ->
            Forall2 (fun fld v => has_type L (Type_ fld) v)
              (Fields (recordType r))
              (fst (Rev1.unmarshal_loop L r rv record fc))).
  { induction fc as [|j fc IH]; intros rv Hrv; simpl; [done|].
    pose proof (Rev1_column_typed r rv record j Hrv) as Hcol.
    destruct (Rev1.unmarshal_column L r rv record j) as [rv1 [|e|msg]];
      simpl in *; auto. }
  assert (H2 : forall fc rv,
            Forall2 (fun fld v => has_type L (Type_ fld) v)
              (Fields (recordType r)) rv ->
            Forall2 (fun fld v => has_type L (Type_ fld) v)
              (Fields (recordType r))
              (fst (Rev2.unmarshal_loop L r rv record fc))).
  { induction fc as [|j fc IH]; intros rv Hrv; simpl; [done|].
    pose proof (Rev2_column_typed r rv record j Hrv) as Hcol.
    destruct (Rev2.unmarshal_column L r rv record j) as [rv1 [|e|msg]];
      simpl in *; auto. }
  assert (U1 : forall t, well_typed L t ->
            well_typed L (fst (Rev1.UnmarshalCSV L r record t))).
  { intros t Ht. unfold Rev1.UnmarshalCSV.
    destruct (negb (length record =? length (foundCols r))%nat); [done|].
    destruct (bool_decide_reflect (itype t = recordType r)) as [Heq|];
      simpl; [|done].
    unfold Rev1.unmarshal, well_typed in *. rewrite Heq in Ht.
    specialize (H1 (foundCols r) (ifields t) Ht).
    destruct (Rev1.unmarshal_loop L r (ifields t) record (foundCols r)).
    simpl in *. by rewrite Heq. }
  assert (U2 : forall t, well_typed L t ->
            well_typed L (fst (Rev2.UnmarshalCSV L r record t))).
  { intros t Ht. unfold Rev2.UnmarshalCSV.
    destruct (negb (length record =? length (foundCols r))%nat); [done|].
    destruct (bool_decide_reflect (itype t = recordType r)) as [Heq|];
      simpl; [|done].
    unfold Rev2.unmarshal, well_typed in *. rewrite Heq in Ht.
    specialize (H2 (foundCols r) (ifields t) Ht).
    destruct (Rev2.unmarshal_loop L r (ifields t) record (foundCols r)).
    simpl in *. by rewrite Heq. }
  intros Ht. split; [by apply U1|]. split; [by apply U2|]. split.
  - intros v. unfold Rev1.GetStruct.
    pose proof (U1 _ (New_well_typed (recordType r))) as Hn.
    destruct (Rev1.UnmarshalCSV L r record (New L (recordType r)))
      as [v' [|e|msg]]; simpl in *; [|done..].
    by intros [= <-].
  - intros v. unfold Rev2.GetStruct.
    pose proof (U2 _ (New_well_typed (recordType r))) as Hn.
    destruct (Rev2.UnmarshalCSV L r record (New L (recordType r)))
      as [v' [|e|msg]]; simpl in *; [|done..].
    by intros [= <-].
Qed.

(** *** The errors of a decoder that was built *)

Lemma Rev1_supported_error (r : DecodeStruct) (t : rtype) (s : string) :
  Rev1.isSupportedField t = true ->
  forall (f : value L) (e : error),
    snd (Rev1.setField L r t f s) = Err e ->
    (exists fn k, e = NumError fn s k) \/ (exists pe, e = TimeParseError pe).
Proof.
  induction t as [k str pkg|elem IH]; intros Hsup f e.
  - cbn [Rev1.setField]. simpl in Hsup. destruct k; try done.
    + destruct (strconv_ParseBool s) as [b|err] eqn:Hb; [done|].
      simpl. intros [= <-]. left. rewrite (ParseBool_error s err Hb). eauto.
    + destruct (strconv_ParseInt (IntSize L) s) as [i [err|]] eqn:Hi; [|done].
      simpl. intros [= <-]. left.
      destruct (ParseInt_error _ s i err Hi) as [k ->]. eauto.
    + destruct (strconv_ParseInt (IntSize L) s) as [i [err|]] eqn:Hi; [|done].
      simpl. intros [= <-]. left.
      destruct (ParseInt_error _ s i err Hi) as [k ->]. eauto.
    + destruct (strconv_ParseInt (IntSize L) s) as [i [err|]] eqn:Hi; [|done].
      simpl. intros [= <-]. left.
      destruct (ParseInt_error _ s i err Hi) as [k ->]. eauto.
    + destruct (strconv_ParseInt (IntSize L) s) as [i [err|]] eqn:Hi; [|done].
      simpl. intros [= <-]. left.
      destruct (ParseInt_error _ s i err Hi) as [k ->]. eauto.
    + destruct (strconv_ParseInt (IntSize L) s) as [i [err|]] eqn:Hi; [|done].
      simpl. intros [= <-]. left.
      destruct (ParseInt_error _ s i err Hi) as [k ->]. eauto.
    + destruct (strconv_ParseUint (IntSize L) s) as [i [err|]] eqn:Hi; [|done].
      simpl. intros [= <-]. left.
      destruct (ParseUint_error _ s i err Hi) as [k ->]. eauto.
    + destruct (strconv_ParseUint (IntSize L) s) as [i [err|]] eqn:Hi; [|done].
      simpl. intros [= <-]. left.
      destruct (ParseUint_error _ s i err Hi) as [k ->]. eauto.
    + destruct (strconv_ParseUint (IntSize L) s) as [i [err|]] eqn:Hi; [|done].
      simpl. intros [= <-]. left.
      destruct (ParseUint_error _ s i err Hi) as [k ->]. eauto.
    + destruct (strconv_ParseUint (IntSize L) s) as [i [err|]] eqn:Hi; [|done].
      simpl. intros [= <-]. left.
      destruct (ParseUint_error _ s i err Hi) as [k ->]. eauto.
    + destruct (strconv_ParseUint (IntSize L) s) as [i [err|]] eqn:Hi; [|done].
      simpl. intros [= <-]. left.
      destruct (ParseUint_error _ s i err Hi) as [k ->]. eauto.
    + destruct (strconv_ParseFloat L s) as [x|ne]; [done|].
      simpl. intros [= <-]. left. eauto.
    + destruct (strconv_ParseFloat L s) as [x|ne]; [done|].
      simpl. intros [= <-]. left. eauto.
    + rewrite Hsup. simpl.
      destruct (time_Parse L (timeFormat r) s) as [x|pe];
        [by destruct (bool_decide _)|].
      simpl. intros [= <-]. right. eauto.
  - cbn [Rev1.setField]. simpl in Hsup.
    specialize (IH Hsup (zero L elem) e).
    by destruct (Rev1.setField L r elem (zero L elem) s) as [z' err].
Qed.

(** X15. For a decoder that [NewDecodeStruct] returned, the errors of
    [UnmarshalCSV] are the error of a row of the wrong length, the error of
    a target of another type, and the parse errors of [strconv] and [time]
    on a cell of the row: the message for an unsupported type is never
    returned at decoding time, and no [IncorrectFileErr] is. *)
Theorem UnmarshalCSV_errors (v : shape) (rt : StructType)
    (opts : list option_) (r0 : DecodeStruct) (header record : list string)
    (target : instance L) (e : error) :
  struct_of v = Some rt ->
  Rev1.NewDecodeStruct L v opts = Built r0 ->
  snd (Rev1.UnmarshalCSV L (fst (ParseHeader L r0 header)) record target)
  = Err e ->
  e = row_shape_error
  \/ e = type_mismatch_error r0
  \/ (exists fn cell k, cell ∈ record /\ e = NumError fn cell k)
  \/ (exists pe, e = TimeParseError pe).
Proof.
  intros Hv Hb.
  destruct (Rev1_built L v rt opts r0 Hv Hb) as (_ & _ & _ & _ & Htype & Hsup).
  pose proof (recordType_ParseHeader L r0 header) as Hrt.
  set (r := fst (ParseHeader L r0 header)) in *.
  unfold Rev1.UnmarshalCSV.
  destruct (negb (length record =? length (foundCols r))%nat);
    [intros [= <-]; by left|].
  destruct (negb (bool_decide (itype target = recordType r))).
  { intros [= <-]. right. left. unfold type_mismatch_error. by rewrite Hrt. }
  unfold Rev1.unmarshal.
  assert (Hloop : forall fc rv rv',
            Rev1.unmarshal_loop L r rv record fc = (rv', Err e) ->
            (exists fn cell k, cell ∈ record /\ e = NumError fn cell k)
            \/ (exists pe, e = TimeParseError pe)).
  { induction fc as [|j fc IH]; intros rv rv'; simpl; [done|].
    destruct (Rev1.unmarshal_column L r rv record j) as [rv1 [|e1|msg]]
      eqn:Hcol; [apply IH| |done].
    intros [= _ <-].
    destruct (Rev1_column_failure L r rv rv1 record j e1 Hcol)
      as (c & fld & f & s & _ & _ & Hs & Hfld & _ & _ & Hset & _).
    assert (Hfs : Rev1.isSupportedField (Type_ fld) = true).
    { rewrite Hrt, Htype in Hfld. rewrite forallb_forall in Hsup.
      apply (Hsup fld). apply list_elem_of_In.
      by eapply list_elem_of_lookup_2. }
    destruct (Rev1_supported_error r (Type_ fld) s Hfs f e1 Hset)
      as [(fn & k & ->)|Hpe]; [left|by right].
    exists fn, s, k. split; [|done]. by eapply list_elem_of_lookup_2. }
  destruct (Rev1.unmarshal_loop L r (ifields target) record (foundCols r))
    as [fs res] eqn:Hl.
  simpl. intros ->. right. right. by apply (Hloop _ _ _ Hl).
Qed.

(** *** Types that the second revision accepts and cannot set *)

(** X16. The second revision of [isSupportedField] accepts types that
    its [setField] cannot set. A pointer to a pointer is accepted whenever
    the type under it is, and the kinds uintptr, complex64, complex128,
    chan, func and unsafe.Pointer are accepted, which the first revision
    refuses at construction: for all of them [setField] returns the error
    of an unsupported type whatever the cell and whatever the field holds,
    after it has set the double pointer to a pointer to nil. A field of an
    interface type is accepted as well, and there the type switch is on the
    value that the interface holds: for the nil interface and for a value
    of a type that the switch does not name, [setField] returns the error
    of an unsupported type; for a [time.Time] the cell is parsed and the
    time is stored in the interface; for a string [SetString] panics; for
    a boolean, an integer or a float of a predeclared type [setField]
    returns the error of the parser or, when the cell parses, the setter
    panics. *)
Theorem Rev2_accepts_what_it_cannot_set (r : DecodeStruct) (f : value L)
    (s : string) :
  (forall elem,
     Rev2.isSupportedField (Pointer (Pointer elem))
     = Rev2.isSupportedField elem
     /\ Rev2.setField L r (Pointer (Pointer elem)) f s
        = (VPtr (Some (VPtr None)),
           Err (errorString
                  (unsupported_type (Rev2.Value_String (Pointer elem))))))
  /\ (forall k str pkg,
        k ∈ [reflect.Uintptr; reflect.Complex64; reflect.Complex128;
             reflect.Chan; reflect.Func; reflect.UnsafePointer] ->
        Rev2.isSupportedField (Plain k str pkg) = true
        /\ Rev1.isSupportedField (Plain k str pkg) = false
        /\ Rev2.setField L r (Plain k str pkg) f s
           = (f, Err (errorString
                        (unsupported_type
                           (Rev2.Value_String (Plain k str pkg))))))
  /\ (forall str pkg,
        Rev2.isSupportedField (Plain reflect.Interface str pkg) = true
        /\ Rev1.isSupportedField (Plain reflect.Interface str pkg) = false
        /\ Rev2.setField L r (Plain reflect.Interface str pkg) (VIface None) s
           = (VIface None,
              Err (errorString
                     (unsupported_type
                        (Rev2.Value_String
                           (Plain reflect.Interface str pkg)))))
        /\ (forall d v,
              Rev2.setField L r (Plain reflect.Interface str pkg)
                (VIface (Some (d, v))) s
              = match Rev2.type_switch (Some d) with
                | Rev2.case_default =>
                    (VIface (Some (d, v)),
                     Err (errorString
                            (unsupported_type
                               (Rev2.Value_String
                                  (Plain reflect.Interface str pkg)))))
                | Rev2.case_Time =>
                    match time_Parse L (timeFormat r) s with
                    | inl x => (VIface (Some (time_Time, VTime x)), Nil)
                    | inr e => (VIface (Some (d, v)), Err (TimeParseError e))
                    end
                | Rev2.case_string =>
                    (VIface (Some (d, v)), Panic (wrong_kind "SetString"))
                | Rev2.case_bool =>
                    match strconv_ParseBool s with
                    | inl _ =>
                        (VIface (Some (d, v)), Panic (wrong_kind "SetBool"))
                    | inr err => (VIface (Some (d, v)), Err err)
                    end
                | Rev2.case_int =>
                    match strconv_ParseInt (IntSize L) s with
                    | (_, None) =>
                        (VIface (Some (d, v)), Panic (wrong_kind "SetInt"))
                    | (_, Some err) => (VIface (Some (d, v)), Err err)
                    end
                | Rev2.case_uint =>
                    match strconv_ParseUint (IntSize L) s with
                    | (_, None) =>
                        (VIface (Some (d, v)), Panic (wrong_kind "SetUint"))
                    | (_, Some err) => (VIface (Some (d, v)), Err err)
                    end
                | Rev2.case_float =>
                    match strconv_ParseFloat L s with
                    | inl _ =>
                        (VIface (Some (d, v)), Panic (wrong_kind "SetFloat"))
                    | inr e =>
                        (VIface (Some (d, v)),
                         Err (NumError "ParseFloat" s e))
                    end
                end)
        /\ Rev2.type_switch (Some time_Time) = Rev2.case_Time
        /\ Rev2.type_switch (Some (Plain reflect.String "string" ""))
           = Rev2.case_string
        /\ Rev2.type_switch (Some (Plain reflect.Int "int" ""))
           = Rev2.case_int
        /\ (forall k name path,
              path <> EmptyString ->
              Plain k name path <> time_Time ->
              Rev2.type_switch (Some (Plain k name path))
              = Rev2.case_default)).
Proof.
  split; [done|]. split.
  - intros k str pkg Hk.
    repeat (apply elem_of_cons in Hk as [->|Hk]);
      try (by apply elem_of_nil in Hk); done.
  - intros str pkg. repeat split.
    intros k name path Hpath Hne. unfold Rev2.type_switch.
    rewrite bool_decide_eq_false_2 by done.
    rewrite bool_decide_eq_false_2; [done|].
    intros Heq. destruct k; simpl in Heq; try done;
      injection Heq as _ Hp; by subst path.
Qed.

(** *** [GetStruct] *)

(** X17. [GetStruct] decodes into a new zero value of the struct of the
    decoder, so the test of the type of the target never fails: a row of
    the wrong length gives the error of the row length, and otherwise the
    call is [unmarshal] on the zero values. It returns the struct exactly
    when it returns no error, and nil otherwise: the fields written before
    a failure are not handed out. *)
Theorem GetStruct_on_zero_value (r : DecodeStruct) (record : list string) :
  (length record <> length (foundCols r) ->
   Rev1.GetStruct L r record = (None, Err row_shape_error))
  /\ (length record = length (foundCols r) ->
      Rev1.GetStruct L r record
      = match Rev1.unmarshal L r (ifields (New L (recordType r))) record with
        | (fs, Nil) => (Some {| itype := recordType r; ifields := fs |}, Nil)
        | (_, stop) => (None, stop)
        end)
  /\ (fst (Rev1.GetStruct L r record) = None
      <-> snd (Rev1.GetStruct L r record) <> Nil)
  /\ (forall v, fst (Rev1.GetStruct L r record) = Some v ->
                itype v = recordType r).
Proof.
  unfold Rev1.GetStruct, Rev1.UnmarshalCSV.
  destruct (Nat.eqb_spec (length record) (length (foundCols r))) as [Heq|Hne];
    cbn [negb].
  - assert (Hty : bool_decide (itype (New L (recordType r)) = recordType r)
                  = true) by (by apply bool_decide_eq_true_2).
    rewrite Hty. cbn [negb].
    destruct (Rev1.unmarshal L r (ifields (New L (recordType r))) record)
      as [fs [|e|msg]]; simpl.
    + repeat split; try done. by intros v [= <-].
    + repeat split; try done.
    + repeat split; try done.
  - simpl. repeat split; try done.
Qed.

(** *** The two revisions *)

(** X18. The two revisions decode a column alike when its field is of a
    type the first revision supports, with one pointer at most, which is
    not a struct type of another package that prints as time.Time, and the
    column is required or its cell is not empty: they differ on the empty
    cells of optional columns, on the types only the second accepts, on
    the pointers to pointers and on the structs that only print as
    time.Time. *)
Theorem revisions_agree (r : DecodeStruct) (rv : list (value L))
    (record : list string) (j : nat) (c : csvFieldInfo) :
  cols r !! j = Some c ->
  (forall fld, Fields (recordType r) !! StructFieldIndex c = Some fld ->
               Rev1.isSupportedField (Type_ fld) = true
               /\ shallow (Type_ fld) = true
               /\ genuine (Type_ fld) = true) ->
  Required c = true
  \/ record !! Z.to_nat (RecordIndex c) <> Some EmptyString ->
  Rev2.unmarshal_column L r rv record j
  = Rev1.unmarshal_column L r rv record j.
Proof.
  intros Hc Hfld Hcell.
  unfold Rev1.unmarshal_column, Rev2.unmarshal_column. rewrite Hc.
  destruct (RecordIndex c <? 0); [done|].
  destruct (record !! Z.to_nat (RecordIndex c)) as [s|] eqn:Hs; [|done].
  assert (Hskip : negb (Required c) && (String.length s =? 0)%nat = false).
  { destruct Hcell as [->|Hne]; [done|].
    destruct s; [done|]. by rewrite andb_false_r. }
  rewrite Hskip.
  destruct (Fields (recordType r) !! StructFieldIndex c) as [fld|]; [|done].
  destruct (Hfld fld eq_refl) as (Hsup & Hsh & Hgen).
  destruct (rv !! StructFieldIndex c) as [f|]; [|done].
  destruct (Exported fld); [|done].
  by rewrite Rev2_setField_agrees.
Qed.

(** X23. A field of a struct type of another package that prints as
    time.Time is accepted by [isSupportedField], which compares the
    text. When the loop reaches a cell of its column that is not skipped
    and that [time.Parse] accepts, [unmarshal] panics in the first
    revision: [Set] refuses the [time.Time] for the field. In the second
    revision the type switch does not take the type for [time.Time], and
    [unmarshal] returns the error of an unsupported type whatever the
    cell. *)
Theorem foreign_time_type_panics (r : DecodeStruct) (rv rv1 : list (value L))
    (record : list string) (pre post : list nat) (j : nat)
    (c : csvFieldInfo) (fld : StructField) (f : value L) (s pkg : string) :
  foundCols r = pre ++ j :: post ->
  cols r !! j = Some c ->
  0 <= RecordIndex c ->
  record !! Z.to_nat (RecordIndex c) = Some s ->
  Fields (recordType r) !! StructFieldIndex c = Some fld ->
  rv1 !! StructFieldIndex c = Some f ->
  Exported fld = true ->
  base (Type_ fld) = Plain reflect.Struct "time.Time" pkg ->
  pkg <> "time"%string ->
  Rev1.isSupportedField (Type_ fld) = true
  /\ Rev2.isSupportedField (Type_ fld) = true
  /\ (Rev1.unmarshal_loop L r rv record pre = (rv1, Nil) ->
      Required c = true \/ s <> EmptyString ->
      Rev1.unmarshal L r rv record
      = (<[StructFieldIndex c := after_failure L (Type_ fld) f]> rv1,
         match time_Parse L (timeFormat r) s with
         | inl _ => Panic (not_assignable (base (Type_ fld)))
         | inr e => Err (TimeParseError e)
         end))
  /\ (Rev2.unmarshal_loop L r rv record pre = (rv1, Nil) ->
      shallow (Type_ fld) = true ->
      Rev2.unmarshal L r rv record
      = (<[StructFieldIndex c := after_failure L (Type_ fld) f]> rv1,
         Err (errorString
                (unsupported_type
                   (Rev2.Value_String (base (Type_ fld))))))).
Proof.
  intros Hfound Hc Hidx Hs Hfld Hf Hexp Hbase Hpkg.
  assert (Hne : Plain reflect.Struct "time.Time" pkg <> time_Time).
  { intros [= ->]. by apply Hpkg. }
  split; [|split; [|split]].
  - by rewrite Rev1_isSupportedField_base, Hbase.
  - by rewrite Rev2_isSupportedField_base, Hbase.
  - intros Hpre Hcell.
    assert (Hskip : negb (Required c) && (String.length s =? 0)%nat = false).
    { destruct Hcell as [->|Hcell]; [done|].
      destruct s; [done|]. by rewrite andb_false_r. }
    rewrite (Rev1_unmarshal_at L r rv rv1 record pre post j Hfound Hpre).
    rewrite (Rev1_column_settable L r rv1 record j c fld f s) by done.
    rewrite Hbase. cbn [Rev1.setField]. simpl.
    rewrite bool_decide_eq_false_2 by done. unfold after_failure.
    by destruct (time_Parse L (timeFormat r) s).
  - intros Hpre Hsh.
    rewrite (Rev2_unmarshal_at L r rv rv1 record pre post j Hfound Hpre).
    unfold Rev2.unmarshal_column. rewrite Hc, Hs, Hfld, Hf, Hexp.
    destruct (Z.ltb_spec (RecordIndex c) 0); [lia|].
    unfold after_failure.
    destruct (Type_ fld) as [k str p|[k str p|elem]]; [| |done];
      simpl in Hbase; injection Hbase as -> -> ->;
      unfold Rev2.setField, Rev2.setField_switch;
      cbn [Rev2.dynamic_type Rev2.type_switch Rev2.predeclared];
      rewrite bool_decide_eq_false_2 by done;
      by rewrite bool_decide_eq_false_2.
Qed.

(** *** Pointers *)

(** X19. The first revision follows the pointers of a field type to any
    depth, at construction and at decoding: a type is accepted exactly
    when the type under all its pointers is, and [setField] parses the
    cell as for that type, into a new variable, and stores new pointers
    that lead to it; the pointer the field held is neither followed nor
    kept, so the result does not depend on it. *)
Theorem pointers_of_any_depth (r : DecodeStruct) (t : rtype) (s : string)
    (f : value L) :
  Rev1.isSupportedField t = Rev1.isSupportedField (base t)
  /\ Rev1.setField L r t f s
     = (pointed L t
          (fst (Rev1.setField L r (base t) (fresh_or_old L t f) s)),
        snd (Rev1.setField L r (base t) (fresh_or_old L t f) s))
  /\ (forall elem g,
        t = Pointer elem ->
        Rev1.setField L r t g s
        = (pointed L t (fst (Rev1.setField L r (base t) (zero L (base t)) s)),
           snd (Rev1.setField L r (base t) (zero L (base t)) s))).
Proof.
  split; [|split].
  - induction t as [k str pkg|elem IH]; [done|exact IH].
  - apply Rev1_setField_base.
  - intros elem g ->. by rewrite Rev1_setField_base.
Qed.

(** *** What the target held before *)

Lemma Rev1_setField_independent (r : DecodeStruct) (t : rtype) (s : string)
    (f1 f2 : value L) :
  snd (Rev1.setField L r t f1 s) = snd (Rev1.setField L r t f2 s)
  /\ (snd (Rev1.setField L r t f1 s) = Nil ->
      fst (Rev1.setField L r t f1 s) = fst (Rev1.setField L r t f2 s)).
Proof.
  destruct t as [k str pkg|elem]; [|done].
  cbn [Rev1.setField]. destruct k; try done.
  - by destruct (strconv_ParseBool s).
  - by destruct (strconv_ParseInt _ s) as [i [e|]].
  - by destruct (strconv_ParseInt _ s) as [i [e|]].
  - by destruct (strconv_ParseInt _ s) as [i [e|]].
  - by destruct (strconv_ParseInt _ s) as [i [e|]].
  - by destruct (strconv_ParseInt _ s) as [i [e|]].
  - by destruct (strconv_ParseUint _ s) as [i [e|]].
  - by destruct (strconv_ParseUint _ s) as [i [e|]].
  - by destruct (strconv_ParseUint _ s) as [i [e|]].
  - by destruct (strconv_ParseUint _ s) as [i [e|]].
  - by destruct (strconv_ParseUint _ s) as [i [e|]].
  - by destruct (strconv_ParseFloat L s).
  - by destruct (strconv_ParseFloat L s).
  - destruct (negb _); [done|].
    destruct (time_Parse L (timeFormat r) s); [|done].
    by destruct (bool_decide _).
Qed.

(** One turn of the loop on two targets of the same size. *)
Lemma Rev1_column_two_targets (r : DecodeStruct) (record : list string)
    (j : nat) (rv1 rv2 : list (value L)) :
  length rv1 = length rv2 ->
  snd (Rev1.unmarshal_column L r rv1 record j)
  = snd (Rev1.unmarshal_column L r rv2 record j)
  /\ length (fst (Rev1.unmarshal_column L r rv1 record j))
     = length (fst (Rev1.unmarshal_column L r rv2 record j))
  /\ (forall k, rv1 !! k = rv2 !! k ->
        fst (Rev1.unmarshal_column L r rv1 record j) !! k
        = fst (Rev1.unmarshal_column L r rv2 record j) !! k)
  /\ (snd (Rev1.unmarshal_column L r rv1 record j) = Nil ->
      forall c fld s,
        cols r !! j = Some c ->
        record !! Z.to_nat (RecordIndex c) = Some s ->
        Required c = true \/ s <> EmptyString ->
        Fields (recordType r) !! StructFieldIndex c = Some fld ->
        Exported fld = true ->
        fst (Rev1.unmarshal_column L r rv1 record j) !! StructFieldIndex c
        = fst (Rev1.unmarshal_column L r rv2 record j) !! StructFieldIndex c).
Proof.
  intros Hlen. unfold Rev1.unmarshal_column.
  destruct (cols r !! j) as [c|] eqn:Hcj; [|done].
  destruct (RecordIndex c <? 0); [done|].
  destruct (record !! Z.to_nat (RecordIndex c)) as [s|] eqn:Hrec; [|done].
  destruct (negb (Required c) && (String.length s =? 0)%nat) eqn:Hskip.
  { simpl. repeat split; try done.
    intros _ c' fld s' [= <-] Hs' Hcell. exfalso.
    rewrite Hrec in Hs'. injection Hs' as <-.
    apply andb_true_iff in Hskip as [Hr Hs].
    destruct Hcell as [Hreq|Hne]; [by rewrite Hreq in Hr|].
    by destruct s. }
  destruct (Fields (recordType r) !! StructFieldIndex c) as [fld|] eqn:Hfld;
    [|done].
  destruct (rv1 !! StructFieldIndex c) as [f1|] eqn:H1;
    destruct (rv2 !! StructFieldIndex c) as [f2|] eqn:H2.
  2: { apply lookup_lt_Some in H1. apply lookup_ge_None in H2. lia. }
  2: { apply lookup_lt_Some in H2. apply lookup_ge_None in H1. lia. }
  2: done.
  destruct (Exported fld) eqn:Hexp.
  2: { simpl. repeat split; try done.
       intros _ c' fld' s' [= <-] _ _ Hfld' Hexp'.
       rewrite Hfld in Hfld'. injection Hfld' as <-. congruence. }
  destruct (Rev1_setField_independent r (Type_ fld) s f1 f2) as [Herr Hval].
  pose proof (lookup_lt_Some _ _ _ H1) as Hlt1.
  pose proof (lookup_lt_Some _ _ _ H2) as Hlt2.
  destruct (Rev1.setField L r (Type_ fld) f1 s) as [v1 o1] eqn:Hs1;
    destruct (Rev1.setField L r (Type_ fld) f2 s) as [v2 o2] eqn:Hs2;
    simpl in *. subst o2.
  split; [done|]. split; [by rewrite !length_insert|]. split.
  - intros k Hk.
    destruct (decide (k = StructFieldIndex c)) as [->|Hne].
    + rewrite !list_lookup_insert_eq by done.
      rewrite H1, H2 in Hk. injection Hk as ->.
      rewrite Hs1 in Hs2. by injection Hs2 as ->.
    + by rewrite !list_lookup_insert_ne.
  - intros Hnil c' fld' s' [= <-] _ _ _ _.
    rewrite !list_lookup_insert_eq by done. by rewrite (Hval Hnil).
Qed.

(** X20. Whether a row is decoded, and with which error, does not depend
    on what the target holds: on two targets with the same number of
    fields [unmarshal] ends alike, fields that were equal stay equal, and
    after a success every settable field of a bound column whose cell was
    not skipped holds the same value in both, because it was overwritten
    (first revision). *)
Theorem decoding_overwrites (r : DecodeStruct) (record : list string)
    (rv1 rv2 : list (value L)) :
  length rv1 = length rv2 ->
  snd (Rev1.unmarshal L r rv1 record) = snd (Rev1.unmarshal L r rv2 record)
  /\ (forall k, rv1 !! k = rv2 !! k ->
        fst (Rev1.unmarshal L r rv1 record) !! k
        = fst (Rev1.unmarshal L r rv2 record) !! k)
  /\ (snd (Rev1.unmarshal L r rv1 record) = Nil ->
      forall j c fld s,
        j ∈ foundCols r ->
        cols r !! j = Some c ->
        record !! Z.to_nat (RecordIndex c) = Some s ->
        Required c = true \/ s <> EmptyString ->
        Fields (recordType r) !! StructFieldIndex c = Some fld ->
        Exported fld = true ->
        fst (Rev1.unmarshal L r rv1 record) !! StructFieldIndex c
        = fst (Rev1.unmarshal L r rv2 record) !! StructFieldIndex c).
Proof.
  unfold Rev1.unmarshal. generalize (foundCols r) as fc. intros fc.
  revert rv1 rv2.
  assert (Hgen : forall rv1 rv2, length rv1 = length rv2 ->
            snd (Rev1.unmarshal_loop L r rv1 record fc)
            = snd (Rev1.unmarshal_loop L r rv2 record fc)
            /\ (forall k, rv1 !! k = rv2 !! k ->
                  fst (Rev1.unmarshal_loop L r rv1 record fc) !! k
                  = fst (Rev1.unmarshal_loop L r rv2 record fc) !! k)
            /\ (snd (Rev1.unmarshal_loop L r rv1 record fc) = Nil ->
                forall j c fld s,
                  j ∈ fc ->
                  cols r !! j = Some c ->
                  record !! Z.to_nat (RecordIndex c) = Some s ->
                  Required c = true \/ s <> EmptyString ->
                  Fields (recordType r) !! StructFieldIndex c = Some fld ->
                  Exported fld = true ->
                  fst (Rev1.unmarshal_loop L r rv1 record fc)
                    !! StructFieldIndex c
                  = fst (Rev1.unmarshal_loop L r rv2 record fc)
                      !! StructFieldIndex c)); [|exact Hgen].
  induction fc as [|j0 fc IH]; intros rv1 rv2 Hlen; simpl.
  - repeat split; try done. intros _ j c fld s Hj. by apply elem_of_nil in Hj.
  - destruct (Rev1_column_two_targets r record j0 rv1 rv2 Hlen)
      as (Hout & Hlen' & Hagree & Hwritten).
    destruct (Rev1.unmarshal_column L r rv1 record j0) as [a1 o1];
      destruct (Rev1.unmarshal_column L r rv2 record j0) as [a2 o2].
    simpl in *. subst o2.
    destruct o1 as [|e|msg]; simpl; [|by repeat split; auto..].
    destruct (IH a1 a2 Hlen') as (IHout & IHagree & IHwritten).
    split; [done|]. split; [by auto|].
    intros Hnil j c fld s Hj Hc Hs Hcell Hfld Hexp.
    apply elem_of_cons in Hj as [->|Hj].
    + apply IHagree. by apply (Hwritten eq_refl c fld s).
    + by apply (IHwritten Hnil j c fld s).
Qed.

(** *** What a successful call stores *)

Lemma Rev1_column_stores (r : DecodeStruct) (rv rv' : list (value L))
    (record : list string) (j : nat) (c : csvFieldInfo) (fld : StructField)
    (s : string) :
  Rev1.unmarshal_column L r rv record j = (rv', Nil) ->
  cols r !! j = Some c ->
  record !! Z.to_nat (RecordIndex c) = Some s ->
  Required c = true \/ s <> EmptyString ->
  Fields (recordType r) !! StructFieldIndex c = Some fld ->
  Exported fld = true ->
  rv' !! StructFieldIndex c
  = Some (fst (Rev1.setField L r (Type_ fld) (zero L (Type_ fld)) s))
  /\ snd (Rev1.setField L r (Type_ fld) (zero L (Type_ fld)) s) = Nil.
Proof.
  intros Hcol Hc Hs Hcell Hfld Hexp. unfold Rev1.unmarshal_column in Hcol.
  rewrite Hc, Hs, Hfld, Hexp in Hcol.
  destruct (RecordIndex c <? 0); [done|].
  assert (Hskip : negb (Required c) && (String.length s =? 0)%nat = false).
  { destruct Hcell as [->|Hne]; [done|].
    destruct s; [done|]. by rewrite andb_false_r. }
  rewrite Hskip in Hcol.
  destruct (rv !! StructFieldIndex c) as [f|] eqn:Hf; [|done].
  destruct (Rev1_setField_independent r (Type_ fld) s f (zero L (Type_ fld)))
    as [Herr Hval].
  destruct (Rev1.setField L r (Type_ fld) f s) as [v res].
  injection Hcol as <- ->. simpl in *.
  split; [|done].
  rewrite list_lookup_insert_eq by (by apply lookup_lt_Some in Hf).
  by rewrite (Hval eq_refl).
Qed.

Lemma Rev1_loop_keeps_stored (r : DecodeStruct) (record : list string)
    (j : nat) (c : csvFieldInfo) (v : value L) :
  NoDup (StructFieldIndex <$> cols r) ->
  cols r !! j = Some c ->
  (forall rv rv', Rev1.unmarshal_column L r rv record j = (rv', Nil) ->
                  rv !! StructFieldIndex c = Some v ->
                  rv' !! StructFieldIndex c = Some v) ->
  forall (fc : list nat) (rv rv' : list (value L)),
    Rev1.unmarshal_loop L r rv record fc = (rv', Nil) ->
    rv !! StructFieldIndex c = Some v ->
    rv' !! StructFieldIndex c = Some v.
Proof.
  intros Hnd Hc Hsame fc.
  induction fc as [|j' fc IH]; intros rv rv'; simpl.
  - by intros [= <-].
  - destruct (Rev1.unmarshal_column L r rv record j') as [rv1 [|e|msg]]
      eqn:Hcol; [|done..].
    intros Hloop Hv. apply (IH rv1 rv' Hloop).
    destruct (decide (j' = j)) as [->|Hne].
    + by apply (Hsame rv rv1).
    + pose proof (Rev1_column_untouched r rv record j' (StructFieldIndex c))
        as Hun.
      rewrite Hcol in Hun. simpl in Hun. rewrite Hun; [done|].
      intros c' Hc' Heq. apply Hne.
      eapply (NoDup_lookup _ _ _ _ Hnd); rewrite list_lookup_fmap.
      * by rewrite Hc'.
      * rewrite Hc. simpl. by rewrite Heq.
Qed.

(** X21. After a successful [unmarshal] (first revision, descriptors with
    distinct fields), the field of every bound column that is settable and
    whose cell is not skipped holds the value [setField] makes of the cell
    the descriptor is bound to, parsed without error: each column of the
    header ends in the field of its descriptor. *)
Theorem decoded_field_value (r : DecodeStruct) (rv rv' : list (value L))
    (record : list string) (j : nat) (c : csvFieldInfo) (fld : StructField)
    (s : string) :
  NoDup (StructFieldIndex <$> cols r) ->
  Rev1.unmarshal L r rv record = (rv', Nil) ->
  j ∈ foundCols r ->
  cols r !! j = Some c ->
  record !! Z.to_nat (RecordIndex c) = Some s ->
  Required c = true \/ s <> EmptyString ->
  Fields (recordType r) !! StructFieldIndex c = Some fld ->
  Exported fld = true ->
  rv' !! StructFieldIndex c
  = Some (fst (Rev1.setField L r (Type_ fld) (zero L (Type_ fld)) s))
  /\ snd (Rev1.setField L r (Type_ fld) (zero L (Type_ fld)) s) = Nil.
Proof.
  intros Hnd Hloop Hj Hc Hs Hcell Hfld Hexp. unfold Rev1.unmarshal in Hloop.
  revert rv Hloop. induction (foundCols r) as [|j' fc IH]; intros rv Hloop.
  - by apply elem_of_nil in Hj.
  - simpl in Hloop.
    destruct (Rev1.unmarshal_column L r rv record j') as [rv1 [|e|msg]]
      eqn:Hcol; [|done..].
    destruct (decide (j' = j)) as [->|Hne].
    + destruct (Rev1_column_stores r rv rv1 record j c fld s Hcol Hc Hs Hcell
                  Hfld Hexp) as [Hv Hok].
      split; [|done].
      apply (Rev1_loop_keeps_stored r record j c _ Hnd Hc) with fc rv1;
        [|done..].
      intros a a' Ha _.
      by destruct (Rev1_column_stores r a a' record j c fld s Ha Hc Hs Hcell
                     Hfld Hexp).
    + apply elem_of_cons in Hj as [->|Hj]; [done|]. by apply (IH Hj rv1).
Qed.

End Rows.

(** ** The two constructors *)

Section Constructors.
Variable L : GoStd.

Lemma Rev1_supported_Rev2 (t : rtype) :
  Rev1.isSupportedField t = true -> Rev2.isSupportedField t = true.
Proof.
  induction t as [k str pkg|elem IH]; simpl; [|exact IH]. by destruct k.
Qed.

(** X22. Every type the first revision of [isSupportedField] accepts, the
    second accepts, and a construction that succeeds in the first revision
    returns the same decoder in the second. *)
Theorem Rev2_builds_what_Rev1_builds (v : shape) (opts : list option_)
    (r : DecodeStruct) :
  Rev1.NewDecodeStruct L v opts = Built r ->
  Rev2.NewDecodeStruct L v opts = Built r
  /\ forall t, Rev1.isSupportedField t = true ->
               Rev2.isSupportedField t = true.
Proof.
  intros Hb. split; [|apply Rev1_supported_Rev2].
  assert (Hgen : forall rt,
            match Rev1.NewDecodeStruct_fields L (configured opts) 0
                    (Fields rt) with
            | Built reader => Built (set_recordType reader rt)
            | BuildPanic msg => BuildPanic msg
            end = Built r ->
            match Rev2.NewDecodeStruct_fields L (configured opts) 0
                    (Fields rt) with
            | Built reader => Built (set_recordType reader rt)
            | BuildPanic msg => BuildPanic msg
            end = Built r).
  { intros rt.
    pose proof (Rev1_fields_spec L (Fields rt) (configured opts) 0) as H1.
    pose proof (Rev2_fields_spec L (Fields rt) (configured opts) 0) as H2.
    destruct (forallb (fun f => Rev1.isSupportedField (Type_ f)) (Fields rt))
      eqn:Hsup; cbv iota in H1.
    - assert (Hsup2 : forallb (fun f => Rev2.isSupportedField (Type_ f))
                        (Fields rt) = true).
      { rewrite forallb_forall in Hsup |- *. intros f Hf.
        apply Rev1_supported_Rev2. by apply Hsup. }
      rewrite Hsup2 in H2. by rewrite H1, H2.
    - destruct H1 as [msg ->]. done. }
  destruct v as [rt|rt|]; [by apply Hgen|by apply Hgen|done].
Qed.

End Constructors.

(** ** The further properties at concrete inputs *)

Lemma decoding_never_panics_witness :
  snd (Rev1.GetStruct std (decoder_for person ["Name"; "Extra"]) ["Alice"])
  <> Panic "".
Proof.
  apply (proj1 (proj2 (decoding_never_panics std (OfPointer person) person []
                         person_decoder ["Name"; "Extra"] ["Alice"]
                         (New std person) eq_refl ltac:(repeat constructor)
                         eq_refl eq_refl))).
Defined.

Lemma ParseHeader_errors_witness :
  exists m, mandatory_missing std (age_descriptor (-1)) = IncorrectFileErr m.
Proof.
  destruct (ParseHeader_errors std person_decoder ["Name"]
              (mandatory_missing std (age_descriptor (-1))) eq_refl)
    as [(cell & _ & _ & He)|(f & _ & _ & _ & He)];
    rewrite He; eexists; reflexivity.
Defined.

Lemma ParseHeader_binds_last_witness :
  exists f',
    cols (fst (ParseHeader std person_decoder ["Name"; "Age"; "Name"]))
      !! 0%nat = Some f'
    /\ Header f' = "name"%string.
Proof.
  destruct (ParseHeader_binds_last std person_decoder ["Name"; "Age"; "Name"]
              0 name_descriptor ltac:(repeat constructor) eq_refl)
    as (f' & Hl & Hh & _).
  exists f'. split; [exact Hl|exact Hh].
Defined.

Lemma bindings_and_header_width_witness :
  Rev1.UnmarshalCSV std (decoder_for same_column ["x"]) ["v"]
    (New std same_column)
  = (New std same_column, Err row_shape_error).
Proof.
  apply (proj2 (proj2 (proj2
           (bindings_and_header_width std
              (decoder_of (Rev1.NewDecodeStruct std (OfPointer same_column) []))
              (decoder_for same_column ["x"]) ["x"] eq_refl)))
           ["v"] (New std same_column) eq_refl).
  intros H. inversion H as [|cell rest H1 H2]. discriminate H1.
Defined.

Lemma ParseHeader_normalized_only_witness :
  fst (ParseHeader std person_decoder ["Name"; "Age"])
  = fst (ParseHeader std person_decoder [" name "; "AGE"]).
Proof.
  apply (proj1 (ParseHeader_normalized_only std person_decoder
                  ["Name"; "Age"] [" name "; "AGE"] eq_refl)).
Defined.

Lemma ParseHeader_order_irrelevant_witness :
  snd (ParseHeader std person_decoder ["Name"; "Age"])
  = snd (ParseHeader std person_decoder ["Age"; "Name"]).
Proof.
  apply (proj2 (ParseHeader_order_irrelevant std person_decoder
                  ["Name"; "Age"] ["Age"; "Name"]
                  (perm_swap "Age"%string "Name"%string []))).
  repeat constructor.
Defined.

Lemma NewDecodeStruct_descriptors_witness :
  map StructFieldIndex (cols person_decoder)
  = kept_indices defaultCSVTagName 0 (Fields person).
Proof.
  apply (proj1 (NewDecodeStruct_descriptors std (OfPointer person) person []
                  person_decoder eq_refl eq_refl)).
Defined.

Lemma options_last_wins_witness :
  timeFormat
    (decoder_of
       (Rev1.NewDecodeStruct std (OfPointer person)
          [WithTimeFormat "2006-01-02"; WithCSVTagName "csv";
           WithTimeFormat "15:04"]))
  = "15:04"%string.
Proof.
  apply (proj1 (options_last_wins std (OfPointer person) person
                  [WithTimeFormat "2006-01-02"; WithCSVTagName "csv";
                   WithTimeFormat "15:04"]
                  (decoder_of
                     (Rev1.NewDecodeStruct std (OfPointer person)
                        [WithTimeFormat "2006-01-02"; WithCSVTagName "csv";
                         WithTimeFormat "15:04"]))
                  eq_refl eq_refl)
           [WithTimeFormat "2006-01-02"; WithCSVTagName "csv"]
           (WithTimeFormat "15:04") [] eq_refl ltac:(constructor)).
Defined.

Lemma descriptor_names_witness :
  exists f,
    Fields person !! 0%nat = Some f
    /\ Tag_Get (Tag f) defaultCSVTagName <> "-"%string.
Proof.
  assert (Hin : name_descriptor ∈ cols person_decoder).
  { apply (list_elem_of_lookup_2 _ 0%nat). vm_compute. reflexivity. }
  destruct (descriptor_names std (OfPointer person) person [] person_decoder
              name_descriptor eq_refl eq_refl Hin)
    as (f & Hf & Hdash & _).
  exists f. split; [exact Hf|exact Hdash].
Defined.

Lemma unbound_fields_untouched_witness :
  ifields (fst (Rev1.UnmarshalCSV std (decoder_for person ["Name"; "Age"])
                  ["Alice"; "30"] (New std person))) !! 2%nat
  = ifields (New std person) !! 2%nat.
Proof.
  assert (Hk : forall j c,
            j ∈ foundCols (decoder_for person ["Name"; "Age"]) ->
            cols (decoder_for person ["Name"; "Age"]) !! j = Some c ->
            StructFieldIndex c <> 2%nat).
  { intros j c Hj Hc.
    change (j ∈ [0%nat; 1%nat]) in Hj.
    apply elem_of_cons in Hj as [->|Hj];
      [|apply elem_of_cons in Hj as [->|Hj]; [|by apply elem_of_nil in Hj]];
      vm_compute in Hc; injection Hc as <-; discriminate. }
  exact (proj1 (unbound_fields_untouched std
                  (decoder_for person ["Name"; "Age"]) ["Alice"; "30"]
                  (New std person) 2 Hk)).
Defined.

Lemma only_bound_cells_read_witness :
  Rev1.UnmarshalCSV std (decoder_for person ["Name"; "Age"; "Name"])
    ["first"; "30"; "Alice"] (New std person)
  = Rev1.UnmarshalCSV std (decoder_for person ["Name"; "Age"; "Name"])
      ["other"; "30"; "Alice"] (New std person).
Proof.
  apply (proj1 (only_bound_cells_read std
                  (decoder_for person ["Name"; "Age"; "Name"])
                  ["first"; "30"; "Alice"] ["other"; "30"; "Alice"]
                  (New std person) eq_refl
                  ltac:(intros j c Hj Hc;
                        change (j ∈ [0%nat; 1%nat; 0%nat]) in Hj;
                        repeat (apply elem_of_cons in Hj as [->|Hj]);
                        try (by apply elem_of_nil in Hj);
                        vm_compute in Hc; injection Hc as <-;
                        reflexivity))).
Defined.

Lemma decoded_values_typed_witness :
  well_typed std
    (fst (Rev1.UnmarshalCSV std (decoder_for tiny ["N"]) ["300"]
            (New std tiny))).
Proof.
  apply (proj1 (decoded_values_typed std (decoder_for tiny ["N"]) ["300"]
                  (New std tiny) (New_well_typed std tiny))).
Defined.

Lemma UnmarshalCSV_errors_witness :
  exists fn cell k,
    cell ∈ ["Alice"; "x"]
    /\ NumError "ParseInt" "x" ErrSyntax = NumError fn cell k.
Proof.
  destruct (UnmarshalCSV_errors std (OfPointer person) person []
              person_decoder ["Name"; "Age"] ["Alice"; "x"] (New std person)
              (NumError "ParseInt" "x" ErrSyntax) eq_refl eq_refl eq_refl)
    as [H|[H|[H|[pe H]]]]; [discriminate H|discriminate H|exact H|
                             discriminate H].
Defined.

Lemma revisions_agree_witness :
  Rev2.unmarshal_column std (decoder_for person ["Name"; "Age"])
    (ifields (New std person)) ["Alice"; "30"] 1
  = Rev1.unmarshal_column std (decoder_for person ["Name"; "Age"])
      (ifields (New std person)) ["Alice"; "30"] 1.
Proof.
  apply (revisions_agree std (decoder_for person ["Name"; "Age"])
           (ifields (New std person)) ["Alice"; "30"] 1 (age_descriptor 1)
           eq_refl).
  - intros fld Hfld. vm_compute in Hfld. injection Hfld as <-.
    repeat split.
  - left. reflexivity.
Defined.

Lemma foreign_time_type_panics_witness :
  Rev1.unmarshal std (decoder_for borrowed ["T"]) (ifields (New std borrowed))
    ["2017-10-09T12:30:30+07:00"]
  = ([VOpaque], Panic (not_assignable foreign_Time)).
Proof.
  assert (Hne : "2017-10-09T12:30:30+07:00"%string <> EmptyString)
    by discriminate.
  destruct (foreign_time_type_panics std (decoder_for borrowed ["T"])
              (ifields (New std borrowed)) (ifields (New std borrowed))
              ["2017-10-09T12:30:30+07:00"] [] [] 0
              {| Header := "t"; Required := false; RecordIndex := 0;
                 StructFieldIndex := 0 |}
              (field "T" foreign_Time []) VOpaque
              "2017-10-09T12:30:30+07:00" "example.com/time"
              eq_refl eq_refl ltac:(simpl; lia) eq_refl eq_refl eq_refl
              eq_refl eq_refl ltac:(discriminate))
    as (_ & _ & H & _).
  etransitivity; [exact (H eq_refl (or_intror Hne))|]. reflexivity.
Defined.

Lemma decoding_overwrites_witness :
  snd (Rev1.unmarshal std (decoder_for person ["Name"; "Age"])
         (ifields (New std person)) ["Alice"; "30"])
  = snd (Rev1.unmarshal std (decoder_for person ["Name"; "Age"])
           [VString "old"; VInt 7; VFloat (1 : float64 std)]
           ["Alice"; "30"]).
Proof.
  apply (proj1 (decoding_overwrites std (decoder_for person ["Name"; "Age"])
                  ["Alice"; "30"] (ifields (New std person))
                  [VString "old"; VInt 7; VFloat (1 : float64 std)]
                  eq_refl)).
Defined.

Lemma decoded_field_value_witness :
  snd (Rev1.setField std (decoder_for person ["Name"; "Age"]) t_int
         (zero std t_int) "30") = Nil.
Proof.
  apply (proj2 (decoded_field_value std (decoder_for person ["Name"; "Age"])
                  (ifields (New std person))
                  [VString "Alice"; VInt 30; VFloat (0 : float64 std)]
                  ["Alice"; "30"] 1 (age_descriptor 1)
                  (field "Age" t_int [("csv", "Age,required")]) "30"
                  ltac:(compute_done) eq_refl ltac:(compute_done) eq_refl
                  eq_refl (or_introl eq_refl) eq_refl eq_refl)).
Defined.

Lemma Rev2_builds_what_Rev1_builds_witness :
  Rev2.NewDecodeStruct std (OfPointer person) [] = Built person_decoder.
Proof.
  apply (proj1 (Rev2_builds_what_Rev1_builds std (OfPointer person) []
                  person_decoder eq_refl)).
Defined.
